(** * helmt: the chart-processing pipeline of [pkg/helmt/helmt.go]

    A shallow embedding of the Go package [helmt] and the properties of
    its pipeline: descriptor validation, the argument lists handed to
    the external [helm] tool, the redaction of the password in logged
    command lines, the staging of the fetched chart, the removal of
    the previous output and the synthesis of [kustomization.yaml].

    Go strings are byte strings and are modelled by [string]; slices of
    strings by [list string]; a Go function that returns [error] by a
    computation in the monad [M] below. *)

From Stdlib Require Import Ascii String List Bool Arith NArith Lia Sorted.
Import ListNotations.

Local Open Scope list_scope.
Local Open Scope string_scope.

Set Implicit Arguments.

(** ** Byte strings *)

Module Str.

(** [strings.Contains s sub]. *)
Fixpoint Contains (s sub : string) : bool :=
  prefix sub s ||
  match s with
  | "" => false
  | String _ s' => Contains s' sub
  end.

(** [sub] occurs somewhere in [s]. *)
Definition Occurs (sub s : string) : Prop := exists a b, s = a ++ sub ++ b.

(** [strings.Join elems sep] is [String.concat sep elems]. *)
Definition Join (elems : list string) (sep : string) : string :=
  String.concat sep elems.

(** The scan of [strings.Replace] with a non-empty [old] and no limit:
    at the leftmost occurrence of [old] the text [new] is emitted and
    the bytes of the occurrence are stepped over ([skip] counts the
    bytes of it still ahead), so occurrences never overlap. *)
Fixpoint replace_scan (old new : string) (skip : nat) (s : string) : string :=
  match s with
  | "" => ""
  | String c s' =>
      match skip with
      | S k => replace_scan old new k s'
      | O =>
          if prefix old s
          then new ++ replace_scan old new (String.length old - 1) s'
          else String c (replace_scan old new 0 s')
      end
  end.

(** With an empty [old], [strings.Replace] inserts [new] in front of
    every character and after the last one (a character is a byte
    here; the package never replaces an empty text, the text it looks
    for starts with [--password]). *)
Fixpoint replace_empty (new s : string) : string :=
  match s with
  | "" => new
  | String c s' => new ++ String c (replace_empty new s')
  end.

(** [strings.ReplaceAll s old new]. *)
Definition ReplaceAll (s old new : string) : string :=
  match old with
  | "" => replace_empty new s
  | _ => replace_scan old new 0 s
  end.

End Str.

(** ** Errors and results

    A Go [error] value is modelled by its kind and the data its message
    is made of; [error_text] is the [Error()] method. *)

Inductive error :=
| PathError (op path reason : string)      (* [*os.PathError] *)
| ExitError (reason : string)              (* failure of a started command *)
| ParseError (reason : string)             (* failure of [yaml.Unmarshal] *)
| ValidationErrors (fields : list string)  (* [validator.ValidationErrors] *)
| Errorf (msg : string).                   (* [fmt.Errorf] *)

Definition nl : string := String "010"%char "".

Definition field_error_text (f : string) : string :=
  "Key: 'HelmChart." ++ f ++ "' Error:Field validation for '" ++ f
  ++ "' failed on the 'required' tag".

Definition error_text (e : error) : string :=
  match e with
  | PathError op path reason => op ++ " " ++ path ++ ": " ++ reason
  | ExitError reason => reason
  | ParseError reason => reason
  | ValidationErrors fields => String.concat nl (map field_error_text fields)
  | Errorf msg => msg
  end.

Inductive result (A : Type) :=
| Ok (a : A)
| Err (e : error).

Arguments Ok {A} a.
Arguments Err {A} e.

(** ** The file system

    A tree of directories, regular files and sockets below the root
    [/]; a socket stands for what is neither a directory nor a regular
    file.  There are no symbolic links, and nothing is refused for want
    of a permission.  A directory keeps its entries as on disk, in no
    particular order; looking a name up takes the first entry of that
    name. *)

Module FS.

#[local] Set Warnings "-register-all".

Inductive node :=
| File (data : string)
| Dir (entries : list (string * node))
| Socket.

Definition path := list string.

Fixpoint assoc (name : string) (es : list (string * node)) : option node :=
  match es with
  | [] => None
  | (k, v) :: es' => if k =? name then Some v else assoc name es'
  end.

(** Overwrite the entry [name], or add it when there is none. *)
Fixpoint set_entry (name : string) (v : node) (es : list (string * node))
  : list (string * node) :=
  match es with
  | [] => [(name, v)]
  | (k, x) :: es' =>
      if k =? name then (k, v) :: es' else (k, x) :: set_entry name v es'
  end.

Definition del_entry (name : string) (es : list (string * node))
  : list (string * node) :=
  filter (fun e => negb (fst e =? name)) es.

Fixpoint lookup (p : path) (n : node) : option node :=
  match p with
  | [] => Some n
  | c :: p' =>
      match n with
      | Dir es =>
          match assoc c es with
          | Some m => lookup p' m
          | None => None
          end
      | _ => None
      end
  end.

(** Replace the node at [p]; its parent directory must exist. *)
Fixpoint put (p : path) (v : node) (n : node) : option node :=
  match p with
  | [] => Some v
  | c :: p' =>
      match n with
      | Dir es =>
          match p' with
          | [] => Some (Dir (set_entry c v es))
          | _ :: _ =>
              match assoc c es with
              | Some m =>
                  match put p' v m with
                  | Some m' => Some (Dir (set_entry c m' es))
                  | None => None
                  end
              | None => None
              end
          end
      | _ => None
      end
  end.

(** Remove the node at [p] with everything below it; nothing changes
    when there is no such node.  The root itself stays. *)
Fixpoint remove (p : path) (n : node) : node :=
  match p with
  | [] => n
  | c :: p' =>
      match n with
      | Dir es =>
          match p' with
          | [] => Dir (del_entry c es)
          | _ :: _ =>
              match assoc c es with
              | Some m => Dir (set_entry c (remove p' m) es)
              | None => n
              end
          end
      | _ => n
      end
  end.

(** Remove the entries of the directory at [p]. *)
Definition clear (p : path) (n : node) : node :=
  match put p (Dir []) n with
  | Some n' => n'
  | None => n
  end.

(** *** Path strings *)

(** [strings.Split s "/"]. *)
Fixpoint split (s : string) : list string :=
  match s with
  | "" => [""]
  | String c s' =>
      if (c =? "/")%char then "" :: split s'
      else match split s' with
           | x :: xs => String c x :: xs
           | [] => [String c ""]
           end
  end.

(** The lexical processing of path elements shared by [path.Clean] and
    by the resolution of a path: empty and [.] elements are dropped, a
    [..] element removes the name before it, is dropped at the root and
    is kept in front of a relative path.  [stack] holds the elements
    seen so far, last one first. *)
Fixpoint normalize (rooted : bool) (stack cs : list string) : list string :=
  match cs with
  | [] => stack
  | c :: cs' =>
      if (c =? "") || (c =? ".") then normalize rooted stack cs'
      else if c =? ".." then
        match stack with
        | top :: rest =>
            if negb rooted && (top =? "..") then normalize rooted (c :: stack) cs'
            else normalize rooted rest cs'
        | [] =>
            if rooted then normalize rooted [] cs'
            else normalize rooted [c] cs'
        end
      else normalize rooted (c :: stack) cs'
  end.

(** No byte of the string is a slash. *)
Fixpoint slash_free (s : string) : bool :=
  match s with
  | "" => true
  | String c s' => negb (c =? "/")%char && slash_free s'
  end.

(** A path element that is a name: not empty, not [.] and not [..]. *)
Definition is_name (c : string) : bool :=
  negb ((c =? "") || (c =? ".") || (c =? "..")).

(** [path.Clean], which is [filepath.Clean] on Unix. *)
Definition Clean (s : string) : string :=
  let rooted := prefix "/" s in
  let cs := rev (normalize rooted [] (split s)) in
  if rooted then "/" ++ String.concat "/" cs
  else match cs with
       | [] => "."
       | _ :: _ => String.concat "/" cs
       end.

(** [path.Join] and [filepath.Join]: leading empty elements are ignored,
    the rest is joined with slashes and cleaned. *)
Fixpoint Join (elem : list string) : string :=
  match elem with
  | [] => ""
  | e :: elem' => if e =? "" then Join elem' else Clean (String.concat "/" elem)
  end.

(** The place a path string names when its elements are taken by the
    letter, from the working directory [cwd]: what [path.Clean] makes
    of the path.  Whether there is such a place, the kernel decides
    ([namei] below). *)
Definition resolve (cwd : path) (s : string) : path :=
  rev (normalize true (if prefix "/" s then [] else rev cwd) (split s)).

(** *** What the kernel finds *)

Inductive errno :=
| ENOENT | ENOTDIR | EISDIR | EINVAL | ENOTEMPTY | EBUSY | ENXIO.

(** The text of [syscall.Errno.Error]. *)
Definition errno_text (e : errno) : string :=
  match e with
  | ENOENT => "no such file or directory"
  | ENOTDIR => "not a directory"
  | EISDIR => "is a directory"
  | EINVAL => "invalid argument"
  | ENOTEMPTY => "directory not empty"
  | EBUSY => "device or resource busy"
  | ENXIO => "no such device or address"
  end.

(** The walk of the kernel along the elements [cs] of a path.  [stack]
    holds the names that lead from the root to the place reached, last
    one first.  An element is looked up in a directory only: an empty
    element and [.] stay there, [..] goes to the parent (the root is
    its own parent), a name goes to the entry of that name. *)
Fixpoint follow (t : node) (stack cs : list string) : errno + list string :=
  match cs with
  | [] => inr stack
  | c :: cs' =>
      match lookup (rev stack) t with
      | Some (Dir es) =>
          if (c =? "") || (c =? ".") then follow t stack cs'
          else if c =? ".." then follow t (tl stack) cs'
          else
            match assoc c es with
            | Some _ => follow t (c :: stack) cs'
            | None => inl ENOENT
            end
      | Some _ => inl ENOTDIR
      | None => inl ENOENT
      end
  end.

(** Where a walk starts: at the root for a path that begins with a
    slash, at the working directory otherwise.  The working directory
    is known by its path; while there is no directory at this path,
    nothing is found from it. *)
Definition start (cwd : path) (s : string) : list string :=
  if prefix "/" s then [] else rev cwd.

(** The place a path names ([lstat(2)]).  The empty path names
    nothing. *)
Definition namei (cwd : path) (s : string) (t : node) : errno + path :=
  if s =? "" then inl ENOENT
  else
    match follow t (start cwd s) (split s) with
    | inr stack => inr (rev stack)
    | inl e => inl e
    end.

(** What is at the place a path names. *)
Definition stat (cwd : path) (s : string) (t : node) : errno + node :=
  match namei cwd s t with
  | inr p =>
      match lookup p t with
      | Some n => inr n
      | None => inl ENOENT
      end
  | inl e => inl e
  end.

(** [open(2)] for reading: a socket cannot be opened. *)
Definition open_read (cwd : path) (s : string) (t : node) : errno + path :=
  match namei cwd s t with
  | inr p =>
      match lookup p t with
      | Some Socket => inl ENXIO
      | Some _ => inr p
      | None => inl ENOENT
      end
  | inl e => inl e
  end.

(** The elements of a path without the empty ones that slashes at its
    end leave. *)
Fixpoint strip_empty (cs : list string) : list string :=
  match cs with
  | [] => []
  | c :: cs' =>
      match strip_empty cs' with
      | [] => if c =? "" then [] else [c]
      | l => c :: l
      end
  end.

(** The last element of a path, as the kernel tells them apart. *)
Inductive last_elem :=
| LAST_NORM (name : string)
| LAST_DOT
| LAST_DOTDOT
| LAST_ROOT.

Definition classify (c : string) : last_elem :=
  if c =? "." then LAST_DOT
  else if c =? ".." then LAST_DOTDOT
  else LAST_NORM c.

(** The walk to the last element of a path, for the system calls that
    make or remove an entry: the directory the elements in front of the
    last one lead to, its entries, the last element, and whether
    slashes follow it. *)
Definition parent_walk (cwd : path) (s : string) (t : node)
  : errno + (path * list (string * node) * last_elem * bool) :=
  if s =? "" then inl ENOENT
  else
    let cs := strip_empty (split s) in
    match follow t (start cwd s) (removelast cs) with
    | inl e => inl e
    | inr stack =>
        match lookup (rev stack) t with
        | Some (Dir es) =>
            inr (rev stack, es,
                 match cs with
                 | [] => LAST_ROOT
                 | _ :: _ => classify (last cs "")
                 end,
                 negb (List.length cs =? List.length (split s))%nat)
        | Some _ => inl ENOTDIR
        | None => inl ENOENT
        end
    end.

(** *** Directory listings *)

Section Sorting.
Context {A : Type} (key : A -> string).

Fixpoint insert_sorted (x : A) (l : list A) : list A :=
  match l with
  | [] => [x]
  | y :: l' => if (key x <=? key y) then x :: l else y :: insert_sorted x l'
  end.

(** [sort.Strings] on the keys. *)
Definition sort_by (l : list A) : list A := fold_right insert_sorted [] l.
End Sorting.

(** The files and directories [filepath.Walk] calls its function on, in
    the order of the calls: a directory, then its entries by ascending
    name, each with everything below it.  A path is given by the names
    that lead to it from the root of the walk, with the flag
    [info.IsDir()]. *)
Fixpoint visits (n : node) : list (path * bool) :=
  match n with
  | Dir es =>
      ([], true) ::
      flat_map (fun sub => map (fun v => (fst sub :: fst v, snd v)) (snd sub))
        (sort_by fst
           ((fix below (es : list (string * node)) :=
               match es with
               | [] => []
               | e :: es' => (fst e, visits (snd e)) :: below es'
               end) es))
  | _ => [([], false)]
  end.

(** A path below the root of a walk as [filepath.Rel] gives it: the
    names joined by slashes, and [.] for the root itself. *)
Definition rel_string (names : path) : string :=
  match names with
  | [] => "."
  | _ :: _ => String.concat "/" names
  end.

(** What is no directory in a tree, the regular files and the sockets:
    below a directory the entries are taken by ascending name, each
    with everything below it (lexical per directory level,
    depth-first); directories themselves are not listed. *)
Fixpoint leaves (n : node) : list path :=
  match n with
  | Dir es =>
      flat_map (fun sub => map (cons (fst sub)) (snd sub))
        (sort_by fst
           ((fix below (es : list (string * node)) :=
               match es with
               | [] => []
               | e :: es' => (fst e, leaves (snd e)) :: below es'
               end) es))
  | _ => [[]]
  end.

(** The regular files of a tree, in the same order. *)
Fixpoint files (n : node) : list path :=
  match n with
  | File _ => [[]]
  | Dir es =>
      flat_map (fun sub => map (cons (fst sub)) (snd sub))
        (sort_by fst
           ((fix below (es : list (string * node)) :=
               match es with
               | [] => []
               | e :: es' => (fst e, files (snd e)) :: below es'
               end) es))
  | Socket => []
  end.

(** [is_leaf n p]: the names [p] lead from [n] to what is no
    directory. *)
Inductive is_leaf : node -> path -> Prop :=
| is_leaf_file (data : string) : is_leaf (File data) []
| is_leaf_socket : is_leaf Socket []
| is_leaf_below (es : list (string * node)) (name : string) (sub : node)
    (p : path) :
    In (name, sub) es -> is_leaf sub p -> is_leaf (Dir es) (name :: p).

(** [is_file n p]: the names [p] lead from [n] to a regular file. *)
Inductive is_file : node -> path -> Prop :=
| is_file_here (data : string) : is_file (File data) []
| is_file_below (es : list (string * node)) (name : string) (sub : node)
    (p : path) :
    In (name, sub) es -> is_file sub p -> is_file (Dir es) (name :: p).

End FS.

(** ** The descriptor *)

Record PostProcess := {
  GenerateKustomization : bool;
}.

(** The field [PostProcess] of the Go struct is named by its YAML key
    here, as a field and its type cannot share a name. *)
Record HelmChart := {
  Chart : string;
  Version : string;
  Repository : string;
  Name : string;
  Namespace : string;
  Values : list string;
  SkipCRDs : bool;
  postProcess : PostProcess;
  OutputDir : string;
  ApiVersions : list string;
}.

(** ** Effects

    The program acts on the file system and on its surroundings: it
    prints log lines, starts the [helm] command and calls the operating
    system.  Every such call is recorded, in order, in the [trace] of
    the [world]. *)

Inductive Writer :=
| color_Output
| color_Error
| other_Writer (id : nat).

Definition Output : Writer := color_Output.
Definition Error : Writer := color_Error.

Record execOpts := {
  optDir : string;
  optOutput : option Writer;
}.

(** [execOpts{}]. *)
Definition no_opts : execOpts := {| optDir := ""; optOutput := None |}.

Inductive event :=
| ReadFile (filename : string)
| Magenta (line : string)
| Run (name dir : string) (stdout stderr : Writer) (args : list string)
| MkdirTemp (dir pattern : string)
| ReadDir (name : string)
| RemoveAll (path : string)
| Create (name : string)
| Walk (root : string).

Record world := {
  fs : FS.node;
  trace : list event;
}.

(** What the program cannot decide itself. *)
Record env := {
  (** the working directory of the process *)
  cwd : FS.path;
  (** [viper.GetString("password")] *)
  viper_password : string;
  (** [yaml.Unmarshal] into a [HelmChart] *)
  yaml_Unmarshal : string -> result HelmChart;
  (** a started command: its failure, if any, and what it leaves on disk *)
  command_Run : string -> string -> list string -> world -> option error * FS.node;
  (** [os.MkdirTemp]: the directory made, or the failure *)
  os_MkdirTemp : string -> string -> world -> result string * FS.node;
}.

Definition M (A : Type) : Type := world -> result A * world.

Definition ret {A : Type} (a : A) : M A := fun w => (Ok a, w).

Definition fail {A : Type} (e : error) : M A := fun w => (Err e, w).

Definition bind {A B : Type} (c : M A) (k : A -> M B) : M B :=
  fun w =>
    match c w with
    | (Ok a, w') => k a w'
    | (Err e, w') => (Err e, w')
    end.

Notation "x <- c ;; k" := (bind c (fun x => k))
  (at level 61, c at next level, right associativity).
Notation "c ;;; k" := (bind c (fun _ => k))
  (at level 61, right associativity).

(** [if err != nil { return nil, f(err) }]. *)
Definition wrap_error {A : Type} (c : M A) (f : error -> error) : M A :=
  fun w =>
    match c w with
    | (Ok a, w') => (Ok a, w')
    | (Err e, w') => (Err (f e), w')
    end.

(** A Go [for ... range] loop whose body may return an error. *)
Fixpoint for_each {A : Type} (l : list A) (body : A -> M unit) : M unit :=
  match l with
  | [] => ret tt
  | x :: l' => body x ;;; for_each l' body
  end.

Definition emit (ev : event) : M unit :=
  fun w => (Ok tt, {| fs := fs w; trace := trace w ++ [ev] |}).

Definition set_fs (t : FS.node) : M unit :=
  fun w => (Ok tt, {| fs := t; trace := trace w |}).

Definition get_fs : M FS.node := fun w => (Ok (fs w), w).

(** ** The package [helmt] *)

Section Helmt.

Variable E : env.

(** *** Library calls *)

(** [color.Magenta(format, a...)] prints one line; [line] is the
    formatted text. *)
Definition color_Magenta (line : string) : M unit := emit (Magenta line).

(** [ioutil.ReadFile]: the file is opened and read.  A directory can be
    opened, but not read. *)
Definition ioutil_ReadFile (filename : string) : M string :=
  emit (ReadFile filename) ;;;
  t <- get_fs ;;
  match FS.stat (cwd E) filename t with
  | inr (FS.File data) => ret data
  | inr (FS.Dir _) => fail (PathError "read" filename (FS.errno_text FS.EISDIR))
  | inr FS.Socket => fail (PathError "open" filename (FS.errno_text FS.ENXIO))
  | inl e => fail (PathError "open" filename (FS.errno_text e))
  end.

(** [validate.Struct] on a [HelmChart]: the tag [validate:"required"]
    rejects the zero value of a field, for a string the empty one. *)
Definition required_fields (chart : HelmChart) : list (string * string) :=
  [("Chart", Chart chart); ("Version", Version chart);
   ("Repository", Repository chart); ("Name", Name chart)].

Definition validate_Struct (chart : HelmChart) : option error :=
  match filter (fun f => snd f =? "") (required_fields chart) with
  | [] => None
  | missing => Some (ValidationErrors (map fst missing))
  end.

(** [exec.Command(name, arg...)] with [Dir], [Stdout] and [Stderr] set,
    then [Run]. *)
Definition Cmd_Run (name dir : string) (stdout stderr : Writer)
  (arg : list string) : M unit :=
  emit (Run name dir stdout stderr arg) ;;;
  fun w =>
    match command_Run E name dir arg w with
    | (None, t) => (Ok tt, {| fs := t; trace := trace w |})
    | (Some e, t) => (Err e, {| fs := t; trace := trace w |})
    end.

Definition MkdirTemp_call (dir pattern : string) : M string :=
  emit (MkdirTemp dir pattern) ;;;
  fun w =>
    match os_MkdirTemp E dir pattern w with
    | (r, t) => (r, {| fs := t; trace := trace w |})
    end.

Record DirEntry := {
  entry_Name : string;
  entry_IsDir : bool;
}.

Definition dir_entry (e : string * FS.node) : DirEntry :=
  {| entry_Name := fst e;
     entry_IsDir := match snd e with FS.Dir _ => true | _ => false end |}.

(** [os.ReadDir]: the directory is opened as a directory, and its
    entries come sorted by name. *)
Definition os_ReadDir (name : string) : M (list DirEntry) :=
  emit (ReadDir name) ;;;
  t <- get_fs ;;
  match FS.stat (cwd E) name t with
  | inr (FS.Dir es) => ret (FS.sort_by entry_Name (map dir_entry es))
  | inr _ => fail (PathError "open" name (FS.errno_text FS.ENOTDIR))
  | inl e => fail (PathError "open" name (FS.errno_text e))
  end.

Fixpoint has_suffix (suffix s : string) : bool :=
  (s =? suffix) ||
  match s with
  | "" => false
  | String _ s' => has_suffix suffix s'
  end.

Definition endsWithDot (path : string) : bool :=
  (path =? ".") || has_suffix "/." path.

(** A path with one slash where it begins with several. *)
Fixpoint one_slash (s : string) : string :=
  match s with
  | "" => ""
  | String c s' =>
      if (c =? "/")%char && prefix "/" s' then one_slash s' else s
  end.

(** [splitPath] of the package [os]: the directory and the base of a
    path, slashes at its end apart.  A path without a slash lies in
    [.]; the root has the base [/]. *)
Definition splitPath (path : string) : string * string :=
  match FS.strip_empty (FS.split (one_slash path)) with
  | [] => (".", "/")
  | [c] => (".", c)
  | cs =>
      let dirname := String.concat "/" (removelast cs) in
      (if dirname =? "" then "/" else dirname, last cs "")
  end.

(** [os.RemoveAll].  Nothing is done for the empty path, and a path
    that ends in [.] is refused.  Then [os.Remove] is tried ([unlink],
    then [rmdir]): it removes a file, a socket or an empty directory,
    and where it finds nothing, all is well.  Otherwise the directory
    of the path is opened and the base removed from there,
    [removeAllFrom]: a directory goes when its entries have gone, each
    with what is below it; for the bases [.], [..] and [/] the entries
    go and the directory stays, which is an error.  By the last element
    of the path:

    - a name: its entry goes, with everything below it;
    - [.] (with slashes behind it), [..] and the root: the entries of
      that directory go, and [rmdir] fails;
    - a path that leads through what is no directory: [unlinkat]
      fails from the file opened as the directory of the path, or this
      cannot be opened. *)
Definition os_RemoveAll (path : string) : M unit :=
  emit (RemoveAll path) ;;;
  if path =? "" then ret tt
  else if endsWithDot path
  then fail (PathError "RemoveAll" path (FS.errno_text FS.EINVAL))
  else
    t <- get_fs ;;
    let parentDir := fst (splitPath path) in
    let base := snd (splitPath path) in
    match FS.parent_walk (cwd E) path t with
    | inl FS.ENOENT => ret tt
    | inl _ =>
        match FS.open_read (cwd E) parentDir t with
        | inl FS.ENOENT => ret tt
        | inl e => fail (PathError "open" parentDir (FS.errno_text e))
        | inr _ =>
            fail (PathError "unlinkat" (parentDir ++ "/" ++ base)
                    (FS.errno_text FS.ENOTDIR))
        end
    | inr (d, es, FS.LAST_NORM c, _) =>
        match FS.assoc c es with
        | Some _ => set_fs (FS.remove (d ++ [c])%list t)
        | None => ret tt
        end
    | inr (d, _, FS.LAST_DOT, _) =>
        set_fs (FS.clear d t) ;;;
        fail (PathError "unlinkat" (parentDir ++ "/" ++ base)
                (FS.errno_text FS.EINVAL))
    | inr (d, _, FS.LAST_DOTDOT, _) =>
        set_fs (FS.clear (removelast d) t) ;;;
        fail (PathError "unlinkat" (parentDir ++ "/" ++ base)
                (FS.errno_text FS.ENOTEMPTY))
    | inr (_, _, FS.LAST_ROOT, _) =>
        match FS.open_read (cwd E) parentDir t with
        | inl FS.ENOENT => ret tt
        | inl e => fail (PathError "open" parentDir (FS.errno_text e))
        | inr _ =>
            set_fs (FS.clear [] t) ;;;
            fail (PathError "unlinkat" (parentDir ++ "/" ++ base)
                    (FS.errno_text FS.EBUSY))
        end
    end.

(** An open file ([*os.File]) is known by the place it was opened at. *)
Record File := {
  file_name : string;
  file_path : FS.path;
}.

(** [os.Create], which is [open(2)] for reading and writing with
    [O_CREAT] and [O_TRUNC]: the file is made, or emptied when it
    exists.  What exists and is no regular file is not opened, nor is
    a name with a slash behind it. *)
Definition os_Create (name : string) : M File :=
  emit (Create name) ;;;
  t <- get_fs ;;
  match FS.parent_walk (cwd E) name t with
  | inl e => fail (PathError "open" name (FS.errno_text e))
  | inr (d, es, FS.LAST_NORM c, slashed) =>
      if slashed then fail (PathError "open" name (FS.errno_text FS.EISDIR))
      else
        match FS.assoc c es with
        | Some (FS.Dir _) =>
            fail (PathError "open" name (FS.errno_text FS.EISDIR))
        | Some FS.Socket =>
            fail (PathError "open" name (FS.errno_text FS.ENXIO))
        | _ =>
            match FS.put (d ++ [c])%list (FS.File "") t with
            | Some t' =>
                set_fs t' ;;;
                ret {| file_name := name; file_path := (d ++ [c])%list |}
            | None => fail (PathError "open" name (FS.errno_text FS.ENOENT))
            end
        end
  | inr _ => fail (PathError "open" name (FS.errno_text FS.EISDIR))
  end.

(** [WriteString] of an [os.File] written from its start onwards:
    the bytes are added at its end. *)
Definition File_WriteString (f : File) (s : string) : M nat :=
  t <- get_fs ;;
  match FS.lookup (file_path f) t with
  | Some (FS.File data) =>
      match FS.put (file_path f) (FS.File (data ++ s)) t with
      | Some t' => set_fs t' ;;; ret (String.length s)
      | None => fail (PathError "write" (file_name f) "bad file descriptor")
      end
  | _ => fail (PathError "write" (file_name f) "bad file descriptor")
  end.

Record FileInfo := {
  IsDir : bool;
}.

(** The path [filepath.Walk] hands to its function: the root it was
    given, joined with the names on the way down. *)
Record walk_path := {
  walk_root : string;
  walk_names : FS.path;
}.

(** [filepath.Walk root fn] for a function [fn] that never answers
    [filepath.SkipDir]: the root is looked at under the name given
    ([os.Lstat]); when there is nothing to be found under it, [fn] is
    called with the error.  Otherwise [fn] is called on the root and on
    everything below it until it returns an error.  The names in the
    tree are those found when the walk starts. *)
Definition filepath_Walk (root : string)
  (fn : walk_path -> option FileInfo -> option error -> M unit) : M unit :=
  emit (Walk root) ;;;
  t <- get_fs ;;
  match FS.stat (cwd E) root t with
  | inl e =>
      fn {| walk_root := root; walk_names := [] |} None
        (Some (PathError "lstat" root (FS.errno_text e)))
  | inr n =>
      for_each (FS.visits n) (fun v =>
        fn {| walk_root := root; walk_names := fst v |}
          (Some {| IsDir := snd v |}) None)
  end.

(** [filepath.Rel basepath targpath] for a path of a walk from
    [basepath]: the names below the root, joined by slashes. *)
Definition filepath_Rel (basepath : string) (targpath : walk_path) : result string :=
  Ok (FS.rel_string (walk_names targpath)).

(** *** helmt.go *)

Definition readParameters (filename : string) : M HelmChart :=
  yamlFile <- ioutil_ReadFile filename ;;
  match yaml_Unmarshal E yamlFile with
  | Err err => fail err
  | Ok chart =>
      match validate_Struct chart with
      | Some err => fail err
      | None => ret chart
      end
  end.

(** The line [execCommand] logs for a command. *)
Definition log_line (name : string) (arg : list string) : string :=
  let args := Str.Join arg " " in
  let args :=
    Str.ReplaceAll args ("--password " ++ viper_password E) "--password *****" in
  name ++ " " ++ args.

Definition execCommand (name : string) (opts : execOpts) (arg : list string)
  : M unit :=
  color_Magenta (log_line name arg) ;;;
  Cmd_Run name (optDir opts)
    (match optOutput opts with
     | Some out => out
     | None => Output
     end)
    Error arg.

Definition removeOutputCommand (chart : HelmChart) : M unit :=
  color_Magenta ("removing folder " ++ Chart chart) ;;;
  os_RemoveAll (Chart chart).

Definition kustomization_header : string :=
  "apiVersion: kustomize.config.k8s.io/v1beta1" ++ nl ++
  "kind: Kustomization" ++ nl ++
  "resources:" ++ nl.

(** The function [generateKustomizationCommand] hands to [filepath.Walk]. *)
Definition kustomization_entry (directory : string) (kustomization : File)
  (path : walk_path) (info : option FileInfo) (err : option error) : M unit :=
  match err with
  | Some err => fail err
  | None =>
      if match info with Some i => IsDir i | None => false end then ret tt
      else
        match filepath_Rel directory path with
        | Err err => fail err
        | Ok rel =>
            if rel =? "kustomization.yaml" then ret tt
            else
              File_WriteString kustomization ("  - " ++ rel ++ nl) ;;;
              ret tt
        end
  end.

(** The deferred [kustomization.Close()] changes nothing that is
    modelled. *)
Definition generateKustomizationCommand (directory : string) : M unit :=
  kustomization <- os_Create (FS.Join [directory; "kustomization.yaml"]) ;;
  File_WriteString kustomization kustomization_header ;;;
  filepath_Walk directory (kustomization_entry directory kustomization).

Definition dirContentCommand (dir : string) : M (list string) :=
  c <- os_ReadDir dir ;;
  ret (fold_left (fun result f => result ++ [entry_Name f])%list c []).

Definition tempDirCommand : M string := MkdirTemp_call "" "helmt".

(** The package variables through which the functions above are called. *)
Definition execute := execCommand.
Definition removeOutput := removeOutputCommand.
Definition generateKustomization := generateKustomizationCommand.
Definition dirContent := dirContentCommand.
Definition tempDir := tempDirCommand.

Definition HelmVersion : M unit := execute "helm" no_opts ["version"].

(** The argument list [template] builds. *)
Definition template_args (name chart : string) (values : list string)
  (namespace : string) (skipCRDs : bool) (outputDir : string)
  (ApiVersions : list string) : list string :=
  let args := ["template"; name; chart] in
  let args :=
    if (0 <? String.length namespace)%nat
    then (args ++ ["--namespace"; namespace])%list else args in
  let args := if negb skipCRDs then (args ++ ["--include-crds"])%list else args in
  let args := (args ++ ["--skip-tests"])%list in
  let args :=
    fold_left (fun args valuesfile => args ++ ["--values"; valuesfile])%list
      values args in
  let args :=
    if (0 <? String.length outputDir)%nat
    then (args ++ ["--output-dir"; outputDir])%list
    else (args ++ ["--output-dir"; "."])%list in
  let args :=
    if (0 <? List.length ApiVersions)%nat
    then fold_left (fun args apiversion => args ++ ["--api-versions"; apiversion])%list
           ApiVersions args
    else args in
  args.

Definition template (name chart : string) (values : list string)
  (namespace : string) (skipCRDs : bool) (outputDir : string)
  (ApiVersions : list string) : M unit :=
  execute "helm" no_opts
    (template_args name chart values namespace skipCRDs outputDir ApiVersions).

(** The argument list [fetch] builds for the temporary directory [d]. *)
Definition fetch_args (repository chart version username password d : string)
  : list string :=
  let args := ["fetch"] in
  let args := (args ++ ["--repo"; repository])%list in
  let args := (args ++ ["--version"; version])%list in
  let args := (args ++ ["--destination"; d])%list in
  let args :=
    if negb (username =? "") then (args ++ ["--username"; username])%list
    else args in
  let args :=
    if negb (password =? "") then (args ++ ["--password"; password])%list
    else args in
  (args ++ [chart])%list.

Definition fetch (repository chart version username password : string)
  : M string :=
  d <- wrap_error tempDir (fun err =>
         Errorf ("failed to create temporary directory to download helm chart: "
                 ++ error_text err)) ;;
  execute "helm" no_opts
    (fetch_args repository chart version username password d) ;;;
  content <- dirContent d ;;
  if negb (List.length content =? 1)%nat
  then fail (Errorf ("unexpected content in temporary directory " ++ d))
  else
    let result := FS.Join [d; nth 0 content ""] in
    color_Magenta ("downloaded " ++ result) ;;;
    ret result.

Definition HelmTemplate (filename : string) (clean : bool)
  (username password : string) : M unit :=
  chart <- readParameters filename ;;
  HelmVersion ;;;
  chartFile <- fetch (Repository chart) (Chart chart) (Version chart)
                 username password ;;
  (if clean then removeOutput chart else ret tt) ;;;
  template (Name chart) chartFile (Values chart) (Namespace chart)
    (SkipCRDs chart) (OutputDir chart) (ApiVersions chart) ;;;
  (if GenerateKustomization (postProcess chart)
   then generateKustomization (Chart chart)
   else ret tt).

End Helmt.

(** ** The first revision

    The revision of the package that is kept beside the current one
    knows no credentials: its [fetch] passes none to [helm], and its
    [execCommand] logs the arguments as they are. *)

Module FirstRevision.

Definition log_line (name : string) (arg : list string) : string :=
  name ++ " " ++ Str.Join arg " ".

Definition execCommand (E : env) (name : string) (arg : list string) : M unit :=
  color_Magenta (log_line name arg) ;;;
  Cmd_Run E name "" Output Error arg.

Definition fetch (E : env) (repository chart version : string) : M unit :=
  execCommand E "helm" ["fetch"; "--repo"; repository; "--version"; version; chart].

End FirstRevision.

(** ** Observations on a run *)

(** The events recorded between the worlds [w] and [w']. *)
Definition since (w w' : world) : list event :=
  skipn (List.length (trace w)) (trace w').

(** The log lines among some events. *)
Fixpoint printed (evs : list event) : list string :=
  match evs with
  | [] => []
  | Magenta line :: evs' => line :: printed evs'
  | _ :: evs' => printed evs'
  end.

(** The text in front of an argument that follows the arguments [pre],
    and the text behind one that precedes the arguments [post]. *)
Definition lead (pre : list string) : string :=
  match pre with
  | [] => ""
  | _ :: _ => Str.Join pre " " ++ " "
  end.

Definition trail (post : list string) : string :=
  match post with
  | [] => ""
  | _ :: _ => " " ++ Str.Join post " "
  end.

(** ** The argument lists as the specification words them *)

(** The render command: the sub-command, the release name and the
    artifact; the namespace if there is one; the inclusion of CRDs
    unless they are skipped; the flag that leaves the tests out; the
    values files; the output directory, [.] by default; the API
    versions. *)
Definition render_args (name artifact : string) (values : list string)
  (namespace : string) (skipCRDs : bool) (outputDir : string)
  (apiVersions : list string) : list string :=
  (["template"; name; artifact]
   ++ (if namespace =? "" then [] else ["--namespace"; namespace])
   ++ (if skipCRDs then [] else ["--include-crds"])
   ++ ["--skip-tests"]
   ++ flat_map (fun f => ["--values"; f]) values
   ++ ["--output-dir"; if outputDir =? "" then "." else outputDir]
   ++ flat_map (fun v => ["--api-versions"; v]) apiVersions)%list.

(** The fetch command: repository, version and destination; the user
    name and the password if there are any; the chart last. *)
Definition fetch_args_spec (repository chart version username password d : string)
  : list string :=
  (["fetch"; "--repo"; repository; "--version"; version; "--destination"; d]
   ++ (if username =? "" then [] else ["--username"; username])
   ++ (if password =? "" then [] else ["--password"; password])
   ++ [chart])%list.

(** ** The descriptor as the specification words it *)

(** A required field of the descriptor is missing or empty. *)
Definition lacks_required (chart : HelmChart) : bool :=
  (Chart chart =? "") || (Version chart =? "")
  || (Repository chart =? "") || (Name chart =? "").

(** The required fields found empty, in the order of the struct. *)
Definition missing_required (chart : HelmChart) : list string :=
  map fst (filter (fun f => snd f =? "") (required_fields chart)).

(** The world after the descriptor has been read. *)
Definition after_read (filename : string) (w : world) : world :=
  {| fs := fs w; trace := (trace w ++ [ReadFile filename])%list |}.

(** ** A run to try the definitions on

    The descriptor [helmt.yaml] in the working directory [/work] asks
    for the chart [nginx]; [helm fetch] leaves the archive in the
    temporary directory and [helm template] the manifests in the
    directory named after the chart. *)

Definition demo_chart : HelmChart :=
  {| Chart := "nginx";
     Version := "1.2.3";
     Repository := "https://example/charts";
     Name := "web";
     Namespace := "";
     Values := [];
     SkipCRDs := false;
     postProcess := {| GenerateKustomization := true |};
     OutputDir := "";
     ApiVersions := [] |}.

(** The same descriptor without a version. *)
Definition demo_broken_chart : HelmChart :=
  {| Chart := "nginx";
     Version := "";
     Repository := "https://example/charts";
     Name := "web";
     Namespace := "";
     Values := [];
     SkipCRDs := false;
     postProcess := {| GenerateKustomization := false |};
     OutputDir := "";
     ApiVersions := [] |}.

Definition demo_Unmarshal (data : string) : result HelmChart :=
  if data =? "chart: nginx"
  then Ok demo_chart
  else if data =? "chart: nginx # no version"
  then Ok demo_broken_chart
  else Err (ParseError "yaml: did not find expected key").

Definition demo_manifests : FS.node :=
  FS.Dir [("templates",
           FS.Dir [("service.yaml", FS.File "kind: Service");
                   ("deployment.yaml", FS.File "kind: Deployment")])].

Definition demo_Run (name dir : string) (arg : list string) (w : world)
  : option error * FS.node :=
  match arg with
  | "fetch" :: _ =>
      match FS.put ["tmp"; "helmt1"; "nginx-1.2.3.tgz"] (FS.File "archive") (fs w) with
      | Some t => (None, t)
      | None => (Some (ExitError "exit status 1"), fs w)
      end
  | "template" :: _ =>
      match FS.put ["work"; "nginx"] demo_manifests (fs w) with
      | Some t => (None, t)
      | None => (Some (ExitError "exit status 1"), fs w)
      end
  | _ => (None, fs w)
  end.

Definition demo_MkdirTemp (dir pattern : string) (w : world)
  : result string * FS.node :=
  match FS.put ["tmp"; "helmt1"] (FS.Dir []) (fs w) with
  | Some t => (Ok "/tmp/helmt1", t)
  | None => (Err (PathError "mkdir" "/tmp/helmt1" "no such file or directory"), fs w)
  end.

Definition demo_env : env :=
  {| cwd := ["work"];
     viper_password := "hunter2";
     yaml_Unmarshal := demo_Unmarshal;
     command_Run := demo_Run;
     os_MkdirTemp := demo_MkdirTemp |}.

Definition demo_world : world :=
  {| fs := FS.Dir [("tmp", FS.Dir []);
                   ("work", FS.Dir [("helmt.yaml", FS.File "chart: nginx");
                                    ("broken.yaml", FS.File "chart: nginx # no version")])];
     trace := [] |}.

(** ** The pipeline as the specification words it *)

Inductive stage := Load | Probe | Fetch | CleanOutput | Render | Kustomize.

(** The stages of a run in their fixed order; the clean and the
    kustomization stage are optional. *)
Definition plan (clean kustomize : bool) : list stage :=
  ([Load; Probe; Fetch] ++ (if clean then [CleanOutput] else [])
   ++ [Render] ++ (if kustomize then [Kustomize] else []))%list.

(** What the stages after the loader do; a stage hands the path of the
    fetched artifact on to the next one. *)
Definition stages_after_load (E : env) (clean : bool) (username password : string)
  (chart : HelmChart) : list (stage * (string -> M string)) :=
  ([(Probe, fun artifact => HelmVersion E ;;; ret artifact);
    (Fetch, fun _ => fetch E (Repository chart) (Chart chart) (Version chart)
                       username password)]
   ++ (if clean
       then [(CleanOutput, fun artifact => removeOutput E chart ;;; ret artifact)]
       else [])
   ++ [(Render, fun artifact =>
          template E (Name chart) artifact (Values chart) (Namespace chart)
            (SkipCRDs chart) (OutputDir chart) (ApiVersions chart) ;;;
          ret artifact)]
   ++ (if GenerateKustomization (postProcess chart)
       then [(Kustomize, fun artifact =>
                generateKustomization E (Chart chart) ;;; ret artifact)]
       else []))%list.

(** Fail-fast sequencing: the stages run one after the other; the first
    failure ends the run and is its result.  The stages that were run
    are reported with the result. *)
Fixpoint run_stages (stages : list (stage * (string -> M string)))
  (artifact : string) (w : world) : list stage * result unit * world :=
  match stages with
  | [] => ([], Ok tt, w)
  | (s, action) :: stages' =>
      match action artifact w with
      | (Ok artifact', w') =>
          match run_stages stages' artifact' w' with
          | (ran, r, w'') => (s :: ran, r, w'')
          end
      | (Err e, w') => ([s], Err e, w')
      end
  end.

Definition pipeline (E : env) (filename : string) (clean : bool)
  (username password : string) (w : world) : list stage * result unit * world :=
  match readParameters E filename w with
  | (Err e, w') => ([Load], Err e, w')
  | (Ok chart, w') =>
      match run_stages (stages_after_load E clean username password chart) "" w' with
      | (ran, r, w'') => (Load :: ran, r, w'')
      end
  end.

(** A command line of the render stage. *)
Definition is_render (ev : event) : bool :=
  match ev with
  | Run _ _ _ _ ("template" :: _) => true
  | _ => false
  end.

(** The world after the line [downloaded ...] has been printed. *)
Definition after_download (artifact : string) (w : world) : world :=
  {| fs := fs w; trace := (trace w ++ [Magenta ("downloaded " ++ artifact)])%list |}.

(** The error of [fetch] for a temporary directory that does not hold
    exactly one entry. *)
Definition unexpected_content (d : string) : error :=
  Errorf ("unexpected content in temporary directory " ++ d).

(** [helm] in an environment where it succeeds and leaves nothing. *)
Definition quiet_env : env :=
  {| cwd := ["work"];
     viper_password := "hunter2";
     yaml_Unmarshal := demo_Unmarshal;
     command_Run := fun _ _ _ w => (None, fs w);
     os_MkdirTemp := demo_MkdirTemp |}.

(** The working directory after a run that rendered the chart. *)
Definition demo_rendered : world :=
  {| fs := FS.Dir [("tmp", FS.Dir []);
                   ("work", FS.Dir [("helmt.yaml", FS.File "chart: nginx");
                                    ("nginx", demo_manifests)])];
     trace := [] |}.

(** ** The kustomization manifest as the specification words it *)

(** The resources: what is no directory below the directory, by its
    path relative to it, without [kustomization.yaml] itself. *)
Definition resources (n : FS.node) : list string :=
  filter (fun rel => negb (rel =? "kustomization.yaml"))
    (map FS.rel_string (FS.leaves n)).

(** The resources when the regular files only are listed. *)
Definition regular_resources (n : FS.node) : list string :=
  filter (fun rel => negb (rel =? "kustomization.yaml"))
    (map FS.rel_string (FS.files n)).

(** One line [  - <relative-path>] for each resource. *)
Fixpoint resource_lines (rels : list string) : string :=
  match rels with
  | [] => ""
  | rel :: rels' => ("  - " ++ rel ++ nl) ++ resource_lines rels'
  end.

Definition kustomization_text (n : FS.node) : string :=
  kustomization_header ++ resource_lines (resources n).

(** The lines written for what a walk comes by. *)
Definition entry_lines (vs : list (FS.path * bool)) : string :=
  resource_lines
    (filter (fun rel => negb (rel =? "kustomization.yaml"))
       (map FS.rel_string (map fst (filter (fun v => negb (snd v)) vs)))).

(** The world after [generateKustomizationCommand] has run on
    [directory] and left the file system [t]. *)
Definition after_kustomization (directory : string) (t : FS.node) (w : world)
  : world :=
  {| fs := t;
     trace := (trace w ++ [Create (FS.Join [directory; "kustomization.yaml"]);
                           Walk directory])%list |}.

(** The arguments with every value [secret] of a [--password] flag
    replaced by [*****]. *)
Fixpoint mask_args (secret : string) (arg : list string) : list string :=
  match arg with
  | [] => []
  | a :: rest =>
      match rest with
      | [] => [a]
      | v :: rest' =>
          if (a =? "--password") && (v =? secret)
          then a :: "*****" :: mask_args secret rest'
          else a :: mask_args secret rest
      end
  end.

(** An entry in whose place [os.Create] makes a regular file: none, or
    a regular file. *)
Definition creatable (entry : option FS.node) : bool :=
  match entry with
  | None | Some (FS.File _) => true
  | Some _ => false
  end.

(** The synthesizer can do its work: the name leads to a directory, at
    [d], with the entries [es], in which a file [kustomization.yaml]
    can be made. *)
Definition kustomizable (E : env) (directory : string) (w : world)
  (d : FS.path) (es : list (string * FS.node)) : Prop :=
  FS.namei (cwd E) directory (fs w) = inr d
  /\ FS.lookup d (fs w) = Some (FS.Dir es)
  /\ creatable (FS.assoc "kustomization.yaml" es) = true.

(** ** The removal as the specification words it *)

(** What [os.RemoveAll] removes without an error: the path leads to an
    entry of a directory, or to nothing at all. *)
Definition removable (cwd : FS.path) (s : string) (t : FS.node) : bool :=
  match FS.parent_walk cwd s t with
  | inr (_, _, FS.LAST_NORM _, _) => true
  | inl FS.ENOENT => true
  | _ => false
  end.

(** The tree without what the path names. *)
Definition without (cwd : FS.path) (s : string) (t : FS.node) : FS.node :=
  match FS.parent_walk cwd s t with
  | inr (d, es, FS.LAST_NORM c, _) =>
      match FS.assoc c es with
      | Some _ => FS.remove (d ++ [c])%list t
      | None => t
      end
  | _ => t
  end.

(** ** Notions the proofs use *)

(** Pieces of text with [sep] between them. *)
Fixpoint glue (sep : string) (t0 : string) (ts : list string) : string :=
  match ts with
  | [] => t0
  | t :: ts' => t0 ++ sep ++ glue sep t ts'
  end.

(** The directories of [t] are directories of [t'], and hold the names
    they held. *)
Definition grows (t t' : FS.node) : Prop :=
  forall (p : FS.path) (es : list (string * FS.node)),
    FS.lookup p t = Some (FS.Dir es) ->
    exists es', FS.lookup p t' = Some (FS.Dir es')
                /\ forall c, FS.assoc c es <> None -> FS.assoc c es' <> None.

(** The elements of a cleaned path: names, and [..] in a relative path. *)
Definition kept (rooted : bool) (c : string) : Prop :=
  FS.slash_free c = true
  /\ (FS.is_name c = true \/ (rooted = false /\ c = "..")).

(** Resolving the elements of a cleaned path from the stack [st0]. *)
Definition resolved (st0 cleaned : list string) : list string :=
  FS.normalize true st0 (rev cleaned).

(** [x] behind the elements of [l] that are not greater. *)
Fixpoint insert_behind {A : Type} (key : A -> string) (x : A) (l : list A)
  : list A :=
  match l with
  | [] => [x]
  | y :: l' =>
      if (key y <=? key x) then y :: insert_behind key x l' else x :: l
  end.

(** ** Surroundings in which a stage fails *)

(** No temporary directory can be made. *)
Definition no_tmp_env : env :=
  {| cwd := ["work"];
     viper_password := "hunter2";
     yaml_Unmarshal := demo_Unmarshal;
     command_Run := demo_Run;
     os_MkdirTemp := fun _ _ w =>
       (Err (PathError "mkdir" "/tmp/helmt1" "permission denied"), fs w) |}.

(** [helm] exits with status 1 and leaves nothing. *)
Definition failing_env : env :=
  {| cwd := ["work"];
     viper_password := "hunter2";
     yaml_Unmarshal := demo_Unmarshal;
     command_Run := fun _ _ _ w => (Some (ExitError "exit status 1"), fs w);
     os_MkdirTemp := demo_MkdirTemp |}.

(** No password is configured. *)
Definition open_env : env :=
  {| cwd := ["work"];
     viper_password := "";
     yaml_Unmarshal := demo_Unmarshal;
     command_Run := demo_Run;
     os_MkdirTemp := demo_MkdirTemp |}.

(** ** What a run records *)

(** [l] is an initial part of [full]. *)
Definition initial {A : Type} (l full : list A) : Prop :=
  exists rest, full = (l ++ rest)%list.

(** What [fetch] records when it succeeds with the temporary directory
    [d] and returns [artifact]. *)
Definition fetch_events (E : env)
  (repository chart version username password d artifact : string)
  : list event :=
  [MkdirTemp "" "helmt";
   Magenta (log_line E "helm"
              (fetch_args repository chart version username password d));
   Run "helm" "" Output Error
     (fetch_args repository chart version username password d);
   ReadDir d;
   Magenta ("downloaded " ++ artifact)].

(** What the synthesizer records when it succeeds. *)
Definition kustomization_events (directory : string) : list event :=
  [Create (FS.Join [directory; "kustomization.yaml"]); Walk directory].

(** What the stages behind [fetch] record when they succeed. *)
Definition render_events (E : env) (clean : bool) (chart : HelmChart)
  (artifact : string) : list event :=
  ((if clean
    then [Magenta ("removing folder " ++ Chart chart); RemoveAll (Chart chart)]
    else [])
   ++ [Magenta (log_line E "helm"
                  (template_args (Name chart) artifact (Values chart)
                     (Namespace chart) (SkipCRDs chart) (OutputDir chart)
                     (ApiVersions chart)));
       Run "helm" "" Output Error
         (template_args (Name chart) artifact (Values chart)
            (Namespace chart) (SkipCRDs chart) (OutputDir chart)
            (ApiVersions chart))]
   ++ (if GenerateKustomization (postProcess chart)
       then kustomization_events (Chart chart)
       else []))%list.

(** What [HelmTemplate] records when every stage succeeds, for the
    chart of the descriptor, the temporary directory [d] and the
    fetched [artifact]. *)
Definition run_events (E : env) (filename : string) (clean : bool)
  (username password : string) (chart : HelmChart) (d artifact : string)
  : list event :=
  ([ReadFile filename;
    Magenta (log_line E "helm" ["version"]);
    Run "helm" "" Output Error ["version"]]
   ++ fetch_events E (Repository chart) (Chart chart) (Version chart)
        username password d artifact
   ++ render_events E clean chart artifact)%list.

(** Between [w] and [w'] an initial part of [full] was recorded, the
    whole of it when [ok] holds. *)
Definition recorded (w w' : world) (ok : bool) (full : list event) : Prop :=
  exists l, trace w' = (trace w ++ l)%list
            /\ initial l full
            /\ (ok = true -> l = full).

Definition succeeded {A : Type} (r : result A) : bool :=
  match r with
  | Ok _ => true
  | Err _ => false
  end.

(** A chart directory that holds a [kustomization.yaml] of its own in a
    subdirectory. *)
Definition demo_overlay : world :=
  {| fs := FS.Dir [("work",
                    FS.Dir [("nginx",
                             FS.Dir [("base",
                                      FS.Dir [("kustomization.yaml",
                                               FS.File "resources: []")])])])];
     trace := [] |}.

(** The temporary directory after [helm fetch] has left one archive. *)
Definition demo_fetched : world :=
  {| fs := FS.Dir [("tmp", FS.Dir [("helmt1",
                                    FS.Dir [("nginx-1.2.3.tgz", FS.File "archive")])]);
                   ("work", FS.Dir [("helmt.yaml", FS.File "chart: nginx");
                                    ("broken.yaml", FS.File "chart: nginx # no version")])];
     trace := [] |}.


(** A chart directory in which a socket lies beside a manifest. *)
Definition demo_socket : world :=
  {| fs := FS.Dir [("work",
                    FS.Dir [("nginx",
                             FS.Dir [("run.sock", FS.Socket);
                                     ("a.yaml", FS.File "kind: Service")])])];
     trace := [] |}.


(** A password with a blank in it is configured. *)
Definition spaced_env : env :=
  {| cwd := ["work"];
     viper_password := "p w";
     yaml_Unmarshal := demo_Unmarshal;
     command_Run := demo_Run;
     os_MkdirTemp := demo_MkdirTemp |}.

(** A password that holds both a blank and the text [--password]. *)
Definition odd_env : env :=
  {| cwd := ["work"];
     viper_password := "a --password a --password";
     yaml_Unmarshal := demo_Unmarshal;
     command_Run := demo_Run;
     os_MkdirTemp := demo_MkdirTemp |}.

(** * Properties

    ** Byte strings *)

Module StrFacts.
Import Str.

Lemma append_nil_r (s : string) : s ++ "" = s.
Proof. induction s as [|c s IH]; simpl; [reflexivity | now rewrite IH]. Qed.

Lemma append_assoc (a b c : string) : (a ++ b) ++ c = a ++ b ++ c.
Proof. induction a as [|x a IH]; simpl; [reflexivity | now rewrite IH]. Qed.

Lemma length_append (a b : string) :
  String.length (a ++ b) = String.length a + String.length b.
Proof. induction a as [|x a IH]; simpl; [reflexivity | now rewrite IH]. Qed.

Lemma append_inv_head (a b c : string) : a ++ b = a ++ c -> b = c.
Proof.
  induction a as [|x a IH]; simpl; intros H; [assumption|].
  injection H as H. auto.
Qed.

(** Two ways of cutting one string: one cut lies left of the other. *)
Lemma append_eq_append (x y u v : string) :
  x ++ y = u ++ v ->
  (exists w, u = x ++ w /\ y = w ++ v) \/ (exists w, x = u ++ w /\ v = w ++ y).
Proof.
  revert u. induction x as [|c x IH]; intros u H; simpl in H.
  - left. exists u. split; [reflexivity | assumption].
  - destruct u as [|d u]; simpl in H.
    + right. exists (String c x). split; [reflexivity | now symmetry].
    + injection H as -> H. destruct (IH u H) as [[w [-> ->]]|[w [-> ->]]].
      * left. exists w. split; reflexivity.
      * right. exists w. split; reflexivity.
Qed.

(** [prefix p s] of the standard library decides that [s] starts with [p]
    (Go: [strings.HasPrefix]). *)
Lemma prefix_app (p r : string) : prefix p (p ++ r) = true.
Proof.
  induction p as [|c p IH]; simpl; [now destruct r|].
  destruct (ascii_dec c c) as [_|n]; [assumption | now destruct n].
Qed.

Lemma prefix_inv (p s : string) : prefix p s = true -> exists r, s = p ++ r.
Proof.
  revert s. induction p as [|c p IH]; intros s H.
  - exists s. reflexivity.
  - destruct s as [|d s]; simpl in H; [discriminate|].
    destruct (ascii_dec c d) as [->|_]; [|discriminate].
    destruct (IH s H) as [r ->]. exists r. reflexivity.
Qed.

Lemma prefix_iff (p s : string) : prefix p s = true <-> exists r, s = p ++ r.
Proof.
  split; [apply prefix_inv|]. intros [r ->]. apply prefix_app.
Qed.

Lemma Contains_iff (s sub : string) : Contains s sub = true <-> Occurs sub s.
Proof.
  unfold Occurs. induction s as [|c s IH].
  - cbn [Contains]. rewrite orb_false_r, prefix_iff. split.
    + intros [r H]. exists "", r. exact H.
    + intros [a [b H]]. destruct a; simpl in H.
      * exists b. exact H.
      * discriminate.
  - cbn [Contains]. rewrite orb_true_iff, prefix_iff, IH. split.
    + intros [[r H]|[a [b H]]].
      * exists "", r. exact H.
      * exists (String c a), b. simpl. now rewrite H.
    + intros [a [b H]]. destruct a as [|d a]; simpl in H.
      * left. exists b. exact H.
      * right. injection H as _ H. exists a, b. exact H.
Qed.

Lemma Contains_false_iff (s sub : string) :
  Contains s sub = false <-> ~ Occurs sub s.
Proof.
  rewrite <- Contains_iff. destruct (Contains s sub); split; intros H;
    try reflexivity; try discriminate; try (intros K; discriminate K).
  now destruct H.
Qed.

Lemma Occurs_app_l (sub s t : string) : Occurs sub s -> Occurs sub (s ++ t).
Proof.
  intros [a [b ->]]. exists a, (b ++ t). now rewrite !append_assoc.
Qed.

Lemma Occurs_app_r (sub s t : string) : Occurs sub t -> Occurs sub (s ++ t).
Proof.
  intros [a [b ->]]. exists (s ++ a), b. now rewrite !append_assoc.
Qed.

Lemma Occurs_trans (a b c : string) : Occurs a b -> Occurs b c -> Occurs a c.
Proof.
  intros [x [y ->]] [u [v ->]]. exists (u ++ x), (y ++ v).
  now rewrite !append_assoc.
Qed.

Lemma replace_scan_skip (old new a b : string) :
  replace_scan old new (String.length a) (a ++ b) = replace_scan old new 0 b.
Proof.
  induction a as [|c a IH]; simpl; [reflexivity | exact IH].
Qed.

(** Where [old] does not occur nothing is replaced. *)
Lemma replace_scan_absent (old new s : string) :
  ~ Occurs old s -> replace_scan old new 0 s = s.
Proof.
  induction s as [|c s IH]; intros H; [reflexivity|].
  cbn [replace_scan]. destruct (prefix old (String c s)) eqn:P.
  - destruct H. apply prefix_inv in P. destruct P as [r P].
    exists "", r. exact P.
  - f_equal. apply IH. intros [a [b K]]. apply H.
    exists (String c a), b. simpl. now rewrite K.
Qed.

(** The occurrence found first is replaced and the scan goes on behind it. *)
Lemma replace_scan_here (old new b : string) :
  old <> "" ->
  replace_scan old new 0 (old ++ b) = new ++ replace_scan old new 0 b.
Proof.
  intros Hne. destruct old as [|c old]; [now destruct Hne|].
  change (String c old ++ b) with (String c (old ++ b)).
  cbn [replace_scan].
  change (String c (old ++ b)) with (String c old ++ b).
  rewrite prefix_app. f_equal.
  cbn [String.length]. rewrite Nat.sub_1_r. cbn [Nat.pred].
  apply replace_scan_skip.
Qed.

End StrFacts.

(** ** Redaction of the password in the logged command line *)

Module Redaction.
Import Str StrFacts.

Lemma Join_cons (x : string) (xs : list string) :
  Join (x :: xs) " " = x ++ trail xs.
Proof.
  destruct xs as [|y xs]; simpl; [now rewrite append_nil_r | reflexivity].
Qed.

Lemma lead_cons (p : string) (pre : list string) :
  lead (p :: pre) = p ++ " " ++ lead pre.
Proof.
  unfold lead at 1. rewrite Join_cons.
  destruct pre as [|q pre]; cbn [lead trail].
  - now rewrite append_nil_r.
  - now rewrite !append_assoc.
Qed.

Lemma Join_app_cons (pre : list string) (x : string) (post : list string) :
  Join (pre ++ x :: post) " " = lead pre ++ x ++ trail post.
Proof.
  induction pre as [|p pre IH].
  - apply Join_cons.
  - change ((p :: pre) ++ x :: post)%list with (p :: (pre ++ x :: post))%list.
    rewrite Join_cons, lead_cons.
    assert (T : trail (pre ++ x :: post) = " " ++ Join (pre ++ x :: post) " ")
      by now destruct pre.
    rewrite T, IH. now rewrite !append_assoc.
Qed.

(** The command line with a flag and its value in the middle. *)
Lemma Join_flag (pre post : list string) (flag value : string) :
  Join (pre ++ flag :: value :: post) " "
  = lead pre ++ (flag ++ " " ++ value) ++ trail post.
Proof.
  rewrite Join_app_cons. f_equal.
  change (trail (value :: post)) with (" " ++ Join (value :: post) " ").
  rewrite Join_cons. now rewrite !append_assoc.
Qed.

End Redaction.

Unset Implicit Arguments.

(** ** Redaction of every password that follows its flag *)

Module Masking.
Import Str StrFacts Redaction.

Lemma list_ind_two {A : Type} (P : list A -> Prop) :
  P [] -> (forall a, P [a]) ->
  (forall a v l, P l -> P (v :: l) -> P (a :: v :: l)) ->
  forall l, P l.
Proof.
  intros H0 H1 H2 l.
  assert (B : P l /\ forall a, P (a :: l)); [|exact (proj1 B)].
  induction l as [|v l [IH1 IH2]].
  - split; [exact H0 | exact H1].
  - split; [apply IH2|]. intros a. apply H2; [exact IH1 | apply IH2].
Qed.

(** Where no occurrence of [old] starts within [a], the scan copies [a]. *)
Lemma replace_scan_copies (old new a b : string) :
  (forall a1 a2, a = a1 ++ a2 -> a2 <> "" -> prefix old (a2 ++ b) = false) ->
  replace_scan old new 0 (a ++ b) = a ++ replace_scan old new 0 b.
Proof.
  induction a as [|c a IH]; intros H; [reflexivity|].
  change (String c a ++ b) with (String c (a ++ b)). cbn [replace_scan].
  change (String c (a ++ b)) with (String c a ++ b).
  rewrite (H "" (String c a) eq_refl) by discriminate.
  change (String c a ++ replace_scan old new 0 b)
    with (String c (a ++ replace_scan old new 0 b)).
  f_equal. apply IH. intros a1 a2 -> N.
  apply (H (String c a1) a2 eq_refl N).
Qed.

Lemma flag_no_space : ~ Occurs " " "--password".
Proof. now apply Contains_false_iff. Qed.

Lemma starts_with_space (w x y : string) :
  w <> "" -> " " ++ x = w ++ y -> exists w', w = " " ++ w'.
Proof.
  destruct w as [|c w]; [now intros N|]. intros _ H. cbn [append] in H.
  injection H as <- _. exists w. reflexivity.
Qed.

(** No occurrence of the flag with the secret starts within an argument
    and the space behind it, unless the argument ends with the flag and
    the secret follows. *)
Lemma no_occurrence_starts (secret a x : string) :
  ~ Occurs " " secret ->
  ~ Occurs secret a ->
  ~ ((exists a', a = a' ++ "--password") /\ exists r, x = secret ++ r) ->
  forall a1 a2, a ++ " " = a1 ++ a2 -> a2 <> "" ->
    prefix ("--password" ++ " " ++ secret) (a2 ++ x) = false.
Proof.
  intros Hsp Ha Hc a1 a2 E N.
  destruct (prefix ("--password" ++ " " ++ secret) (a2 ++ x)) eqn:P;
    [exfalso | reflexivity].
  apply prefix_inv in P. destruct P as [r P].
  (* [a2] is an end of [a] with the space behind it *)
  assert (S2 : exists a2', a = a1 ++ a2' /\ a2 = a2' ++ " ").
  { destruct (append_eq_append _ _ _ _ E) as [[w [U V]]|[w [U V]]].
    - destruct w as [|c w].
      + exists "". rewrite append_nil_r in U. subst a1.
        rewrite append_nil_r. split; [reflexivity | now rewrite V].
      + cbn [append] in V. injection V as _ V.
        destruct w; [|discriminate V]. cbn [append] in V.
        subst a2. now destruct N.
    - exists w. split; assumption. }
  destruct S2 as [a2' [-> ->]]. clear E N.
  assert (Q : a2' ++ " " ++ x = "--password" ++ " " ++ secret ++ r).
  { rewrite <- append_assoc, P. now rewrite !append_assoc. }
  destruct (append_eq_append _ _ _ _ Q) as [[w [U V]]|[w [U V]]].
  - (* the flag reaches beyond [a2'] *)
    destruct w as [|c w].
    + apply Hc. split.
      * exists a1. rewrite append_nil_r in U. now subst a2'.
      * exists r. cbn [append] in V. now injection V.
    + destruct (starts_with_space (String c w) x (" " ++ secret ++ r)
                  ltac:(discriminate) V) as [w' W].
      apply flag_no_space. exists a2', w'. rewrite U, W. reflexivity.
  - (* [a2'] holds the flag *)
    destruct w as [|c w].
    + apply Hc. split.
      * exists a1. rewrite append_nil_r in U. now subst a2'.
      * exists r. cbn [append] in V. now injection V.
    + assert (W : c = " "%char /\ secret ++ r = w ++ " " ++ x).
      { cbn [append] in V. now injection V as <- V. }
      destruct W as [-> W].
      destruct (append_eq_append _ _ _ _ W) as [[w2 [U2 V2]]|[w2 [U2 V2]]].
      * apply Ha. exists (a1 ++ "--password" ++ " "), w2.
        rewrite U, U2. now rewrite !append_assoc.
      * destruct w2 as [|c2 w2].
        -- apply Ha. exists (a1 ++ "--password" ++ " "), "".
           rewrite append_nil_r in U2. rewrite U, U2.
           now rewrite !append_assoc, append_nil_r.
        -- destruct (starts_with_space (String c2 w2) x r
                       ltac:(discriminate) V2) as [w' W'].
           apply Hsp. exists w, w'. rewrite U2, W'. reflexivity.
Qed.

Lemma mask_args_head (secret v : string) (l : list string) :
  exists l', mask_args secret (v :: l) = v :: l'.
Proof.
  cbn [mask_args]. destruct l as [|v' l]; [eexists; reflexivity|].
  destruct ((v =? "--password") && (v' =? secret)); eexists; reflexivity.
Qed.

Lemma mask_args_cons (secret v : string) (l : list string) :
  mask_args secret (v :: l) = v :: tl (mask_args secret (v :: l)).
Proof. destruct (mask_args_head secret v l) as [l' ->]. reflexivity. Qed.

Lemma Join_cons_cons (a v : string) (l : list string) :
  Join (a :: v :: l) " " = a ++ " " ++ Join (v :: l) " ".
Proof. reflexivity. Qed.

Lemma Join_cons_mask (a secret v : string) (l : list string) :
  Join (a :: mask_args secret (v :: l)) " "
  = a ++ " " ++ Join (mask_args secret (v :: l)) " ".
Proof. rewrite (mask_args_cons secret v l). reflexivity. Qed.

Lemma Join_flag_first (flag value : string) (post : list string) :
  Join (flag :: value :: post) " " = (flag ++ " " ++ value) ++ trail post.
Proof. exact (Join_flag [] post flag value). Qed.

Lemma flag_not_at_space (secret y : string) :
  prefix ("--password" ++ " " ++ secret) (" " ++ y) = false.
Proof.
  cbn [append prefix]. destruct (ascii_dec "-" " ") as [e|_];
    [discriminate e | reflexivity].
Qed.

(** The scan of the joined arguments masks the arguments. *)
Lemma replace_scan_args (secret : string) (arg : list string) :
  ~ Occurs " " secret ->
  ~ Occurs secret (Join (mask_args secret arg) " ") ->
  replace_scan ("--password" ++ " " ++ secret) ("--password" ++ " " ++ "*****") 0
    (Join arg " ")
  = Join (mask_args secret arg) " ".
Proof.
  intros Hsp. induction arg as [| a | a v l IHl IHvl] using list_ind_two;
    intros Hm.
  - reflexivity.
  - apply replace_scan_absent. intros K. apply Hm.
    change (Join (mask_args secret [a]) " ") with a.
    refine (Occurs_trans _ K). exists ("--password" ++ " "), "".
    now rewrite append_nil_r, append_assoc.
  - change (mask_args secret (a :: v :: l))
      with (if (a =? "--password") && (v =? secret)
            then a :: "*****" :: mask_args secret l
            else a :: mask_args secret (v :: l)) in Hm |- *.
    destruct ((a =? "--password") && (v =? secret)) eqn:B.
    + (* the flag and the secret *)
      apply andb_true_iff in B. destruct B as [Ba Bv].
      apply String.eqb_eq in Ba, Bv. subst a v.
      rewrite Join_flag_first in Hm. rewrite !Join_flag_first.
      rewrite replace_scan_here by (now destruct secret). f_equal.
      destruct l as [|v' l]; [reflexivity|].
      rewrite (mask_args_cons secret v' l) in Hm |- *.
      unfold trail in Hm |- *.
      rewrite <- (mask_args_cons secret v' l) in Hm |- *.
      rewrite replace_scan_copies.
      * f_equal. apply IHl. intros K. apply Hm.
        now do 2 apply Occurs_app_r.
      * intros a1 a2 E N.
        assert (A2 : a2 = " ").
        { destruct a1 as [|c a1]; cbn [append] in E; [now symmetry|].
          injection E as _ E.
          destruct a1; [|discriminate E]. cbn [append] in E.
          subst a2. now destruct N. }
        subst a2. apply flag_not_at_space.
    + (* an argument that stays *)
      rewrite Join_cons_mask in Hm |- *. rewrite Join_cons_cons.
      rewrite <- (append_assoc a " ").
      rewrite replace_scan_copies.
      * rewrite append_assoc. do 2 f_equal. apply IHvl.
        intros K. apply Hm. now do 2 apply Occurs_app_r.
      * apply no_occurrence_starts.
        -- exact Hsp.
        -- intros K. apply Hm. now apply Occurs_app_l.
        -- intros [_ [r R]]. apply Hm. do 2 apply Occurs_app_r.
           rewrite (mask_args_cons secret v l), Join_cons.
           apply Occurs_app_l.
           (* the secret begins the next argument *)
           rewrite Join_cons in R.
           destruct (append_eq_append _ _ _ _ R) as [[w [U V]]|[w [U V]]].
           ++ destruct w as [|c w].
              ** rewrite append_nil_r in U. subst secret.
                 exists "", "". now rewrite append_nil_r.
              ** exfalso. destruct l as [|v' l]; [discriminate V|].
                 unfold trail in V.
                 destruct (starts_with_space (String c w) (Join (v' :: l) " ")
                             r ltac:(discriminate) V) as [w' W].
                 apply Hsp. exists v, w'. rewrite U, W. reflexivity.
           ++ exists "", w. exact U.
Qed.

End Masking.

(** ** What of the flag the scan can come by *)

Module Unmasked.
Import Str StrFacts Redaction Masking.

Lemma replace_scan_miss (old new : string) (c : ascii) (s : string) :
  prefix old (String c s) = false ->
  replace_scan old new 0 (String c s) = String c (replace_scan old new 0 s).
Proof. intros H. cbn [replace_scan]. now rewrite H. Qed.

(** A text no end of which is a beginning of it: each of its occurrences
    is found by the scan, whatever stands in front. *)
Lemma replace_scan_every (old new : string) :
  old <> "" ->
  (forall x y z, old = x ++ y -> old = y ++ z -> y = "" \/ z = "") ->
  forall (n : nat) (a b : string), String.length a <= n ->
    exists a', replace_scan old new 0 (a ++ old ++ b)
               = a' ++ new ++ replace_scan old new 0 b.
Proof.
  intros Hne Hb. induction n as [|n IH]; intros a b L.
  - destruct a; [|cbn in L; lia]. exists "". cbn [append].
    now apply replace_scan_here.
  - destruct a as [|c a];
      [exists ""; cbn [append]; now apply replace_scan_here|].
    cbn [String.length] in L.
    destruct (prefix old (String c a ++ old ++ b)) eqn:P.
    + apply prefix_inv in P. destruct P as [r P].
      symmetry in P.
      destruct (append_eq_append _ _ _ _ P) as [[w [U V]]|[w [U V]]].
      * (* the occurrence lies within [a] *)
        rewrite U, append_assoc, replace_scan_here by exact Hne.
        assert (Lw : String.length w <= n).
        { apply (f_equal String.length) in U. rewrite length_append in U.
          cbn [String.length] in U. destruct old; [now destruct Hne|].
          cbn [String.length] in U. lia. }
        destruct (IH w b Lw) as [w' ->]. exists (new ++ w').
        now rewrite !append_assoc.
      * (* the occurrence would reach into the one looked for *)
        destruct (append_eq_append _ _ _ _ V) as [[w2 [U2 _]]|[w2 [U2 _]]].
        -- exfalso. rewrite U2 in U. apply (f_equal String.length) in U.
           rewrite !length_append in U. cbn [String.length] in U. lia.
        -- destruct (Hb _ _ _ U U2) as [->| ->].
           ++ rewrite append_nil_r in U. rewrite <- U.
              rewrite !replace_scan_here by exact Hne. exists new.
              reflexivity.
           ++ rewrite append_nil_r in U2. exfalso. rewrite <- U2 in U.
              apply (f_equal String.length) in U.
              rewrite length_append in U. cbn [String.length] in U. lia.
    + change (String c a ++ old ++ b) with (String c (a ++ old ++ b)) in P |- *.
      rewrite (replace_scan_miss _ _ _ _ P).
      destruct (IH a b ltac:(lia)) as [a' ->]. exists (String c a').
      reflexivity.
Qed.

(** No end of [--password ] is a beginning of it. *)
Lemma flag_border_free (x y z : string) :
  "--password " = x ++ y -> "--password " = y ++ z -> y = "" \/ z = "".
Proof.
  intros Hx Hy. destruct y as [|c y]; [now left|]. right.
  (* [y] ends with the space *)
  assert (S : exists y', String c y = y' ++ " ").
  { change "--password " with ("--password" ++ " ") in Hx.
    destruct (append_eq_append _ _ _ _ Hx) as [[w [_ V]]|[w [_ V]]].
    - destruct w as [|d w]; [exists ""; cbn [append] in V |- *; now symmetry|].
      cbn [append] in V. injection V as _ V. destruct w; discriminate V.
    - exists w. exact V. }
  destruct S as [y' S]. rewrite S in Hy.
  change "--password " with ("--password" ++ " ") in Hy.
  rewrite append_assoc in Hy.
  destruct (append_eq_append _ _ _ _ Hy) as [[w [_ V]]|[w [U V]]].
  - apply (f_equal String.length) in V. rewrite !length_append in V.
    cbn [String.length] in V. destruct z; [reflexivity | cbn in V; lia].
  - destruct w as [|d w].
    + cbn [append] in V. now injection V.
    + destruct (starts_with_space (String d w) z " " ltac:(discriminate) V)
        as [w' W].
      exfalso. apply flag_no_space. exists y', w'. rewrite U, W. reflexivity.
Qed.

(** Nothing of [--password ] starts within a value that does not hold
    [--password]. *)
Lemma flag_not_in_value (value : string) (post : list string) (a1 a2 : string) :
  ~ Occurs "--password" value ->
  value = a1 ++ a2 -> a2 <> "" ->
  prefix "--password " (a2 ++ trail post) = false.
Proof.
  intros Hv -> N.
  destruct (prefix "--password " (a2 ++ trail post)) eqn:P; [exfalso|reflexivity].
  apply prefix_inv in P. destruct P as [r P].
  change ("--password " ++ r) with ("--password" ++ " " ++ r) in P.
  destruct (append_eq_append _ _ _ _ P) as [[w [U V]]|[w [U V]]].
  - destruct w as [|c w].
    + apply Hv. exists a1, "". rewrite append_nil_r in U. subst a2.
      now rewrite append_nil_r.
    + destruct post as [|p post]; [discriminate V|]. unfold trail in V.
      destruct (starts_with_space (String c w) (Join (p :: post) " ")
                  (" " ++ r) ltac:(discriminate) V) as [w' W].
      apply flag_no_space. exists a2, w'. rewrite U, W. reflexivity.
  - apply Hv. exists a1, w. now rewrite U.
Qed.

End Unmasked.

(** ** The command line as pieces between the masked passwords *)

Module Pieces.
Import Str StrFacts Redaction Masking.

Lemma glue_front (sep x t0 : string) (ts : list string) :
  x ++ glue sep t0 ts = glue sep (x ++ t0) ts.
Proof.
  destruct ts as [|t ts]; cbn [glue]; [reflexivity|].
  now rewrite append_assoc.
Qed.

(** In front of a password behind its flag, the flag with the password
    is not met before: a password would show that is not masked. *)
Lemma no_early_flag (secret t0 rest : string) :
  ~ Occurs "--password" secret ->
  ~ Occurs secret (t0 ++ "--password") ->
  forall a1 a2, t0 = a1 ++ a2 -> a2 <> "" ->
    prefix ("--password " ++ secret)
      (a2 ++ ("--password " ++ secret) ++ rest) = false.
Proof.
  intros HF Hm a1 a2 -> N.
  destruct (prefix ("--password " ++ secret)
              (a2 ++ ("--password " ++ secret) ++ rest)) eqn:P;
    [exfalso | reflexivity].
  apply prefix_inv in P. destruct P as [r P].
  rewrite !append_assoc in P.
  destruct (append_eq_append _ _ _ _ P) as [[w [U V]]|[w [U V]]].
  - destruct w as [|c w].
    + (* the flag is the end of the text in front *)
      change ("" ++ secret ++ r) with (secret ++ r) in V. symmetry in V.
      destruct (append_eq_append _ _ _ _ V) as [[x [U2 _]]|[x [U2 _]]].
      * change "--password " with ("--password" ++ " ") in U2.
        destruct (append_eq_append _ _ _ _ U2) as [[y [U3 _]]|[y [U3 _]]].
        -- apply HF. exists "", y. rewrite U3. reflexivity.
        -- apply Hm. exists (a1 ++ a2), y. rewrite U3.
           now rewrite !append_assoc.
      * apply HF. exists "", (" " ++ x). rewrite U2. reflexivity.
    + (* the flag would begin within the flag *)
      assert (La : String.length a2 <> 0)
        by (destruct a2; [now destruct N | discriminate]).
      destruct (append_eq_append _ _ _ _ V) as [[x [U2 _]]|[x [U2 _]]].
      * rewrite U2 in U. apply (f_equal String.length) in U.
        rewrite !length_append in U. lia.
      * destruct (Unmasked.flag_border_free _ _ _ U U2) as [K|K];
          [discriminate K|].
        subst x. rewrite append_nil_r in U2. rewrite <- U2 in U.
        apply (f_equal String.length) in U. rewrite length_append in U. lia.
  - (* the flag lies within the text in front *)
    destruct (append_eq_append _ _ _ _ V) as [[x [U2 V2]]|[x [U2 V2]]].
    + apply Hm. exists (a1 ++ "--password "), (x ++ "--password").
      rewrite U, U2. now rewrite !append_assoc.
    + change ("--password " ++ secret ++ rest)
        with ("--password" ++ " " ++ secret ++ rest) in V2.
      destruct (append_eq_append _ _ _ _ V2) as [[y [U3 _]]|[y [U3 _]]].
      * apply HF. exists w, y. rewrite U2, U3. reflexivity.
      * apply Hm. exists (a1 ++ "--password "), y.
        rewrite U, U2, U3. now rewrite !append_assoc.
Qed.

(** The scan masks the password between the pieces. *)
Lemma scan_glue (secret : string) (ts : list string) (t0 : string) :
  ~ Occurs "--password" secret ->
  ~ Occurs secret (glue ("--password" ++ " " ++ "*****") t0 ts) ->
  replace_scan ("--password" ++ " " ++ secret) ("--password" ++ " " ++ "*****") 0
    (glue ("--password" ++ " " ++ secret) t0 ts)
  = glue ("--password" ++ " " ++ "*****") t0 ts.
Proof.
  intros HF. revert t0. induction ts as [|t ts IH]; intros t0 Hm;
    cbn [glue] in Hm |- *.
  - apply replace_scan_absent. intros K. apply Hm.
    refine (Occurs_trans _ K). exists ("--password" ++ " "), "".
    now rewrite append_nil_r, append_assoc.
  - rewrite replace_scan_copies.
    + f_equal. rewrite replace_scan_here by discriminate. f_equal.
      apply IH. intros K. apply Hm. now do 2 apply Occurs_app_r.
    + intros a1 a2 E N.
      change ("--password" ++ " " ++ secret) with ("--password " ++ secret).
      refine (no_early_flag secret t0 _ HF _ a1 a2 E N).
      intros [a [b K]]. apply Hm. exists a, (b ++ " *****" ++ glue ("--password" ++ " " ++ "*****") t ts).
      change (("--password" ++ " " ++ "*****")
              ++ glue ("--password" ++ " " ++ "*****") t ts)
        with ("--password" ++ " *****"
              ++ glue ("--password" ++ " " ++ "*****") t ts).
      rewrite <- (append_assoc t0), K. now rewrite !append_assoc.
Qed.

(** The command line and the masked command line are made of the same
    pieces. *)
Lemma args_pieces (secret : string) (arg : list string) :
  exists t0 ts,
    Join arg " " = glue ("--password" ++ " " ++ secret) t0 ts
    /\ Join (mask_args secret arg) " "
       = glue ("--password" ++ " " ++ "*****") t0 ts.
Proof.
  induction arg as [| a | a v l IHl IHvl] using list_ind_two.
  - exists "", []. split; reflexivity.
  - exists a, []. split; reflexivity.
  - change (mask_args secret (a :: v :: l))
      with (if (a =? "--password") && (v =? secret)
            then a :: "*****" :: mask_args secret l
            else a :: mask_args secret (v :: l)).
    destruct ((a =? "--password") && (v =? secret)) eqn:B.
    + apply andb_true_iff in B. destruct B as [Ba Bv].
      apply String.eqb_eq in Ba, Bv. subst a v.
      rewrite !Join_flag_first.
      destruct l as [|v' l].
      * exists "", [""]. split; reflexivity.
      * destruct IHl as (t0 & ts & J & Jm).
        exists "", ((" " ++ t0) :: ts).
        rewrite (mask_args_cons secret v' l) in Jm |- *.
        unfold trail. rewrite J, Jm.
        rewrite (glue_front ("--password" ++ " " ++ secret) " "),
          (glue_front ("--password" ++ " " ++ "*****") " ").
        split; reflexivity.
    + destruct IHvl as (t0 & ts & J & Jm).
      exists (a ++ " " ++ t0), ts.
      rewrite Join_cons_mask, Join_cons_cons, J, Jm.
      rewrite !(glue_front ("--password" ++ " " ++ secret)),
        !(glue_front ("--password" ++ " " ++ "*****")).
      split; reflexivity.
Qed.

(** The scan of the joined arguments masks the arguments, for a
    password that does not hold the flag. *)
Lemma replace_scan_pieces (secret : string) (arg : list string) :
  ~ Occurs "--password" secret ->
  ~ Occurs secret (Join (mask_args secret arg) " ") ->
  replace_scan ("--password" ++ " " ++ secret) ("--password" ++ " " ++ "*****") 0
    (Join arg " ")
  = Join (mask_args secret arg) " ".
Proof.
  intros HF Hm. destruct (args_pieces secret arg) as (t0 & ts & J & Jm).
  rewrite Jm in Hm |- *. rewrite J. now apply scan_glue.
Qed.

End Pieces.

(** ** Steps of the monad *)

Lemma since_app (w w' : world) (evs : list event) :
  trace w' = (trace w ++ evs)%list -> since w w' = evs.
Proof.
  intros H. unfold since. rewrite H.
  rewrite skipn_app, skipn_all, Nat.sub_diag. reflexivity.
Qed.

Lemma execCommand_trace (E : env) (name : string) (opts : execOpts)
  (arg : list string) (w : world) :
  trace (snd (execCommand E name opts arg w))
  = (trace w ++
     [Magenta (log_line E name arg);
      Run name (optDir opts)
        (match optOutput opts with Some out => out | None => Output end)
        Error arg])%list.
Proof.
  unfold execCommand, Cmd_Run, color_Magenta, bind, emit. cbn.
  destruct (command_Run E name (optDir opts) arg _) as [[e|] t]; cbn;
    now rewrite <- app_assoc.
Qed.

(** ** C1: redaction *)

(** The first revision logs every argument as it is. *)
Lemma first_revision_logs_arguments (name a : string) (arg : list string) :
  In a arg -> Str.Occurs a (FirstRevision.log_line name arg).
Proof.
  intros H. apply in_split in H. destruct H as [pre [post ->]].
  unfold FirstRevision.log_line. rewrite Redaction.Join_app_cons.
  exists (name ++ " " ++ lead pre), (trail post).
  now rewrite !StrFacts.append_assoc.
Qed.

(** C1, counterexample.  A password that also stands where no
    [--password] precedes it is logged: with the password [hunter2]
    given as the user name too, the line logged for the fetch command
    shows it. *)
Lemma execCommand_leaks_counterexample :
  let w' := snd (execCommand demo_env "helm" no_opts
                   (fetch_args "https://example/charts" "nginx" "1.2.3"
                      "hunter2" "hunter2" "/tmp/helmt1") demo_world) in
  printed (since demo_world w')
  = ["helm fetch --repo https://example/charts --version 1.2.3 --destination /tmp/helmt1 --username hunter2 --password ***** nginx"]
  /\ exists line, In line (printed (since demo_world w'))
                  /\ Str.Contains line (viper_password demo_env) = true.
Proof.
  cbv zeta. split; [reflexivity|].
  eexists. split; [left; reflexivity | reflexivity].
Qed.

(** C1, amended.  [execCommand] logs one line: the command name, a
    space and the arguments joined by spaces, in which [--password S]
    is replaced by [--password *****] for the configured password [S].
    Take the command line in which, from the left, each argument [S]
    that follows an argument [--password] is replaced by [*****].  For
    a password that holds no blank, or that does not hold the text
    [--password]: when the password does not occur in this masked
    command line, the masked command line is the line logged, and the
    password does not occur in it. *)
Theorem execCommand_masks_password (E : env) (name : string) (opts : execOpts)
  (arg : list string) (w : world) :
  let secret := viper_password E in
  let masked := name ++ " " ++ Str.Join (mask_args secret arg) " " in
  Str.Contains secret " " = false \/ Str.Contains secret "--password" = false ->
  Str.Contains masked secret = false ->
  let w' := snd (execCommand E name opts arg w) in
  printed (since w w') = [masked]
  /\ forall line, In line (printed (since w w')) ->
                  Str.Contains line secret = false.
Proof.
  intros secret masked Hside Hm w'.
  assert (L : log_line E name arg = masked).
  { unfold log_line, masked. f_equal. f_equal. fold secret.
    apply StrFacts.Contains_false_iff in Hm.
    assert (Hm' : ~ Str.Occurs secret (Str.Join (mask_args secret arg) " ")).
    { intros K. apply Hm. unfold masked.
      now do 2 apply StrFacts.Occurs_app_r. }
    unfold Str.ReplaceAll.
    change ("--password " ++ secret) with ("--password" ++ " " ++ secret).
    change ("--password *****") with ("--password" ++ " " ++ "*****").
    destruct ("--password" ++ " " ++ secret) eqn:D; [discriminate D|].
    rewrite <- D.
    destruct Hside as [Hsp|Hf].
    - apply StrFacts.Contains_false_iff in Hsp.
      now apply Masking.replace_scan_args.
    - apply StrFacts.Contains_false_iff in Hf.
      now apply Pieces.replace_scan_pieces. }
  assert (P : printed (since w w') = [masked]).
  { unfold w'. erewrite since_app by apply execCommand_trace.
    cbn [printed]. now rewrite L. }
  split; [exact P|].
  rewrite P. intros line [<-|[]]. exact Hm.
Qed.

Lemma execCommand_masks_password_witness :
  (let w' := snd (execCommand demo_env "helm" no_opts
                    ["fetch"; "--password"; "hunter2"; "--repo";
                     "https://example/charts"; "--password"; "hunter2"; "nginx"]
                    demo_world) in
   printed (since demo_world w')
   = ["helm fetch --password ***** --repo https://example/charts --password ***** nginx"]
   /\ forall line, In line (printed (since demo_world w')) ->
                   Str.Contains line "hunter2" = false)
  /\ (let w' := snd (execCommand spaced_env "helm" no_opts
                       ["fetch"; "--password"; "p w"; "nginx"] demo_world) in
      printed (since demo_world w') = ["helm fetch --password ***** nginx"]
      /\ forall line, In line (printed (since demo_world w')) ->
                      Str.Contains line "p w" = false).
Proof.
  split.
  - exact (execCommand_masks_password demo_env "helm" no_opts
             ["fetch"; "--password"; "hunter2"; "--repo";
              "https://example/charts"; "--password"; "hunter2"; "nginx"]
             demo_world (or_introl eq_refl) eq_refl).
  - exact (execCommand_masks_password spaced_env "helm" no_opts
             ["fetch"; "--password"; "p w"; "nginx"]
             demo_world (or_intror eq_refl) eq_refl).
Defined.

(** A password that holds both a blank and the text [--password] can
    show in the line logged although it is given as the value of a
    [--password] flag only and does not occur in the masked command
    line: the scan meets the flag with the password before the
    argument that is the password. *)
Lemma masking_fails_for_odd_password :
  let arg := ["--password"; "a"; "--password"; "a --password a --password";
              "a"; "--password"] in
  let w' := snd (execCommand odd_env "helm" no_opts arg demo_world) in
  Str.Join (mask_args (viper_password odd_env) arg) " "
  = "--password a --password ***** a --password"
  /\ Str.Contains ("helm " ++ Str.Join (mask_args (viper_password odd_env) arg) " ")
       (viper_password odd_env) = false
  /\ printed (since demo_world w')
     = ["helm --password ***** a --password a --password"]
  /\ Str.Contains "helm --password ***** a --password a --password"
       (viper_password odd_env) = true.
Proof. cbv zeta. repeat split. Qed.

(** ** C4 and C7: the argument lists *)

Lemma length_pos_nonempty (s : string) :
  (0 <? String.length s)%nat = negb (s =? "").
Proof. now destruct s. Qed.

Lemma fold_left_pairs (flag : string) (l acc : list string) :
  fold_left (fun args x => args ++ [flag; x])%list l acc
  = (acc ++ flat_map (fun x => [flag; x]) l)%list.
Proof.
  revert acc. induction l as [|x l IH]; intros acc; cbn [fold_left flat_map].
  - now rewrite app_nil_r.
  - rewrite IH. now rewrite <- app_assoc.
Qed.

(** C4.  The argument list [template] builds is, in this order: the
    sub-command [template], the name and the artifact path;
    [--namespace ns] iff the namespace is not empty; [--include-crds]
    iff [skipCRDs] is false; [--skip-tests]; a pair [--values f] for
    each values file, in the order of the list; [--output-dir dir]
    where [dir] is [outputDir], or [.] when that is empty; a pair
    [--api-versions v] for each API version, in the order of the list.
    It is the list [helm] is run with. *)
Theorem template_args_spec (E : env) (name chart : string) (values : list string)
  (namespace : string) (skipCRDs : bool) (outputDir : string)
  (ApiVersions : list string) :
  template_args name chart values namespace skipCRDs outputDir ApiVersions
  = render_args name chart values namespace skipCRDs outputDir ApiVersions
  /\ template E name chart values namespace skipCRDs outputDir ApiVersions
     = execCommand E "helm" no_opts
         (render_args name chart values namespace skipCRDs outputDir ApiVersions).
Proof.
  assert (A : template_args name chart values namespace skipCRDs outputDir
                ApiVersions
              = render_args name chart values namespace skipCRDs outputDir
                  ApiVersions).
  { unfold template_args, render_args. cbv zeta.
    rewrite !length_pos_nonempty.
    assert (L : (0 <? List.length ApiVersions)%nat = negb (match ApiVersions with [] => true | _ => false end))
      by now destruct ApiVersions.
    rewrite L.
    destruct (namespace =? ""), skipCRDs, (outputDir =? ""), ApiVersions;
      cbn [negb]; rewrite ?fold_left_pairs, ?app_nil_r, <- ?app_assoc;
      reflexivity. }
  split; [exact A|]. unfold template, execute. now rewrite A.
Qed.

Lemma fetch_args_eq (repository chart version username password d : string) :
  fetch_args repository chart version username password d
  = fetch_args_spec repository chart version username password d.
Proof.
  unfold fetch_args, fetch_args_spec. cbv zeta.
  destruct (username =? ""), (password =? ""); reflexivity.
Qed.

(** C7.  The argument list [fetch] builds always holds [--repo] with the
    repository, [--version] with the version and [--destination] with
    the temporary directory; it holds [--username u] iff the user name
    is not empty and [--password p] iff the password is not empty; the
    chart identifier is its last element. *)
Theorem fetch_args_correct (repository chart version username password d : string) :
  fetch_args repository chart version username password d
  = fetch_args_spec repository chart version username password d
  /\ last (fetch_args repository chart version username password d) "" = chart.
Proof.
  assert (A : fetch_args repository chart version username password d
              = fetch_args_spec repository chart version username password d).
  { apply fetch_args_eq. }
  split; [exact A|]. rewrite A. unfold fetch_args_spec.
  rewrite !app_assoc. apply last_last.
Qed.

(** ** C3: validation of the descriptor *)

Lemma validate_Struct_spec (chart : HelmChart) :
  validate_Struct chart
  = if lacks_required chart
    then Some (ValidationErrors (missing_required chart))
    else None.
Proof.
  unfold validate_Struct, lacks_required, missing_required, required_fields.
  cbn [filter snd].
  destruct (Chart chart =? ""), (Version chart =? ""),
    (Repository chart =? ""), (Name chart =? ""); reflexivity.
Qed.

Lemma missing_required_nonempty (chart : HelmChart) :
  lacks_required chart = true -> missing_required chart <> [].
Proof.
  unfold lacks_required, missing_required, required_fields. cbn [filter snd].
  destruct (Chart chart =? ""), (Version chart =? ""),
    (Repository chart =? ""), (Name chart =? ""); cbn; intros H;
    try discriminate.
Qed.

Lemma readParameters_parsed (E : env) (filename : string) (w : world)
  (data : string) (chart : HelmChart) :
  FS.stat (cwd E) filename (fs w) = inr (FS.File data) ->
  yaml_Unmarshal E data = Ok chart ->
  readParameters E filename w
  = (match validate_Struct chart with
     | Some err => Err err
     | None => Ok chart
     end, after_read filename w).
Proof.
  intros Hf Hy. unfold readParameters, ioutil_ReadFile, bind, emit, get_fs.
  cbn. rewrite Hf. unfold ret. rewrite Hy.
  destruct (validate_Struct chart); reflexivity.
Qed.

(** C3.  When the descriptor, a regular file that its name leads to,
    has been read and parsed: if one of the
    fields [chart], [version], [repository], [name] is missing or empty,
    [readParameters] fails with a validation error that names at least
    one field, [HelmTemplate] returns this error, and nothing has
    happened but the reading of the file, so the fetch stage is not
    reached; if all four are non-empty, [readParameters] returns the
    parsed chart. *)
Theorem readParameters_validates (E : env) (filename : string) (clean : bool)
  (username password : string) (w : world) (data : string) (chart : HelmChart) :
  FS.stat (cwd E) filename (fs w) = inr (FS.File data) ->
  yaml_Unmarshal E data = Ok chart ->
  if lacks_required chart
  then
    missing_required chart <> []
    /\ readParameters E filename w
       = (Err (ValidationErrors (missing_required chart)), after_read filename w)
    /\ HelmTemplate E filename clean username password w
       = (Err (ValidationErrors (missing_required chart)), after_read filename w)
    /\ since w (snd (HelmTemplate E filename clean username password w))
       = [ReadFile filename]
  else
    readParameters E filename w = (Ok chart, after_read filename w).
Proof.
  intros Hf Hy.
  pose proof (readParameters_parsed E filename w data chart Hf Hy) as R.
  rewrite validate_Struct_spec in R.
  destruct (lacks_required chart) eqn:L; [|exact R].
  assert (H : HelmTemplate E filename clean username password w
              = (Err (ValidationErrors (missing_required chart)),
                 after_read filename w)).
  { unfold HelmTemplate, bind at 1. now rewrite R. }
  repeat split.
  - now apply missing_required_nonempty.
  - exact R.
  - exact H.
  - rewrite H. now apply since_app.
Qed.

Lemma readParameters_validates_witness :
  (missing_required demo_broken_chart <> []
   /\ readParameters demo_env "broken.yaml" demo_world
      = (Err (ValidationErrors ["Version"]), after_read "broken.yaml" demo_world)
   /\ HelmTemplate demo_env "broken.yaml" true "admin" "hunter2" demo_world
      = (Err (ValidationErrors ["Version"]), after_read "broken.yaml" demo_world)
   /\ since demo_world
        (snd (HelmTemplate demo_env "broken.yaml" true "admin" "hunter2" demo_world))
      = [ReadFile "broken.yaml"])
  /\ readParameters demo_env "helmt.yaml" demo_world
     = (Ok demo_chart, after_read "helmt.yaml" demo_world).
Proof.
  split.
  - exact (readParameters_validates demo_env "broken.yaml" true "admin" "hunter2"
             demo_world "chart: nginx # no version" demo_broken_chart
             eq_refl eq_refl).
  - exact (readParameters_validates demo_env "helmt.yaml" true "admin" "hunter2"
             demo_world "chart: nginx" demo_chart eq_refl eq_refl).
Defined.

(** ** What the stages record *)

Lemma bind_Ok {A B : Type} (c : M A) (k : A -> M B) (w w' : world) (a : A) :
  c w = (Ok a, w') -> bind c k w = k a w'.
Proof. intros H. unfold bind. now rewrite H. Qed.

Lemma bind_Err {A B : Type} (c : M A) (k : A -> M B) (w w' : world) (e : error) :
  c w = (Err e, w') -> bind c k w = (Err e, w').
Proof. intros H. unfold bind. now rewrite H. Qed.

Lemma readParameters_trace (E : env) (filename : string) (w w' : world)
  (r : result HelmChart) :
  readParameters E filename w = (r, w') ->
  trace w' = (trace w ++ [ReadFile filename])%list.
Proof.
  unfold readParameters, ioutil_ReadFile, bind, emit, get_fs, ret, fail. cbn.
  destruct (FS.stat _ _ _) as [e|[data|es|]]; cbn.
  - intros H; injection H as _ <-; reflexivity.
  - destruct (yaml_Unmarshal E data) as [chart|e]; cbn.
    + destruct (validate_Struct chart); intros H; injection H as _ <-;
        reflexivity.
    + intros H; injection H as _ <-; reflexivity.
  - intros H; injection H as _ <-; reflexivity.
  - intros H; injection H as _ <-; reflexivity.
Qed.

Lemma execute_trace (E : env) (name : string) (arg : list string)
  (w w' : world) (r : result unit) :
  execute E name no_opts arg w = (r, w') ->
  trace w' = (trace w ++ [Magenta (log_line E name arg);
                          Run name "" Output Error arg])%list.
Proof.
  intros H. pose proof (execCommand_trace E name no_opts arg w) as T.
  unfold execute in H. rewrite H in T. exact T.
Qed.

Lemma tempDir_trace (E : env) (w w' : world) (r : result string) :
  tempDir E w = (r, w') ->
  trace w' = (trace w ++ [MkdirTemp "" "helmt"])%list.
Proof.
  unfold tempDir, tempDirCommand, MkdirTemp_call, bind, emit. cbn.
  destruct (os_MkdirTemp E "" "helmt" _) as [r' t].
  intros H; injection H as _ <-; reflexivity.
Qed.

Lemma dirContent_trace (E : env) (d : string) (w w' : world)
  (r : result (list string)) :
  dirContent E d w = (r, w') ->
  trace w' = (trace w ++ [ReadDir d])%list.
Proof.
  unfold dirContent, dirContentCommand, os_ReadDir, bind, emit, get_fs, ret, fail.
  cbn. destruct (FS.stat _ _ _) as [e|[data|es|]]; cbn;
    intros H; injection H as _ <-; reflexivity.
Qed.

(** ** C2: exactly one fetched artifact *)

Lemma fetch_listed (E : env) (repository chart version username password : string)
  (w w1 w2 w3 : world) (d : string) (content : list string) :
  tempDir E w = (Ok d, w1) ->
  execute E "helm" no_opts
    (fetch_args repository chart version username password d) w1 = (Ok tt, w2) ->
  dirContent E d w2 = (Ok content, w3) ->
  fetch E repository chart version username password w
  = if (List.length content =? 1)%nat
    then (Ok (FS.Join [d; nth 0 content ""]),
          after_download (FS.Join [d; nth 0 content ""]) w3)
    else (Err (unexpected_content d), w3).
Proof.
  intros H1 H2 H3. unfold fetch.
  assert (T : wrap_error (tempDir E) (fun err =>
                Errorf ("failed to create temporary directory to download helm chart: "
                        ++ error_text err)) w = (Ok d, w1))
    by (unfold wrap_error; now rewrite H1).
  rewrite (bind_Ok _ _ _ _ _ T), (bind_Ok _ _ _ _ _ H2), (bind_Ok _ _ _ _ _ H3).
  destruct (List.length content =? 1)%nat; reflexivity.
Qed.

Lemma since_fetch_listed (E : env) (filename : string)
  (username password : string) (c : HelmChart) (r : result HelmChart)
  (w0 wa w w1 w2 w3 : world) (d : string) (r1 : result string)
  (r2 r0 : result unit) (r3 : result (list string)) :
  readParameters E filename w0 = (r, wa) ->
  HelmVersion E wa = (r0, w) ->
  tempDir E w = (r1, w1) ->
  execute E "helm" no_opts
    (fetch_args (Repository c) (Chart c) (Version c) username password d) w1
  = (r2, w2) ->
  dirContent E d w2 = (r3, w3) ->
  since w0 w3
  = [ReadFile filename;
     Magenta (log_line E "helm" ["version"]);
     Run "helm" "" Output Error ["version"];
     MkdirTemp "" "helmt";
     Magenta (log_line E "helm"
                (fetch_args (Repository c) (Chart c) (Version c)
                   username password d));
     Run "helm" "" Output Error
       (fetch_args (Repository c) (Chart c) (Version c) username password d);
     ReadDir d].
Proof.
  intros Ha Hb H1 H2 H3. apply since_app.
  rewrite (dirContent_trace _ _ _ _ _ H3), (execute_trace _ _ _ _ _ _ H2),
    (tempDir_trace _ _ _ _ H1).
  unfold HelmVersion in Hb.
  rewrite (execute_trace _ _ _ _ _ _ Hb), (readParameters_trace _ _ _ _ _ Ha).
  now rewrite <- !app_assoc.
Qed.

(** C2.  When the temporary directory was made, [helm fetch] succeeded
    and the directory was listed: if it holds exactly one entry, [fetch]
    returns the join of the directory and the name of the entry;
    otherwise it returns an error that names the directory, and
    [HelmTemplate], having got this far, returns that error in the world
    the listing left, in which no render command was started. *)
Theorem fetch_exactly_one (E : env)
  (repository chart version username password : string)
  (w w1 w2 w3 : world) (d : string) (content : list string) :
  tempDir E w = (Ok d, w1) ->
  execute E "helm" no_opts
    (fetch_args repository chart version username password d) w1 = (Ok tt, w2) ->
  dirContent E d w2 = (Ok content, w3) ->
  match content with
  | [entry] =>
      fetch E repository chart version username password w
      = (Ok (FS.Join [d; entry]), after_download (FS.Join [d; entry]) w3)
  | _ =>
      fetch E repository chart version username password w
      = (Err (unexpected_content d), w3)
      /\ Str.Occurs d (error_text (unexpected_content d))
      /\ forall (filename : string) (clean : bool) (c : HelmChart) (w0 wa : world),
           repository = Repository c -> chart = Chart c -> version = Version c ->
           readParameters E filename w0 = (Ok c, wa) ->
           HelmVersion E wa = (Ok tt, w) ->
           HelmTemplate E filename clean username password w0
           = (Err (unexpected_content d), w3)
           /\ existsb is_render (since w0 w3) = false
  end.
Proof.
  intros H1 H2 H3.
  pose proof (fetch_listed E repository chart version username password
                w w1 w2 w3 d content H1 H2 H3) as F.
  assert (N : (List.length content =? 1)%nat = false ->
              fetch E repository chart version username password w
              = (Err (unexpected_content d), w3)
              /\ Str.Occurs d (error_text (unexpected_content d))
              /\ forall (filename : string) (clean : bool) (c : HelmChart)
                        (w0 wa : world),
                   repository = Repository c -> chart = Chart c ->
                   version = Version c ->
                   readParameters E filename w0 = (Ok c, wa) ->
                   HelmVersion E wa = (Ok tt, w) ->
                   HelmTemplate E filename clean username password w0
                   = (Err (unexpected_content d), w3)
                   /\ existsb is_render (since w0 w3) = false).
  { intros L. rewrite L in F. split; [exact F|]. split.
    - exists "unexpected content in temporary directory ", "".
      cbn [error_text unexpected_content]. now rewrite StrFacts.append_nil_r.
    - intros filename clean c w0 wa -> -> -> Ha Hb. split.
      + unfold HelmTemplate.
        rewrite (bind_Ok _ _ _ _ _ Ha), (bind_Ok _ _ _ _ _ Hb).
        now rewrite (bind_Err _ _ _ _ _ F).
      + rewrite (since_fetch_listed E filename username password c _
                   w0 wa w w1 w2 w3 d _ _ _ _ Ha Hb H1 H2 H3).
        rewrite fetch_args_eq. reflexivity. }
  destruct content as [|entry [|entry' rest]].
  - now apply N.
  - exact F.
  - now apply N.
Qed.

Lemma fetch_exactly_one_witness :
  fetch demo_env "https://example/charts" "nginx" "1.2.3" "admin" "hunter2"
    demo_world
  = (Ok "/tmp/helmt1/nginx-1.2.3.tgz",
     snd (fetch demo_env "https://example/charts" "nginx" "1.2.3" "admin"
            "hunter2" demo_world))
  /\ fetch quiet_env "https://example/charts" "nginx" "1.2.3" "admin" "hunter2"
       demo_world
     = (Err (Errorf "unexpected content in temporary directory /tmp/helmt1"),
        snd (fetch quiet_env "https://example/charts" "nginx" "1.2.3" "admin"
               "hunter2" demo_world)).
Proof.
  split.
  - exact (fetch_exactly_one demo_env "https://example/charts" "nginx" "1.2.3"
             "admin" "hunter2" demo_world _ _ _ "/tmp/helmt1"
             ["nginx-1.2.3.tgz"] eq_refl eq_refl eq_refl).
  - exact (proj1 (fetch_exactly_one quiet_env "https://example/charts" "nginx"
                    "1.2.3" "admin" "hunter2" demo_world _ _ _ "/tmp/helmt1"
                    [] eq_refl eq_refl eq_refl)).
Defined.

(** ** C9: the order of the stages and the first failure *)

(** A run that ends here: the code and the fail-fast sequence agree, and
    the stages run are an initial part of the plan. *)
Ltac run_ends kustomize :=
  split;
  [ reflexivity
  | exists kustomize; eexists; split;
    [ reflexivity
    | split;
      [ cbn; intros; first [discriminate | reflexivity]
      | let H := fresh in
        intros ? ? H;
        first [discriminate H | injection H as <- <-; symmetry; assumption] ] ] ].

(** C9.  [HelmTemplate] is the fail-fast sequence of its stages: load
    and validate, version probe, fetch, clean if asked for, render,
    kustomization if the descriptor asks for it.  The stages it runs are an initial part
    of this plan, the whole of it when the run succeeds; when a stage
    fails, the run ends there, no later stage is run, and the error of
    that stage is the result. *)
Theorem HelmTemplate_fail_fast (E : env) (filename : string) (clean : bool)
  (username password : string) (w : world) :
  let P := pipeline E filename clean username password w in
  HelmTemplate E filename clean username password w = (snd (fst P), snd P)
  /\ exists (kustomize : bool) (not_run : list stage),
       plan clean kustomize = (fst (fst P) ++ not_run)%list
       /\ (snd (fst P) = Ok tt -> not_run = [])
       /\ (forall (chart : HelmChart) (w1 : world),
             readParameters E filename w = (Ok chart, w1) ->
             kustomize = GenerateKustomization (postProcess chart)).
Proof.
  cbv zeta. unfold pipeline, HelmTemplate. unfold bind at 1.
  destruct (readParameters E filename w) as [[chart|e] w1];
    [|run_ends false].
  unfold stages_after_load.
  destruct clean, (GenerateKustomization (postProcess chart)) eqn:K;
    cbn [app run_stages]; unfold bind, ret;
    (destruct (HelmVersion E w1) as [[[]|e] w2]; [|run_ends true || run_ends false]);
    (destruct (fetch E (Repository chart) (Chart chart) (Version chart)
                 username password w2) as [[artifact|e] w3];
     [|run_ends true || run_ends false]);
    try (destruct (removeOutput E chart w3) as [[[]|e] w4];
         [|run_ends true || run_ends false]);
    match goal with
    | |- context [template E ?n ?a ?v ?ns ?sk ?o ?av ?x] =>
        destruct (template E n a v ns sk o av x) as [[[]|e] w5];
        [|run_ends true || run_ends false]
    end;
    try (match goal with
         | |- context [generateKustomization E ?c ?x] =>
             destruct (generateKustomization E c x) as [[[]|e] w6];
             [|run_ends true || run_ends false]
         end);
    (run_ends true || run_ends false).
Qed.

(** ** The file system: entries, lookup and removal *)

Module FSFacts.
Import FS.

Lemma assoc_set_entry_same (name : string) (v : node) (es : list (string * node)) :
  assoc name (set_entry name v es) = Some v.
Proof.
  induction es as [|[k x] es IH]; cbn [set_entry assoc].
  - now rewrite String.eqb_refl.
  - destruct (k =? name) eqn:K; cbn [assoc]; rewrite K; [reflexivity | exact IH].
Qed.

Lemma assoc_set_entry_other (name other : string) (v : node)
  (es : list (string * node)) :
  other <> name -> assoc other (set_entry name v es) = assoc other es.
Proof.
  intros N. induction es as [|[k x] es IH]; cbn [set_entry assoc].
  - destruct (name =? other) eqn:K; [|reflexivity].
    apply String.eqb_eq in K. now destruct N.
  - destruct (k =? name) eqn:K; cbn [assoc].
    + apply String.eqb_eq in K. subst k.
      destruct (name =? other) eqn:K'; [|reflexivity].
      apply String.eqb_eq in K'. now destruct N.
    + now rewrite IH.
Qed.

Lemma set_entry_same (name : string) (v : node) (es : list (string * node)) :
  assoc name es = Some v -> set_entry name v es = es.
Proof.
  induction es as [|[k x] es IH]; cbn [set_entry assoc]; [discriminate|].
  destruct (k =? name); intros H.
  - now injection H as ->.
  - now rewrite IH.
Qed.

Lemma set_entry_twice (name : string) (v v' : node) (es : list (string * node)) :
  set_entry name v' (set_entry name v es) = set_entry name v' es.
Proof.
  induction es as [|[k x] es IH]; cbn [set_entry].
  - now rewrite String.eqb_refl.
  - destruct (k =? name) eqn:K; cbn [set_entry]; rewrite K;
      [reflexivity | now rewrite IH].
Qed.

Lemma set_entry_absent (name : string) (v : node) (es : list (string * node)) :
  assoc name es = None -> set_entry name v es = (es ++ [(name, v)])%list.
Proof.
  induction es as [|[k x] es IH]; cbn [set_entry assoc app]; [reflexivity|].
  destruct (k =? name); [discriminate|]. intros H. now rewrite IH.
Qed.

Lemma assoc_del_entry (name : string) (es : list (string * node)) :
  assoc name (del_entry name es) = None.
Proof.
  unfold del_entry. induction es as [|[k x] es IH]; cbn [filter assoc fst];
    [reflexivity|].
  destruct (k =? name) eqn:K; cbn [negb assoc]; [exact IH | now rewrite K].
Qed.

Lemma del_entry_absent (name : string) (es : list (string * node)) :
  assoc name es = None -> del_entry name es = es.
Proof.
  unfold del_entry. induction es as [|[k x] es IH]; cbn [filter assoc fst];
    [reflexivity|].
  destruct (k =? name); [discriminate|]. intros H. cbn [negb]. now rewrite IH.
Qed.

Lemma lookup_app (p q : path) (t : node) :
  lookup (p ++ q)%list t
  = match lookup p t with
    | Some m => lookup q m
    | None => None
    end.
Proof.
  revert t. induction p as [|c p IH]; intros t; cbn [app lookup]; [reflexivity|].
  destruct t as [data|es|]; [reflexivity| |reflexivity].
  destruct (assoc c es); [apply IH | reflexivity].
Qed.

(** What was removed is not there any more. *)
Lemma lookup_remove (p : path) (t : node) :
  p <> [] -> lookup p (remove p t) = None.
Proof.
  revert t. induction p as [|c p IH]; intros t N; [now destruct N|].
  destruct t as [data|es|]; [reflexivity| |reflexivity].
  cbn [remove]. destruct p as [|c' p].
  - cbn [lookup]. now rewrite assoc_del_entry.
  - destruct (assoc c es) as [m|] eqn:A.
    + change (lookup (c :: c' :: p) (Dir (set_entry c (remove (c' :: p) m) es)))
        with (match assoc c (set_entry c (remove (c' :: p) m) es) with
              | Some m' => lookup (c' :: p) m'
              | None => None
              end).
      rewrite assoc_set_entry_same. apply IH. discriminate.
    + cbn [lookup]. now rewrite A.
Qed.

(** Removing what is not there changes nothing. *)
Lemma remove_absent (p : path) (t : node) :
  lookup p t = None -> remove p t = t.
Proof.
  revert t. induction p as [|c p IH]; intros t H; [discriminate H|].
  destruct t as [data|es|]; [reflexivity| |reflexivity].
  cbn [remove]. cbn [lookup] in H. destruct p as [|c' p].
  - destruct (assoc c es) eqn:A; [discriminate H|].
    now rewrite del_entry_absent.
  - destruct (assoc c es) as [m|] eqn:A; [|reflexivity].
    rewrite (IH m H). now rewrite set_entry_same.
Qed.

Lemma remove_twice (p : path) (t : node) :
  remove p (remove p t) = remove p t.
Proof.
  destruct p as [|c p]; [reflexivity|].
  apply remove_absent, lookup_remove. discriminate.
Qed.

Lemma assoc_In (name : string) (v : node) (es : list (string * node)) :
  assoc name es = Some v -> In (name, v) es.
Proof.
  induction es as [|[k x] es IH]; cbn [assoc]; [discriminate|].
  destruct (String.eqb_spec k name) as [->|N].
  - intros H. injection H as ->. now left.
  - intros H. right. now apply IH.
Qed.

End FSFacts.

(** ** Path strings: cleaning a path does not change what it names *)

Module PathFacts.
Import FS.

Lemma split_nonempty (s : string) : split s <> [].
Proof.
  destruct s as [|c s]; cbn [split]; [discriminate|].
  destruct (c =? "/")%char; [discriminate|].
  destruct (split s); discriminate.
Qed.

Lemma split_app_slash (a b : string) :
  split (a ++ "/" ++ b) = (split a ++ split b)%list.
Proof.
  induction a as [|c a IH]; [reflexivity|].
  change (String c a ++ "/" ++ b) with (String c (a ++ "/" ++ b)).
  cbn [split]. rewrite IH. destruct (c =? "/")%char; [reflexivity|].
  pose proof (split_nonempty a) as N.
  destruct (split a) as [|x xs]; [now destruct N | reflexivity].
Qed.

Lemma split_slash_free (s : string) : slash_free s = true -> split s = [s].
Proof.
  induction s as [|c s IH]; [reflexivity|]. cbn [slash_free split].
  destruct (c =? "/")%char; [discriminate|]. cbn [negb andb].
  intros H. now rewrite (IH H).
Qed.

Lemma split_parts_slash_free (s : string) :
  Forall (fun c => slash_free c = true) (split s).
Proof.
  induction s as [|c s IH]; [repeat constructor|]. cbn [split].
  destruct (c =? "/")%char eqn:C; [now constructor|].
  destruct (split s) as [|x xs]; [repeat constructor; cbn; now rewrite C|].
  inversion IH; subst. constructor; [|assumption].
  cbn [slash_free]. now rewrite C.
Qed.

Lemma split_concat (cs : list string) :
  cs <> [] -> Forall (fun c => slash_free c = true) cs ->
  split (String.concat "/" cs) = cs.
Proof.
  induction cs as [|c cs IH]; intros N F; [now destruct N|].
  inversion F as [|? ? Hc Hcs]; subst.
  destruct cs as [|c' cs].
  - cbn [String.concat]. now apply split_slash_free.
  - change (String.concat "/" (c :: c' :: cs))
      with (c ++ "/" ++ String.concat "/" (c' :: cs)).
    rewrite split_app_slash, IH by (discriminate || assumption).
    now rewrite split_slash_free.
Qed.

Lemma normalize_app (rooted : bool) (stack cs cs' : list string) :
  normalize rooted stack (cs ++ cs')
  = normalize rooted (normalize rooted stack cs) cs'.
Proof.
  revert stack. induction cs as [|c cs IH]; intros stack; [reflexivity|].
  cbn [app normalize].
  destruct ((c =? "") || (c =? ".")); [apply IH|].
  destruct (c =? "..").
  - destruct stack as [|top rest].
    + destruct rooted; apply IH.
    + destruct (negb rooted && (top =? "..")); apply IH.
  - apply IH.
Qed.

Lemma is_name_cases (c : string) :
  is_name c = true ->
  (c =? "") || (c =? ".") = false /\ (c =? "..") = false.
Proof.
  unfold is_name. destruct (c =? ""), (c =? "."), (c =? "..");
    cbn; intros H; try discriminate; now split.
Qed.

Lemma normalize_name (rooted : bool) (stack : list string) (c : string)
  (cs : list string) :
  is_name c = true ->
  normalize rooted stack (c :: cs) = normalize rooted (c :: stack) cs.
Proof.
  intros H. destruct (is_name_cases c H) as [H1 H2].
  cbn [normalize]. now rewrite H1, H2.
Qed.

Lemma normalize_kept (rooted : bool) (stack cs : list string) :
  Forall (kept rooted) stack ->
  Forall (fun c => slash_free c = true) cs ->
  Forall (kept rooted) (normalize rooted stack cs).
Proof.
  revert stack. induction cs as [|c cs IH]; intros stack Hs Hc; [exact Hs|].
  inversion Hc as [|? ? Hc1 Hc2]; subst. cbn [normalize].
  destruct ((c =? "") || (c =? ".")) eqn:E1; [now apply IH|].
  destruct (c =? "..") eqn:E2.
  - apply String.eqb_eq in E2. subst c.
    destruct stack as [|top rest].
    + destruct rooted; apply IH; try assumption.
      constructor; [|constructor]. split; [reflexivity | now right].
    + destruct rooted; cbn [negb andb].
      * apply IH; [now inversion Hs | assumption].
      * destruct (top =? "..").
        -- apply IH; [|assumption]. constructor; [|assumption].
           split; [reflexivity | now right].
        -- apply IH; [now inversion Hs | assumption].
  - apply IH; [|assumption]. constructor; [|assumption].
    split; [assumption|]. left. unfold is_name.
    apply orb_false_iff in E1. destruct E1 as [-> ->]. now rewrite E2.
Qed.

Lemma resolved_cons_name (st0 cleaned : list string) (c : string) :
  is_name c = true -> resolved st0 (c :: cleaned) = c :: resolved st0 cleaned.
Proof.
  intros H. unfold resolved. cbn [rev]. rewrite normalize_app.
  now rewrite normalize_name.
Qed.

Lemma resolved_cons_dotdot (st0 cleaned cs : list string) :
  normalize true (resolved st0 (".." :: cleaned)) cs
  = normalize true (resolved st0 cleaned) (".." :: cs).
Proof.
  unfold resolved. cbn [rev]. rewrite normalize_app.
  set (st := normalize true st0 (rev cleaned)). cbn [normalize].
  change ((".." =? "") || (".." =? ".")) with false.
  change (".." =? "..") with true. cbv iota.
  destruct st as [|top rest]; reflexivity.
Qed.

(** Cleaning first and resolving then gives what resolving gives. *)
Lemma resolved_normalize (rooted : bool) (st0 cleaned cs : list string) :
  (rooted = true -> st0 = []) ->
  Forall (kept rooted) cleaned ->
  Forall (fun c => slash_free c = true) cs ->
  resolved st0 (normalize rooted cleaned cs)
  = normalize true (resolved st0 cleaned) cs.
Proof.
  intros Hr. revert cleaned.
  induction cs as [|c cs IH]; intros cleaned Hk Hc; [reflexivity|].
  inversion Hc as [|? ? Hc1 Hc2]; subst. cbn [normalize].
  destruct ((c =? "") || (c =? ".")) eqn:E1; [now apply IH|].
  destruct (c =? "..") eqn:E2.
  - apply String.eqb_eq in E2. subst c.
    destruct cleaned as [|top rest].
    + destruct rooted.
      * rewrite IH by assumption. unfold resolved. cbn [rev normalize].
        now rewrite (Hr eq_refl).
      * rewrite IH; [apply resolved_cons_dotdot | | assumption].
        constructor; [|constructor]. split; [reflexivity | now right].
    + inversion Hk as [|? ? [Hsf Htop] Hrest]; subst.
      destruct rooted; cbn [negb andb].
      * destruct Htop as [Htop|[Htop _]]; [|discriminate Htop].
        rewrite IH by assumption. rewrite resolved_cons_name by assumption.
        cbn [normalize]. reflexivity.
      * destruct (top =? "..") eqn:T.
        -- rewrite IH; [apply resolved_cons_dotdot | | assumption].
           constructor; [|assumption]. split; [reflexivity | now right].
        -- destruct Htop as [Htop|[_ Htop]].
           ++ rewrite IH by assumption.
              rewrite resolved_cons_name by assumption.
              cbn [normalize]. reflexivity.
           ++ subst top. discriminate T.
  - assert (Hn : is_name c = true).
    { unfold is_name. apply orb_false_iff in E1. destruct E1 as [-> ->].
      now rewrite E2. }
    rewrite IH; [|constructor; [split; [assumption | now left] | assumption]
                 |assumption].
    now rewrite resolved_cons_name.
Qed.

Lemma prefix_slash_name (c rest : string) :
  slash_free c = true -> c <> "" -> prefix "/" (c ++ rest) = false.
Proof.
  destruct c as [|a c]; [now intros _ N|]. cbn [slash_free append prefix].
  intros H _. destruct (ascii_dec "/" a) as [<-|_]; [discriminate H|reflexivity].
Qed.

Lemma kept_nonempty (rooted : bool) (c : string) : kept rooted c -> c <> "".
Proof. intros [_ [H|[_ ->]]]; [now destruct c | discriminate]. Qed.

(** [path.Clean] keeps what a path names. *)
Lemma resolve_Clean (cwd : path) (s : string) :
  resolve cwd (Clean s) = resolve cwd s.
Proof.
  unfold Clean.
  pose proof (normalize_kept (prefix "/" s) [] (split s) (Forall_nil _)
                (split_parts_slash_free s)) as K.
  set (n := normalize (prefix "/" s) [] (split s)) in *.
  assert (Ksf : Forall (fun c => slash_free c = true) (rev n)).
  { apply Forall_rev. revert K. apply Forall_impl. now intros c [H _]. }
  unfold resolve at 2.
  destruct (prefix "/" s) eqn:R.
  - (* a rooted path *)
    unfold resolve. rewrite StrFacts.prefix_app. f_equal.
    change (split ("/" ++ String.concat "/" (rev n)))
      with ("" :: split (String.concat "/" (rev n))).
    change (normalize true [] ("" :: split (String.concat "/" (rev n))))
      with (normalize true [] (split (String.concat "/" (rev n)))).
    pose proof (resolved_normalize true [] [] (split s) (fun _ => eq_refl)
                  (Forall_nil _) (split_parts_slash_free s)) as Q.
    fold n in Q. unfold resolved in Q. cbn [rev normalize] in Q.
    destruct (rev n) as [|x l] eqn:L.
    + rewrite <- Q. reflexivity.
    + rewrite split_concat by (discriminate || assumption). exact Q.
  - (* a relative path *)
    pose proof (resolved_normalize false (rev cwd) [] (split s)
                  (fun H => ltac:(discriminate H))
                  (Forall_nil _) (split_parts_slash_free s)) as Q.
    fold n in Q. unfold resolved in Q. cbn [rev normalize] in Q.
    destruct (rev n) as [|x l] eqn:L.
    + unfold resolve. cbn [prefix split normalize]. cbn.
      rewrite <- Q. reflexivity.
    + assert (P : prefix "/" (String.concat "/" (x :: l)) = false).
      { assert (Kx : kept false x).
        { apply Forall_rev in K. rewrite L in K. now inversion K. }
        destruct l as [|y l]; cbn [String.concat].
        - rewrite <- (StrFacts.append_nil_r x).
          apply prefix_slash_name; [apply Kx | exact (kept_nonempty false x Kx)].
        - apply prefix_slash_name; [apply Kx | exact (kept_nonempty false x Kx)]. }
      unfold resolve. rewrite P. f_equal.
      rewrite split_concat by (discriminate || assumption). exact Q.
Qed.

(** Joining a directory with a name gives the entry of this name in the
    directory. *)
Lemma resolve_Join_name (cwd : path) (d k : string) :
  is_name k = true -> slash_free k = true ->
  resolve cwd (Join [d; k]) = (resolve cwd d ++ [k])%list.
Proof.
  intros Hn Hs.
  assert (Hk : k <> "") by (intros ->; discriminate Hn).
  assert (Pk : prefix "/" k = false).
  { rewrite <- (StrFacts.append_nil_r k). now apply prefix_slash_name. }
  cbn [Join]. destruct (d =? "") eqn:D.
  - apply String.eqb_eq in D. subst d.
    destruct (k =? "") eqn:K; [apply String.eqb_eq in K; now destruct Hk|].
    cbn [String.concat]. rewrite resolve_Clean. unfold resolve.
    rewrite Pk, (split_slash_free k Hs), normalize_name by assumption.
    cbn [prefix split normalize rev]. cbn. now rewrite rev_involutive.
  - cbn [String.concat]. rewrite resolve_Clean. unfold resolve.
    assert (P : prefix "/" (d ++ "/" ++ k) = prefix "/" d).
    { destruct d as [|a d]; [discriminate D|]. cbn [append prefix].
      destruct (ascii_dec "/" a); [now destruct d | reflexivity]. }
    rewrite P, split_app_slash, normalize_app, (split_slash_free k Hs).
    rewrite normalize_name by assumption. reflexivity.
Qed.

End PathFacts.

(** ** What the kernel finds, and what a path names by the letter *)

Module KernelFacts.
Import FS FSFacts PathFacts.

Lemma follow_app (t : node) (a b st : list string) :
  follow t st (a ++ b)
  = match follow t st a with
    | inr st1 => follow t st1 b
    | inl e => inl e
    end.
Proof.
  revert st. induction a as [|c a IH]; intros st; [reflexivity|].
  cbn [app follow].
  destruct (lookup (rev st) t) as [[data|es|]|]; try reflexivity.
  destruct ((c =? "") || (c =? ".")); [apply IH|].
  destruct (c =? ".."); [apply IH|].
  destruct (assoc c es); [apply IH | reflexivity].
Qed.

(** The kernel fails for want of an entry or of a directory. *)
Lemma follow_errno (t : node) (cs st : list string) (e : errno) :
  follow t st cs = inl e -> e = ENOENT \/ e = ENOTDIR.
Proof.
  revert st. induction cs as [|c cs IH]; intros st; [discriminate|].
  cbn [follow].
  destruct (lookup (rev st) t) as [[data|es|]|];
    try (intros H; injection H as <-; now (left + right)).
  destruct ((c =? "") || (c =? ".")); [apply IH|].
  destruct (c =? ".."); [apply IH|].
  destruct (assoc c es); [apply IH|].
  intros H; injection H as <-; now left.
Qed.

(** Where the kernel arrives is where the path leads by the letter. *)
Lemma follow_normalize (t : node) (cs st st' : list string) :
  follow t st cs = inr st' -> st' = normalize true st cs.
Proof.
  revert st. induction cs as [|c cs IH]; intros st.
  - intros H. now injection H.
  - cbn [follow normalize].
    destruct (lookup (rev st) t) as [[data|es|]|]; try discriminate.
    destruct ((c =? "") || (c =? ".")); [apply IH|].
    destruct (c =? "..").
    + destruct st as [|top rest]; apply IH.
    + destruct (assoc c es); [apply IH | discriminate].
Qed.

Lemma namei_resolve (cwd : path) (s : string) (t : node) (p : path) :
  namei cwd s t = inr p -> p = resolve cwd s.
Proof.
  unfold namei, resolve, start. destruct (s =? ""); [discriminate|].
  destruct (follow t _ (split s)) as [e|st] eqn:F; [discriminate|].
  intros H. injection H as <-. now rewrite (follow_normalize _ _ _ _ F).
Qed.

(** What lies in a directory lies below a directory. *)
Lemma lookup_parent (p : path) (c : string) (t n : node) :
  lookup (p ++ [c])%list t = Some n ->
  exists es, lookup p t = Some (Dir es) /\ assoc c es = Some n.
Proof.
  rewrite lookup_app. destruct (lookup p t) as [[data|es|]|]; try discriminate.
  cbn [lookup]. destruct (assoc c es) as [m|] eqn:A; [|discriminate].
  intros H. injection H as <-. now exists es.
Qed.

(** The entry of a directory, looked up from the root. *)
Lemma lookup_entry (d : path) (k : string) (t : node)
  (es : list (string * node)) :
  lookup d t = Some (Dir es) -> lookup (d ++ [k])%list t = assoc k es.
Proof.
  intros L. rewrite lookup_app, L. cbn [lookup]. now destruct (assoc k es).
Qed.

(** The kernel arrives at something. *)
Lemma follow_found (t : node) (cs st st' : list string) :
  follow t st cs = inr st' -> cs <> [] ->
  exists n, lookup (rev st') t = Some n.
Proof.
  revert st. induction cs as [|c cs IH]; intros st H N; [now destruct N|].
  cbn [follow] in H.
  destruct (lookup (rev st) t) as [[data|es|]|] eqn:L; try discriminate.
  assert (B : forall st1, (exists n, lookup (rev st1) t = Some n) ->
                          follow t st1 cs = inr st' ->
                          exists n, lookup (rev st') t = Some n).
  { intros st1 [n Ln] F. destruct cs as [|c' cs'].
    - injection F as <-. now exists n.
    - apply (IH st1 F). discriminate. }
  destruct ((c =? "") || (c =? ".")); [apply (B st); [now exists (Dir es) | exact H]|].
  destruct (c =? "..").
  - apply (B (tl st)); [|exact H]. destruct st as [|top rest].
    + now exists (Dir es).
    + cbn [rev] in L. destruct (lookup_parent _ _ _ _ L) as [es0 [L0 _]].
      now exists (Dir es0).
  - destruct (assoc c es) as [m|] eqn:A; [|discriminate].
    apply (B (c :: st)); [|exact H]. exists m. cbn [rev].
    rewrite lookup_app, L. cbn [lookup]. now rewrite A.
Qed.

Lemma namei_found (cwd : path) (s : string) (t : node) (p : path) :
  namei cwd s t = inr p -> exists n, lookup p t = Some n.
Proof.
  unfold namei. destruct (s =? ""); [discriminate|].
  destruct (follow t _ (split s)) as [e|st] eqn:F; [discriminate|].
  intros H. injection H as <-.
  exact (follow_found _ _ _ _ F (split_nonempty s)).
Qed.

Lemma stat_namei (cwd : path) (s : string) (t n : node) :
  stat cwd s t = inr n <->
  exists p, namei cwd s t = inr p /\ lookup p t = Some n.
Proof.
  unfold stat. split.
  - destruct (namei cwd s t) as [e|p]; [discriminate|].
    destruct (lookup p t) as [m|] eqn:L; [|discriminate].
    intros H. injection H as <-. now exists p.
  - intros [p [-> ->]]. reflexivity.
Qed.

(** What the kernel finds lies where the path leads by the letter. *)
Lemma stat_lookup (cwd : path) (s : string) (t n : node) :
  stat cwd s t = inr n -> lookup (resolve cwd s) t = Some n.
Proof.
  intros H. apply stat_namei in H. destruct H as [p [N L]].
  now rewrite <- (namei_resolve _ _ _ _ N).
Qed.

(** The walk starts in a directory. *)
Lemma follow_start (t : node) (cs st st' : list string) :
  follow t st cs = inr st' -> cs <> [] ->
  exists es, lookup (rev st) t = Some (Dir es).
Proof.
  destruct cs as [|c cs]; [now intros _ N|]. intros H _. cbn [follow] in H.
  destruct (lookup (rev st) t) as [[data|es|]|]; try discriminate.
  now exists es.
Qed.

(** *** A tree that grows *)

Lemma follow_grows (t t' : node) (cs st st' : list string) :
  grows t t' -> follow t st cs = inr st' -> follow t' st cs = inr st'.
Proof.
  intros G. revert st. induction cs as [|c cs IH]; intros st H; [exact H|].
  cbn [follow] in H |- *.
  destruct (lookup (rev st) t) as [[data|es|]|] eqn:L; try discriminate.
  destruct (G _ _ L) as [es' [-> A]].
  destruct ((c =? "") || (c =? ".")); [now apply IH|].
  destruct (c =? ".."); [now apply IH|].
  destruct (assoc c es) as [m|] eqn:Ac; [|discriminate].
  destruct (assoc c es') as [m'|] eqn:Ac'; [now apply IH|].
  exfalso. apply (A c); [now rewrite Ac | exact Ac'].
Qed.

Lemma assoc_set_entry_some (name c : string) (v : node)
  (es : list (string * node)) :
  assoc c es <> None -> assoc c (set_entry name v es) <> None.
Proof.
  intros H. destruct (String.eqb_spec c name) as [->|N].
  - now rewrite assoc_set_entry_same.
  - now rewrite assoc_set_entry_other.
Qed.

(** A regular file made or written leaves the directories there. *)
Lemma put_grows (m : path) (x : string) (t t' : node) :
  put m (File x) t = Some t' -> creatable (lookup m t) = true -> grows t t'.
Proof.
  revert t t'. induction m as [|c m IH]; intros t t' P C p es L.
  - cbn [lookup] in C. destruct t as [data|es0|]; try discriminate C.
    destruct p; discriminate L.
  - destruct t as [data|es0|]; try discriminate P. cbn [put] in P.
    destruct m as [|c' m].
    + injection P as <-. cbn [lookup] in C.
      destruct p as [|y p].
      * injection L as <-. exists (set_entry c (File x) es0).
        split; [reflexivity|]. intros c0. apply assoc_set_entry_some.
      * cbn [lookup] in L |- *.
        destruct (String.eqb_spec y c) as [->|N].
        -- exfalso. destruct (assoc c es0) as [[data|sub|]|];
             try discriminate C; try discriminate L.
           destruct p; discriminate L.
        -- rewrite assoc_set_entry_other by exact N. now exists es.
    + destruct (assoc c es0) as [sub|] eqn:A; [|discriminate P].
      destruct (put (c' :: m) (File x) sub) as [sub'|] eqn:Q; [|discriminate P].
      injection P as <-.
      assert (Cs : creatable (lookup (c' :: m) sub) = true).
      { revert C. cbn [lookup]. now rewrite A. }
      destruct p as [|y p].
      * injection L as <-. exists (set_entry c sub' es0).
        split; [reflexivity|]. intros c0. apply assoc_set_entry_some.
      * destruct (String.eqb_spec y c) as [->|N].
        -- revert L. cbn [lookup]. rewrite A, assoc_set_entry_same.
           apply (IH sub sub' Q Cs).
        -- revert L. cbn [lookup]. rewrite assoc_set_entry_other by exact N.
           intros L. now exists es.
Qed.

(** *** A tree of which a part goes *)

(** What is no directory and is found after a removal was there
    before. *)
Lemma remove_makes_nothing (p : path) (t : node) (q : path) (n : node) :
  lookup q (remove p t) = Some n ->
  (forall es, n <> Dir es) ->
  lookup q t = Some n.
Proof.
  revert t q. induction p as [|c p IH]; intros t q L N; [exact L|].
  destruct t as [data|es|]; [exact L| |exact L].
  cbn [remove] in L.
  destruct q as [|d q].
  - exfalso. destruct p as [|c' p].
    + injection L as <-. now apply (N (del_entry c es)).
    + destruct (assoc c es); injection L as <-; now eapply N.
  - cbn [lookup]. destruct (String.eqb_spec d c) as [->|Hdc].
    + destruct p as [|c' p].
      * cbn [lookup] in L. rewrite assoc_del_entry in L. discriminate L.
      * destruct (assoc c es) as [m|] eqn:A.
        -- cbn [lookup] in L. rewrite assoc_set_entry_same in L.
           now apply IH.
        -- cbn [lookup] in L. now rewrite A in L.
    + assert (O : assoc d (del_entry c es) = assoc d es).
      { unfold del_entry. clear L.
        induction es as [|[k x] es IHes]; cbn [filter assoc fst]; [reflexivity|].
        destruct (String.eqb_spec k c) as [->|K]; cbn [negb assoc].
        - destruct (String.eqb_spec c d) as [->|_];
            [now destruct Hdc | exact IHes].
        - now rewrite IHes. }
      destruct p as [|c' p].
      * cbn [lookup] in L. now rewrite O in L.
      * destruct (assoc c es) as [m|] eqn:A.
        -- cbn [lookup] in L. now rewrite assoc_set_entry_other in L.
        -- exact L.
Qed.



(** *** The name [path.Join] makes for an entry of a directory *)

(** The elements [path.Clean] leaves of a path. *)
Lemma cleaned_slash_free (rooted : bool) (cs : list string) :
  Forall (fun c => slash_free c = true) cs ->
  Forall (fun c => slash_free c = true) (rev (normalize rooted [] cs)).
Proof.
  intros H. apply Forall_rev.
  pose proof (normalize_kept rooted [] cs (Forall_nil _) H) as K.
  revert K. apply Forall_impl. now intros c [Hc _].
Qed.

Lemma prefix_slash_concat (rooted : bool) (cs : list string) :
  Forall (kept rooted) cs -> cs <> [] ->
  prefix "/" (String.concat "/" cs) = false.
Proof.
  intros K N. destruct cs as [|x l]; [now destruct N|].
  assert (Kx : kept rooted x) by now inversion K.
  destruct l as [|y l]; cbn [String.concat].
  - rewrite <- (StrFacts.append_nil_r x).
    apply prefix_slash_name; [apply Kx | exact (kept_nonempty rooted x Kx)].
  - apply prefix_slash_name; [apply Kx | exact (kept_nonempty rooted x Kx)].
Qed.

Lemma Clean_name (k : string) :
  is_name k = true -> slash_free k = true -> Clean k = k.
Proof.
  intros Hn Hs.
  assert (Hk : k <> "") by (intros ->; discriminate Hn).
  assert (Pk : prefix "/" k = false).
  { rewrite <- (StrFacts.append_nil_r k). now apply prefix_slash_name. }
  unfold Clean. rewrite Pk, (split_slash_free k Hs), normalize_name by assumption.
  cbn [normalize rev app String.concat]. reflexivity.
Qed.

(** The elements of the name [path.Join] makes of a directory and a
    name: those of the cleaned directory, and the name. *)
Lemma split_Join (d k : string) :
  is_name k = true -> slash_free k = true ->
  let rooted := prefix "/" d in
  let front :=
    ((if rooted then [""] else [])
     ++ rev (normalize rooted [] (split d)))%list in
  split (Join [d; k]) = (front ++ [k])%list
  /\ prefix "/" (Join [d; k]) = rooted
  /\ Join [d; k] <> "".
Proof.
  intros Hn Hs rooted front.
  assert (Hk : k <> "") by (intros ->; discriminate Hn).
  cbn [Join]. destruct (d =? "") eqn:D.
  - apply String.eqb_eq in D. subst d.
    destruct (k =? "") eqn:K; [apply String.eqb_eq in K; now destruct Hk|].
    cbn [String.concat]. rewrite (Clean_name k Hn Hs).
    rewrite (split_slash_free k Hs). split; [reflexivity|]. split; [|exact Hk].
    rewrite <- (StrFacts.append_nil_r k). now apply prefix_slash_name.
  - cbn [String.concat].
    assert (P : prefix "/" (d ++ "/" ++ k) = rooted).
    { unfold rooted. destruct d as [|a d]; [discriminate D|].
      cbn [append prefix].
      destruct (ascii_dec "/" a); [now destruct d | reflexivity]. }
    unfold Clean. rewrite P, split_app_slash, normalize_app,
      (split_slash_free k Hs), normalize_name by assumption.
    cbn [normalize rev].
    pose proof (normalize_kept rooted [] (split d) (Forall_nil _)
                  (split_parts_slash_free d)) as Kn.
    set (n := normalize rooted [] (split d)) in *.
    assert (Kc : Forall (kept rooted) (rev n ++ [k])).
    { apply Forall_app. split; [now apply Forall_rev|].
      constructor; [|constructor]. split; [exact Hs | now left]. }
    assert (Sc : Forall (fun c => slash_free c = true) (rev n ++ [k])).
    { revert Kc. apply Forall_impl. now intros c [Hc _]. }
    assert (Nc : (rev n ++ [k])%list <> []) by (now destruct (rev n)).
    unfold front. fold n. destruct rooted.
    + change (split ("/" ++ String.concat "/" (rev n ++ [k])))
        with ("" :: split (String.concat "/" (rev n ++ [k]))).
      rewrite (split_concat _ Nc Sc). split; [reflexivity|].
      split; [apply StrFacts.prefix_app | discriminate].
    + cbn [app].
      pose proof (split_concat _ Nc Sc) as S1.
      pose proof (prefix_slash_concat false _ Kc Nc) as P1.
      assert (Z1 : String.concat "/" (rev n ++ [k]) <> "").
      { intros Z. rewrite Z in S1. change (split "") with [""] in S1.
        destruct (rev n) as [|a [|b l]]; cbn [app] in S1;
          [|discriminate S1|discriminate S1].
        injection S1 as <-. now destruct Hk. }
      destruct (rev n ++ [k])%list as [|x l] eqn:X; [now destruct Nc|].
      now repeat split.
Qed.

Lemma strip_empty_last (l : list string) (c : string) :
  c <> "" -> strip_empty (l ++ [c]) = (l ++ [c])%list.
Proof.
  intros N. induction l as [|x l IH]; cbn [app strip_empty].
  - destruct (c =? "") eqn:C; [apply String.eqb_eq in C; now destruct N|].
    reflexivity.
  - rewrite IH. now destruct (l ++ [c])%list eqn:X; [destruct l|].
Qed.

(** The walk to the name [path.Join] makes: the walk to the cleaned
    directory, and in it the name. *)
Lemma parent_walk_Join (cwd : path) (d k : string) (t : node) :
  is_name k = true -> slash_free k = true ->
  parent_walk cwd (Join [d; k]) t
  = match follow t (start cwd d)
            ((if prefix "/" d then [""] else [])
             ++ rev (normalize (prefix "/" d) [] (split d))) with
    | inl e => inl e
    | inr stack =>
        match lookup (rev stack) t with
        | Some (Dir es) => inr (rev stack, es, LAST_NORM k, false)
        | Some _ => inl ENOTDIR
        | None => inl ENOENT
        end
    end.
Proof.
  intros Hn Hs. destruct (split_Join d k Hn Hs) as (S & P & N).
  assert (Hk : k <> "") by (intros ->; discriminate Hn).
  unfold parent_walk.
  destruct (Join [d; k] =? "") eqn:Z; [apply String.eqb_eq in Z; now destruct N|].
  rewrite S, (strip_empty_last _ k Hk), removelast_last, last_last.
  unfold start. rewrite P. rewrite Nat.eqb_refl. cbn [negb].
  assert (C : classify k = LAST_NORM k).
  { unfold classify. unfold is_name in Hn.
    destruct (k =? ""), (k =? "."), (k =? ".."); try discriminate Hn.
    reflexivity. }
  rewrite C.
  destruct (follow t _ _) as [e|stack]; [reflexivity|].
  destruct (lookup (rev stack) t) as [[data|es|]|]; try reflexivity.
  generalize ((if prefix "/" d then [""] else [])
              ++ rev (normalize (prefix "/" d) [] (split d)))%list.
  now intros [|x l].
Qed.

(** The cleaned directory leads, by the letter, where the directory
    leads. *)
Lemma normalize_cleaned (cwd : path) (d : string) :
  normalize true (start cwd d)
    ((if prefix "/" d then [""] else [])
     ++ rev (normalize (prefix "/" d) [] (split d)))
  = normalize true (start cwd d) (split d).
Proof.
  unfold start.
  pose proof (resolved_normalize (prefix "/" d)
                (if prefix "/" d then [] else rev cwd) [] (split d)) as Q.
  unfold resolved in Q. cbn [rev normalize] in Q.
  destruct (prefix "/" d).
  - cbn [app normalize]. change (("" =? "") || ("" =? ".")) with true. cbv iota.
    apply Q; [reflexivity | constructor | apply split_parts_slash_free].
  - cbn [app]. apply Q; [discriminate | constructor | apply split_parts_slash_free].
Qed.

(** Where the kernel arrives along the cleaned elements when it
    arrives along the elements as they are. *)
Lemma follow_cleaned (rooted : bool) (t : node) (st0 : list string) :
  (rooted = true -> st0 = []) ->
  forall (cs cl st st' : list string),
    Forall (fun c => slash_free c = true) cs ->
    Forall (kept rooted) cl ->
    follow t st0 (rev cl) = inr st ->
    follow t st cs = inr st' ->
    follow t st0 (rev (normalize rooted cl cs)) = inr st'.
Proof.
  intros Hr. induction cs as [|c cs IH]; intros cl st st' S K F H.
  - injection H as <-. exact F.
  - inversion S as [|? ? Sc Scs]; subst.
    cbn [follow] in H. cbn [normalize].
    destruct (lookup (rev st) t) as [[data|es|]|] eqn:L; try discriminate.
    destruct ((c =? "") || (c =? ".")) eqn:E1; [now apply (IH cl st st' Scs)|].
    destruct (c =? "..") eqn:E2.
    + apply String.eqb_eq in E2. subst c.
      destruct cl as [|top rest].
      * cbn [rev] in F. injection F as <-.
        destruct rooted.
        -- rewrite (Hr eq_refl) in *. now apply (IH [] [] st' Scs).
        -- apply (IH [".."] (tl st0) st' Scs); [| |exact H].
           ++ constructor; [|constructor]. split; [reflexivity | now right].
           ++ cbn [rev app follow]. rewrite L. reflexivity.
      * inversion K as [|? ? [Hsf Htop] Krest]; subst.
        cbn [rev] in F. pose proof F as F0. rewrite follow_app in F.
        destruct (follow t st0 (rev rest)) as [e|s1] eqn:F1; [discriminate F|].
        assert (Name : is_name top = true ->
                       follow t st0 (rev rest) = inr (tl st)).
        { intros Hn. destruct (is_name_cases top Hn) as [H1 H2].
          cbn [follow] in F.
          destruct (lookup (rev s1) t) as [[data1|es1|]|]; try discriminate F.
          rewrite H1, H2 in F.
          destruct (assoc top es1); [|discriminate F].
          injection F as <-. exact F1. }
        destruct rooted; cbn [negb andb].
        -- destruct Htop as [Htop|[Htop _]]; [|discriminate Htop].
           apply (IH rest (tl st) st' Scs); [exact Krest | | exact H].
           now apply Name.
        -- destruct (top =? "..") eqn:T.
           ++ apply (IH (".." :: top :: rest) (tl st) st' Scs); [| |exact H].
              ** constructor; [split; [reflexivity | now right]|exact K].
              ** cbn [rev]. rewrite follow_app, F0.
                 cbn [follow]. now rewrite L.
           ++ destruct Htop as [Htop|[_ Htop]];
                [|subst top; discriminate T].
              apply (IH rest (tl st) st' Scs); [exact Krest | | exact H].
              now apply Name.
    + assert (Hn : is_name c = true).
      { unfold is_name. apply orb_false_iff in E1. destruct E1 as [-> ->].
        now rewrite E2. }
      destruct (assoc c es) as [m|] eqn:A; [|discriminate].
      apply (IH (c :: cl) (c :: st) st' Scs); [| |exact H].
      * constructor; [|exact K]. split; [exact Sc | now left].
      * cbn [rev]. rewrite follow_app, F. cbn [follow]. rewrite L.
        destruct (is_name_cases c Hn) as [H1 H2]. now rewrite H1, H2, A.
Qed.

(** Along the cleaned elements the kernel arrives where the name
    leads. *)
Lemma follow_front (cwd : path) (directory : string) (t : node) (d : path) :
  namei cwd directory t = inr d ->
  follow t (start cwd directory)
    ((if prefix "/" directory then [""] else [])
     ++ rev (normalize (prefix "/" directory) [] (split directory)))
  = inr (rev d).
Proof.
  intros N. unfold namei in N. destruct (directory =? ""); [discriminate N|].
  destruct (follow t (start cwd directory) (split directory)) as [e|st] eqn:F;
    [discriminate N|].
  injection N as <-. rewrite rev_involutive.
  destruct (follow_start _ _ _ _ F (split_nonempty _)) as [es0 L0].
  unfold start in *. destruct (prefix "/" directory).
  - cbn [app follow]. rewrite L0.
    change (("" =? "") || ("" =? ".")) with true. cbv iota.
    apply (follow_cleaned true t [] (fun _ => eq_refl)
             (split directory) [] [] st);
      [apply split_parts_slash_free | constructor | reflexivity | exact F].
  - cbn [app].
    apply (follow_cleaned false t (rev cwd) ltac:(discriminate)
             (split directory) [] (rev cwd) st);
      [apply split_parts_slash_free | constructor | reflexivity | exact F].
Qed.

(** The walk to [k] in a directory the kernel finds. *)
Lemma parent_walk_Join_found (cwd : path) (directory k : string) (t : node)
  (d : path) (es : list (string * node)) :
  is_name k = true -> slash_free k = true ->
  namei cwd directory t = inr d ->
  lookup d t = Some (Dir es) ->
  parent_walk cwd (Join [directory; k]) t = inr (d, es, LAST_NORM k, false).
Proof.
  intros Hn Hs N L. rewrite parent_walk_Join by assumption.
  rewrite (follow_front _ _ _ _ N), rev_involutive. now rewrite L.
Qed.

(** The entry [k] of a directory the kernel finds is found under the
    name [path.Join] makes. *)
Lemma stat_Join_found (cwd : path) (directory k : string) (t : node)
  (d : path) (es : list (string * node)) (n : node) :
  is_name k = true -> slash_free k = true ->
  namei cwd directory t = inr d ->
  lookup d t = Some (Dir es) ->
  assoc k es = Some n ->
  namei cwd (Join [directory; k]) t = inr (d ++ [k])%list
  /\ stat cwd (Join [directory; k]) t = inr n.
Proof.
  intros Hn Hs N L A.
  destruct (split_Join directory k Hn Hs) as (S & P & Z).
  assert (Nk : namei cwd (Join [directory; k]) t = inr (d ++ [k])%list).
  { unfold namei.
    destruct (Join [directory; k] =? "") eqn:Zb;
      [apply String.eqb_eq in Zb; now destruct Z|].
    unfold start. rewrite S, P, follow_app.
    pose proof (follow_front _ _ _ _ N) as F. unfold start in F. rewrite F.
    cbn [follow]. rewrite rev_involutive, L.
    destruct (is_name_cases k Hn) as [H1 H2]. rewrite H1, H2, A.
    cbn [rev]. now rewrite rev_involutive. }
  split; [exact Nk|].
  unfold stat. rewrite Nk, (lookup_entry _ k _ _ L). now rewrite A.
Qed.

(** The walk to [k] in a directory arrives where the directory lies by
    the letter. *)
Lemma parent_walk_Join_lexical (cwd : path) (directory k : string) (t : node)
  (p : path) (es : list (string * node)) (l : last_elem) (sl : bool) :
  is_name k = true -> slash_free k = true ->
  parent_walk cwd (Join [directory; k]) t = inr (p, es, l, sl) ->
  p = resolve cwd directory
  /\ lookup p t = Some (Dir es)
  /\ l = LAST_NORM k /\ sl = false.
Proof.
  intros Hn Hs. rewrite parent_walk_Join by assumption.
  destruct (follow t _ _) as [e|st] eqn:F; [discriminate|].
  destruct (lookup (rev st) t) as [[data|es0|]|] eqn:L; try discriminate.
  intros H. injection H as <- <- <- <-.
  split; [|now repeat split].
  rewrite (follow_normalize _ _ _ _ F), normalize_cleaned.
  reflexivity.
Qed.

Lemma parent_walk_errno (cwd : path) (s : string) (t : node) (e : errno) :
  parent_walk cwd s t = inl e -> e = ENOENT \/ e = ENOTDIR.
Proof.
  unfold parent_walk. destruct (s =? "").
  - intros H. injection H as <-. now left.
  - destruct (follow t _ _) as [e'|st] eqn:F.
    + intros H. injection H as <-. exact (follow_errno _ _ _ _ F).
    + destruct (lookup (rev st) t) as [[data|es0|]|]; try discriminate;
        intros H; injection H as <-; now (left + right).
Qed.

(** *** The last element of a path *)








Lemma namei_grows (cwd : path) (s : string) (t t' : node) (p : path) :
  grows t t' -> namei cwd s t = inr p -> namei cwd s t' = inr p.
Proof.
  intros G. unfold namei. destruct (s =? ""); [discriminate|].
  destruct (follow t _ _) as [e|st] eqn:F; [discriminate|].
  now rewrite (follow_grows _ _ _ _ _ G F).
Qed.

Lemma parent_walk_grows (cwd : path) (s : string) (t t' : node) (d : path)
  (es : list (string * node)) (l : last_elem) (sl : bool) :
  grows t t' ->
  parent_walk cwd s t = inr (d, es, l, sl) ->
  exists es', parent_walk cwd s t' = inr (d, es', l, sl)
              /\ lookup d t' = Some (Dir es').
Proof.
  intros G. unfold parent_walk. destruct (s =? ""); [discriminate|].
  destruct (follow t _ _) as [e|st] eqn:F; [discriminate|].
  rewrite (follow_grows _ _ _ _ _ G F).
  destruct (lookup (rev st) t) as [[data|es0|]|] eqn:L; try discriminate.
  intros H. injection H as <- <- <- <-.
  destruct (G _ _ L) as [es' [L' _]]. rewrite L'. now exists es'.
Qed.

End KernelFacts.

(** ** C8: cleaning the previous output *)

Lemma validated_Chart (chart : HelmChart) :
  validate_Struct chart = None -> (Chart chart =? "") = false.
Proof.
  rewrite validate_Struct_spec. unfold lacks_required.
  destruct (Chart chart =? ""); [discriminate | reflexivity].
Qed.


Module RemoveFacts.
Import FS FSFacts KernelFacts.

(** What [os.RemoveAll] does where it removes without an error. *)
Lemma os_RemoveAll_removable (E : env) (s : string) (w : world) :
  (s =? "") = false ->
  endsWithDot s = false ->
  removable (cwd E) s (fs w) = true ->
  os_RemoveAll E s w
  = (Ok tt, {| fs := without (cwd E) s (fs w);
               trace := (trace w ++ [RemoveAll s])%list |}).
Proof.
  intros Hs Hd. unfold os_RemoveAll, removable, without, bind, emit, get_fs,
    set_fs, ret. cbn. rewrite Hs, Hd. cbn.
  destruct (parent_walk (cwd E) s (fs w)) as [[]|[[[d es] [c| | |]] sl]];
    try discriminate; intros _; [reflexivity|].
  destruct (assoc c es); reflexivity.
Qed.


Lemma removeOutputCommand_removable (E : env) (chart : HelmChart) (w : world) :
  (Chart chart =? "") = false ->
  endsWithDot (Chart chart) = false ->
  removable (cwd E) (Chart chart) (fs w) = true ->
  removeOutputCommand E chart w
  = (Ok tt,
     {| fs := without (cwd E) (Chart chart) (fs w);
        trace := (trace w ++ [Magenta ("removing folder " ++ Chart chart);
                              RemoveAll (Chart chart)])%list |}).
Proof.
  intros Hs Hd Hr. unfold removeOutputCommand, color_Magenta, bind, emit.
  rewrite os_RemoveAll_removable by (cbn [fs]; assumption).
  cbn [fs trace]. now rewrite <- app_assoc.
Qed.

End RemoveFacts.



(** ** Sorting directory entries by name *)

Module SortFacts.
Import FS.

Lemma leb_trans (s1 s2 s3 : string) :
  (s1 <=? s2) = true -> (s2 <=? s3) = true -> (s1 <=? s3) = true.
Proof.
  unfold String.leb. revert s2 s3.
  induction s1 as [|a s1 IH]; intros [|b s2] [|c s3]; cbn [String.compare];
    try reflexivity; try discriminate.
  unfold Ascii.compare.
  destruct (N.compare_spec (N_of_ascii a) (N_of_ascii b)) as [E1|L1|G1];
    destruct (N.compare_spec (N_of_ascii b) (N_of_ascii c)) as [E2|L2|G2];
    destruct (N.compare_spec (N_of_ascii a) (N_of_ascii c)) as [E3|L3|G3];
    try reflexivity; try discriminate; try lia.
  apply IH.
Qed.

Lemma leb_false_flip (s1 s2 : string) :
  (s1 <=? s2) = false -> (s2 <=? s1) = true.
Proof.
  intros H. destruct (String.leb_total s1 s2) as [T|T]; [|exact T].
  rewrite T in H. discriminate H.
Qed.

Section ByKey.
Context {A : Type} (key : A -> string).

Lemma insert_behind_split (x : A) (l : list A) :
  exists l1 l2, l = (l1 ++ l2)%list /\ insert_behind key x l = (l1 ++ x :: l2)%list.
Proof.
  induction l as [|y l IH]; cbn [insert_behind].
  - exists [], []. split; reflexivity.
  - destruct (key y <=? key x).
    + destruct IH as [l1 [l2 [-> ->]]]. exists (y :: l1), l2.
      split; reflexivity.
    + exists [], (y :: l). split; reflexivity.
Qed.

Lemma insert_sorted_split (x : A) (l : list A) :
  exists l1 l2, l = (l1 ++ l2)%list /\ insert_sorted key x l = (l1 ++ x :: l2)%list.
Proof.
  induction l as [|y l IH]; cbn [insert_sorted].
  - exists [], []. split; reflexivity.
  - destruct (key x <=? key y).
    + exists [], (y :: l). split; reflexivity.
    + destruct IH as [l1 [l2 [-> ->]]]. exists (y :: l1), l2.
      split; reflexivity.
Qed.

Lemma insert_sorted_In (a x : A) (l : list A) :
  In a (insert_sorted key x l) <-> a = x \/ In a l.
Proof.
  destruct (insert_sorted_split x l) as [l1 [l2 [-> ->]]].
  rewrite !in_app_iff. cbn [In]. intuition congruence.
Qed.

Lemma sort_by_In (a : A) (l : list A) : In a (sort_by key l) <-> In a l.
Proof.
  unfold sort_by. induction l as [|x l IH]; cbn [fold_right In]; [tauto|].
  rewrite insert_sorted_In, IH. intuition congruence.
Qed.

(** Inserting in front of the greater and behind the not greater can be
    done in either order. *)
Lemma insert_sorted_behind (x y : A) (l : list A) :
  insert_sorted key y (insert_behind key x l)
  = insert_behind key x (insert_sorted key y l).
Proof.
  induction l as [|b l IH]; cbn [insert_behind insert_sorted].
  - destruct (key y <=? key x); reflexivity.
  - destruct (key b <=? key x) eqn:BX; destruct (key y <=? key b) eqn:YB;
      cbn [insert_behind insert_sorted]; rewrite ?BX, ?YB.
    + (* y <= b <= x *)
      now rewrite (leb_trans _ _ _ YB BX).
    + now rewrite IH.
    + (* y <= b, x < b *)
      reflexivity.
    + (* b < y, x < b *)
      destruct (key y <=? key x) eqn:YX; [|reflexivity].
      apply leb_false_flip in YB.
      rewrite (leb_trans _ _ _ YB YX) in BX. discriminate BX.
Qed.

(** Sorting a list with one more element at its end. *)
Lemma sort_by_snoc (x : A) (l : list A) :
  sort_by key (l ++ [x]) = insert_behind key x (sort_by key l).
Proof.
  unfold sort_by. induction l as [|y l IH]; cbn [app fold_right];
    [reflexivity|].
  now rewrite IH, insert_sorted_behind.
Qed.

(** The entries come out by ascending key. *)
Lemma insert_sorted_sorted (x : A) (l : list A) :
  LocallySorted (fun a b => (key a <=? key b) = true) l ->
  LocallySorted (fun a b => (key a <=? key b) = true) (insert_sorted key x l).
Proof.
  induction 1 as [|a|a b l S IH H]; cbn [insert_sorted].
  - constructor.
  - destruct (key x <=? key a) eqn:XA.
    + constructor; [constructor | exact XA].
    + constructor; [constructor | now apply leb_false_flip].
  - destruct (key x <=? key a) eqn:XA.
    + constructor; [constructor; assumption | exact XA].
    + cbn [insert_sorted] in IH. destruct (key x <=? key b) eqn:XB.
      * constructor; [exact IH | now apply leb_false_flip].
      * constructor; [exact IH | exact H].
Qed.

Lemma sort_by_sorted (l : list A) :
  LocallySorted (fun a b => (key a <=? key b) = true) (sort_by key l).
Proof.
  unfold sort_by. induction l as [|x l IH]; cbn [fold_right]; [constructor|].
  now apply insert_sorted_sorted.
Qed.

End ByKey.

(** Sorting commutes with a map that keeps the keys. *)
Lemma sort_by_map {A B : Type} (keyA : A -> string) (keyB : B -> string)
  (g : A -> B) (l : list A) :
  (forall a, keyB (g a) = keyA a) ->
  sort_by keyB (map g l) = map g (sort_by keyA l).
Proof.
  intros K. unfold sort_by.
  induction l as [|x l IH]; cbn [map fold_right]; [reflexivity|].
  rewrite IH. generalize (fold_right (insert_sorted keyA) [] l). intros s.
  induction s as [|y s IHs]; cbn [insert_sorted map]; [reflexivity|].
  rewrite !K. destruct (keyA x <=? keyA y); cbn [map]; [reflexivity|].
  now rewrite IHs.
Qed.

End SortFacts.

(** ** The walk and the listing of what is no directory *)

Module WalkFacts.
Import FS SortFacts.

Lemma node_induction (P : node -> Prop) :
  (forall data, P (File data)) ->
  (forall es, Forall (fun e => P (snd e)) es -> P (Dir es)) ->
  P Socket ->
  forall n, P n.
Proof.
  intros P_File P_Dir P_Socket. fix IH 1. intros [data|es|].
  - apply P_File.
  - apply P_Dir. induction es as [|e es IHes]; constructor.
    + apply IH.
    + exact IHes.
  - apply P_Socket.
Qed.

Lemma filter_flat_map {A B : Type} (keep : B -> bool) (below : A -> list B)
  (entries : list A) :
  filter keep (flat_map below entries)
  = flat_map (fun e => filter keep (below e)) entries.
Proof.
  induction entries as [|e entries IH]; cbn [flat_map]; [reflexivity|].
  now rewrite filter_app, IH.
Qed.

Lemma map_flat_map {A B C : Type} (g : B -> C) (f : A -> list B) (l : list A) :
  map g (flat_map f l) = flat_map (fun x => map g (f x)) l.
Proof.
  induction l as [|x l IH]; cbn [flat_map]; [reflexivity|].
  now rewrite map_app, IH.
Qed.

Lemma flat_map_map {A B C : Type} (f : B -> list C) (g : A -> B) (l : list A) :
  flat_map f (map g l) = flat_map (fun x => f (g x)) l.
Proof.
  induction l as [|x l IH]; cbn [flat_map map]; [reflexivity|].
  now rewrite IH.
Qed.

Lemma flat_map_ext_In {A B : Type} (f g : A -> list B) (l : list A) :
  (forall x, In x l -> f x = g x) -> flat_map f l = flat_map g l.
Proof.
  induction l as [|x l IH]; intros H; cbn [flat_map]; [reflexivity|].
  rewrite (H x (or_introl eq_refl)), IH; [reflexivity|].
  intros y Hy. apply H. now right.
Qed.

(** The listing below a directory, before and after the sorting is
    moved to the entries themselves. *)
Lemma leaves_Dir_below (es : list (string * node)) :
  leaves (Dir es)
  = flat_map (fun sub => map (cons (fst sub)) (snd sub))
      (sort_by fst (map (fun e => (fst e, leaves (snd e))) es)).
Proof.
  reflexivity.
Qed.

Lemma leaves_Dir (es : list (string * node)) :
  leaves (Dir es)
  = flat_map (fun e => map (cons (fst e)) (leaves (snd e))) (sort_by fst es).
Proof.
  rewrite leaves_Dir_below.
  rewrite (sort_by_map fst fst (fun e => (fst e, leaves (snd e))))
    by reflexivity.
  now rewrite flat_map_map.
Qed.

Lemma visits_Dir (es : list (string * node)) :
  visits (Dir es)
  = ([], true)
    :: flat_map (fun e => map (fun v => (fst e :: fst v, snd v)) (visits (snd e)))
         (sort_by fst es).
Proof.
  change (visits (Dir es))
    with (([], true)
          :: flat_map (fun sub => map (fun v => (fst sub :: fst v, snd v)) (snd sub))
               (sort_by fst (map (fun e => (fst e, visits (snd e))) es))).
  f_equal.
  rewrite (sort_by_map fst fst (fun e => (fst e, visits (snd e))))
    by reflexivity.
  now rewrite flat_map_map.
Qed.

Lemma visits_below_files (name : string) (vs : list (path * bool)) :
  map fst (filter (fun v => negb (snd v))
             (map (fun v => (name :: fst v, snd v)) vs))
  = map (cons name) (map fst (filter (fun v => negb (snd v)) vs)).
Proof.
  induction vs as [|[q [|]] vs IH]; [reflexivity| |];
    cbn [map filter fst snd negb]; [|f_equal]; exact IH.
Qed.

(** What the walk comes by and is no directory is what the listing
    holds, in the same order. *)
Lemma visits_leaves (n : node) :
  map fst (filter (fun v => negb (snd v)) (visits n)) = leaves n.
Proof.
  induction n as [data|es IH|] using node_induction;
    [reflexivity| |reflexivity].
  rewrite visits_Dir, leaves_Dir. cbn [filter snd negb].
  rewrite filter_flat_map, map_flat_map.
  apply flat_map_ext_In. intros e He.
  apply sort_by_In in He. rewrite Forall_forall in IH.
  rewrite visits_below_files. now rewrite (IH e He).
Qed.

(** The listing holds what is no directory in the tree and nothing
    else. *)
Lemma leaves_is_leaf (n : node) (p : path) : In p (leaves n) <-> is_leaf n p.
Proof.
  revert p. induction n as [data|es IH|] using node_induction; intros p.
  - cbn [leaves In]. split.
    + intros [<-|[]]. constructor.
    + intros H. inversion H. now left.
  - rewrite leaves_Dir, in_flat_map. rewrite Forall_forall in IH. split.
    + intros [e [He Hp]]. apply sort_by_In in He.
      apply in_map_iff in Hp. destruct Hp as [q [<- Hq]].
      apply (@is_leaf_below es (fst e) (snd e) q).
      * now destruct e.
      * now apply (IH e He).
    + intros H. inversion H as [| |es' name sub q Hin Hq]; subst.
      exists (name, sub). split; [now apply sort_by_In|].
      apply in_map_iff. exists q. split; [reflexivity|].
      now apply (IH (name, sub) Hin).
  - cbn [leaves In]. split.
    + intros [<-|[]]. constructor.
    + intros H. inversion H. now left.
Qed.

(** A regular file [kustomization.yaml] in the directory, whatever it
    holds, does not show among the resources. *)
Lemma resources_set_entry (x : string) (es : list (string * node)) :
  creatable (assoc "kustomization.yaml" es) = true ->
  resources (Dir (set_entry "kustomization.yaml" (File x) es))
  = resources (Dir es).
Proof.
  intros Hd. unfold resources. rewrite !leaves_Dir_below.
  destruct (assoc "kustomization.yaml" es) as [[y|sub|]|] eqn:A.
  - (* the file is there already *)
    do 4 f_equal. clear Hd.
    induction es as [|[k v] es IH]; [discriminate A|].
    cbn [assoc] in A. cbn [set_entry].
    destruct (k =? "kustomization.yaml"); cbn [map fst snd].
    + injection A as ->. reflexivity.
    + now rewrite IH.
  - discriminate Hd.
  - discriminate Hd.
  - (* the file is new *)
    rewrite (FSFacts.set_entry_absent _ _ _ A), map_app. cbn [map fst snd leaves].
    rewrite sort_by_snoc.
    match goal with
    | |- context [insert_behind ?key ?e ?l] =>
        destruct (insert_behind_split key e l) as [l1 [l2 [E1 E2]]];
        rewrite E2, E1
    end.
    rewrite !flat_map_app. cbn [flat_map map fst snd].
    rewrite !map_app, !filter_app. cbn [map app filter rel_string String.concat].
    rewrite String.eqb_refl. reflexivity.
Qed.

End WalkFacts.

(** ** Writing a file *)

Module WriteFacts.
Import FS FSFacts.

Lemma put_parent (d : path) (k : string) (v t : node) (es : list (string * node)) :
  lookup d t = Some (Dir es) ->
  exists t', put (d ++ [k])%list v t = Some t'
             /\ lookup d t' = Some (Dir (set_entry k v es)).
Proof.
  revert t. induction d as [|c d IH]; intros t H.
  - cbn [lookup] in H. injection H as ->. cbn [app put].
    eexists. split; reflexivity.
  - destruct t as [data|es0|]; [discriminate H| |discriminate H]. cbn [lookup] in H.
    destruct (assoc c es0) as [m|] eqn:A; [|discriminate H].
    destruct (IH m H) as [m' [P L]].
    cbn [app put]. rewrite A, P.
    destruct (d ++ [k])%list eqn:N; [now destruct d|].
    eexists. split; [reflexivity|].
    cbn [lookup]. now rewrite assoc_set_entry_same.
Qed.

Lemma lookup_put_same (p : path) (v t t' : node) :
  put p v t = Some t' -> lookup p t' = Some v.
Proof.
  revert t t'. induction p as [|c p IH]; intros t t' H.
  - cbn [put] in H. injection H as <-. reflexivity.
  - destruct t as [data|es|]; [discriminate H| |discriminate H]. cbn [put] in H.
    destruct p as [|c' p].
    + injection H as <-. cbn [lookup]. now rewrite assoc_set_entry_same.
    + destruct (assoc c es) as [m|]; [|discriminate H].
      destruct (put (c' :: p) v m) as [m'|] eqn:P; [|discriminate H].
      injection H as <-.
      change (lookup (c :: c' :: p) (Dir (set_entry c m' es)))
        with (match assoc c (set_entry c m' es) with
              | Some x => lookup (c' :: p) x
              | None => None
              end).
      rewrite assoc_set_entry_same. exact (IH m m' P).
Qed.

Lemma put_step (c c' : string) (p : path) (v : node) (es : list (string * node)) :
  put (c :: c' :: p) v (Dir es)
  = match assoc c es with
    | Some m =>
        match put (c' :: p) v m with
        | Some m' => Some (Dir (set_entry c m' es))
        | None => None
        end
    | None => None
    end.
Proof. reflexivity. Qed.

(** A second write to the same place makes the first one forgotten. *)
Lemma put_twice (p : path) (v v' t t' : node) :
  put p v t = Some t' -> put p v' t' = put p v' t.
Proof.
  revert t t'. induction p as [|c p IH]; intros t t' H; [reflexivity|].
  destruct t as [data|es|]; [discriminate H| |discriminate H].
  destruct p as [|c' p].
  - cbn [put] in H. injection H as <-. cbn [put]. now rewrite set_entry_twice.
  - rewrite put_step in H.
    destruct (assoc c es) as [m|] eqn:A; [|discriminate H].
    destruct (put (c' :: p) v m) as [m'|] eqn:P; [|discriminate H].
    injection H as <-.
    rewrite !put_step, assoc_set_entry_same, (IH m m' P), A.
    destruct (put (c' :: p) v' m); [|reflexivity].
    now rewrite set_entry_twice.
Qed.

Lemma put_again (p : path) (v v' t t' : node) :
  put p v t = Some t' -> exists t'', put p v' t = Some t''.
Proof.
  revert t t'. induction p as [|c p IH]; intros t t' H.
  - eexists. reflexivity.
  - destruct t as [data|es|]; [discriminate H| |discriminate H]. cbn [put] in H |- *.
    destruct p as [|c' p]; [eexists; reflexivity|].
    destruct (assoc c es) as [m|]; [|discriminate H].
    destruct (put (c' :: p) v m) as [m'|] eqn:P; [|discriminate H].
    destruct (IH m m' P) as [m'' ->]. eexists. reflexivity.
Qed.

(** Writing a regular file leaves the other regular files alone: one
    found elsewhere afterwards was there before, with the same content. *)
Lemma put_frame (p : path) (x : string) (t t' : node) (q : path) (y : string) :
  put p (File x) t = Some t' -> q <> p ->
  lookup q t' = Some (File y) -> lookup q t = Some (File y).
Proof.
  revert t t' q. induction p as [|c p IH]; intros t t' q H N L.
  - cbn [put] in H. injection H as <-.
    destruct q as [|d q]; [now destruct N | discriminate L].
  - destruct t as [data|es|]; [discriminate H| |discriminate H]. cbn [put] in H.
    destruct q as [|d q].
    + destruct p as [|c' p].
      * injection H as <-. discriminate L.
      * destruct (assoc c es) as [m|]; [|discriminate H].
        destruct (put (c' :: p) (File x) m); [|discriminate H].
        injection H as <-. discriminate L.
    + destruct (String.eqb_spec d c) as [->|Hdc].
      * destruct p as [|c' p].
        -- injection H as <-. cbn [lookup] in L.
           rewrite assoc_set_entry_same in L.
           destruct q as [|d' q]; [now destruct N | discriminate L].
        -- destruct (assoc c es) as [m|] eqn:A; [|discriminate H].
           destruct (put (c' :: p) (File x) m) as [m'|] eqn:P; [|discriminate H].
           injection H as <-. cbn [lookup] in L |- *.
           rewrite assoc_set_entry_same in L. rewrite A.
           apply (IH m m' q P); [|exact L].
           intros ->. now destruct N.
      * assert (E : assoc d (match t' with Dir es' => es' | _ => [] end)
                    = assoc d es).
        { destruct p as [|c' p].
          - injection H as <-. now apply assoc_set_entry_other.
          - destruct (assoc c es) as [m|]; [|discriminate H].
            destruct (put (c' :: p) (File x) m); [|discriminate H].
            injection H as <-. now apply assoc_set_entry_other. }
        destruct t' as [data'|es'|]; [discriminate L| |discriminate L].
        cbn [lookup] in L |- *. now rewrite <- E.
Qed.

End WriteFacts.

(** ** C5: the kustomization manifest *)

Lemma entry_lines_visits (n : FS.node) :
  entry_lines (FS.visits n) = resource_lines (resources n).
Proof. unfold entry_lines, resources. now rewrite WalkFacts.visits_leaves. Qed.

(** A write to the file, told from the file system [t0] the file was
    made in. *)
Lemma File_WriteString_put (f : File) (s data : string) (t0 t' : FS.node)
  (w : world) :
  FS.put (file_path f) (FS.File data) t0 = Some (fs w) ->
  FS.put (file_path f) (FS.File (data ++ s)) t0 = Some t' ->
  File_WriteString f s w
  = (Ok (String.length s), {| fs := t'; trace := trace w |}).
Proof.
  intros H P.
  unfold File_WriteString, bind, get_fs, set_fs, ret. cbn.
  rewrite (WriteFacts.lookup_put_same _ _ _ _ H).
  rewrite (WriteFacts.put_twice _ _ (FS.File (data ++ s)) _ _ H), P.
  reflexivity.
Qed.

(** The walk adds a line for each file it comes by that is no
    directory, except for [kustomization.yaml], and changes nothing
    else. *)
Lemma walk_writes (directory : string) (f : File) (t0 : FS.node)
  (vs : list (FS.path * bool)) (w : world) (data : string) (t' : FS.node) :
  FS.put (file_path f) (FS.File data) t0 = Some (fs w) ->
  FS.put (file_path f) (FS.File (data ++ entry_lines vs)) t0 = Some t' ->
  for_each vs (fun v =>
    kustomization_entry directory f
      {| walk_root := directory; walk_names := fst v |}
      (Some {| IsDir := snd v |}) None) w
  = (Ok tt, {| fs := t'; trace := trace w |}).
Proof.
  revert w data. induction vs as [|[q isdir] vs IH]; intros w data H P.
  - cbn [for_each]. unfold entry_lines in P. cbn in P.
    rewrite StrFacts.append_nil_r, H in P. injection P as <-.
    now destruct w.
  - cbn [for_each]. unfold bind.
    unfold kustomization_entry at 1. cbn [IsDir fst snd].
    destruct isdir.
    + (* a directory *)
      unfold ret at 1. apply (IH w data H P).
    + unfold filepath_Rel. cbn [walk_names].
      destruct (FS.rel_string q =? "kustomization.yaml") eqn:K.
      * (* the manifest itself *)
        unfold ret at 1.
        assert (L : entry_lines ((q, false) :: vs) = entry_lines vs).
        { unfold entry_lines. cbn [filter snd negb map fst]. now rewrite K. }
        rewrite L in P. apply (IH w data H P).
      * destruct (WriteFacts.put_again (file_path f) (FS.File data)
                    (FS.File (data ++ "  - " ++ FS.rel_string q ++ nl))
                    t0 (fs w) H) as [t1 P1].
        unfold bind.
        rewrite (File_WriteString_put f ("  - " ++ FS.rel_string q ++ nl)
                   data t0 t1 w H P1).
        unfold ret at 1.
        apply (IH {| fs := t1; trace := trace w |}
                 (data ++ "  - " ++ FS.rel_string q ++ nl) P1).
        assert (L : entry_lines ((q, false) :: vs)
                    = ("  - " ++ FS.rel_string q ++ nl) ++ entry_lines vs).
        { unfold entry_lines. cbn [filter snd negb map fst]. rewrite K.
          reflexivity. }
        rewrite L, <- StrFacts.append_assoc in P. exact P.
Qed.

Lemma resources_spec (n : FS.node) (rel : string) :
  In rel (resources n)
  <-> exists q, FS.is_leaf n q /\ rel = FS.rel_string q
                /\ rel <> "kustomization.yaml".
Proof.
  unfold resources. rewrite filter_In, in_map_iff. split.
  - intros [[q [<- Hq]] Hk]. exists q.
    apply WalkFacts.leaves_is_leaf in Hq. repeat split; [assumption|].
    intros E. rewrite E in Hk. discriminate Hk.
  - intros [q [Hq [-> Hk]]]. split.
    + exists q. split; [reflexivity | now apply WalkFacts.leaves_is_leaf].
    + apply negb_true_iff. now apply String.eqb_neq.
Qed.

Lemma is_file_is_leaf (n : FS.node) (q : FS.path) :
  FS.is_file n q -> FS.is_leaf n q.
Proof.
  intros H. induction H as [data|es name sub p Hin _ IH].
  - constructor.
  - now apply (@FS.is_leaf_below es name sub p).
Qed.

Module Synthesis.
Import FSFacts KernelFacts WriteFacts.

Lemma creatable_lookup (d : FS.path) (k : string) (t : FS.node)
  (es : list (string * FS.node)) :
  FS.lookup d t = Some (FS.Dir es) ->
  creatable (FS.lookup (d ++ [k])%list t) = creatable (FS.assoc k es).
Proof. intros L. now rewrite (lookup_entry _ k _ _ L). Qed.

(** What [os.Create] does with the name of the manifest: the walk to
    the directory fails, or what stands there under the name cannot be
    opened for writing, or the file is made, empty. *)
Lemma os_Create_cases (E : env) (directory : string) (t : FS.node) :
  let name := FS.Join [directory; "kustomization.yaml"] in
  (exists e,
     FS.parent_walk (cwd E) name t = inl e
     /\ forall w, fs w = t ->
        os_Create E name w
        = (Err (PathError "open" name (FS.errno_text e)),
           {| fs := t; trace := (trace w ++ [Create name])%list |}))
  \/ (exists d es e,
        FS.parent_walk (cwd E) name t
        = inr (d, es, FS.LAST_NORM "kustomization.yaml", false)
        /\ creatable (FS.assoc "kustomization.yaml" es) = false
        /\ (e = FS.EISDIR \/ e = FS.ENXIO)
        /\ forall w, fs w = t ->
           os_Create E name w
           = (Err (PathError "open" name (FS.errno_text e)),
              {| fs := t; trace := (trace w ++ [Create name])%list |}))
  \/ (exists d es t1,
        FS.parent_walk (cwd E) name t
        = inr (d, es, FS.LAST_NORM "kustomization.yaml", false)
        /\ FS.lookup d t = Some (FS.Dir es)
        /\ creatable (FS.assoc "kustomization.yaml" es) = true
        /\ FS.put (d ++ ["kustomization.yaml"])%list (FS.File "") t = Some t1
        /\ forall w, fs w = t ->
           os_Create E name w
           = (Ok {| file_name := name;
                    file_path := (d ++ ["kustomization.yaml"])%list |},
              {| fs := t1; trace := (trace w ++ [Create name])%list |})).
Proof.
  intros name.
  destruct (FS.parent_walk (cwd E) name t) as [e|[[[d es] l] sl]] eqn:PW.
  - left. exists e. split; [reflexivity|]. intros w <-.
    unfold os_Create, bind, emit, get_fs. cbn [fs trace]. now rewrite PW.
  - right.
    destruct (parent_walk_Join_lexical (cwd E) directory "kustomization.yaml"
                t d es l sl eq_refl eq_refl PW)
      as (_ & L & -> & ->).
    destruct (put_parent d "kustomization.yaml" (FS.File "") t es L)
      as [t1 [P1 _]].
    destruct (FS.assoc "kustomization.yaml" es) as [[data|sub|]|] eqn:A.
    + right. exists d, es, t1. repeat split; try assumption.
      * now rewrite A.
      * intros w <-. unfold os_Create, bind, emit, get_fs. cbn [fs trace].
        rewrite PW, A, P1. reflexivity.
    + left. exists d, es, FS.EISDIR. repeat split; [now rewrite A | now left|].
      intros w <-. unfold os_Create, bind, emit, get_fs. cbn [fs trace].
      now rewrite PW, A.
    + left. exists d, es, FS.ENXIO. repeat split; [now rewrite A | now right|].
      intros w <-. unfold os_Create, bind, emit, get_fs. cbn [fs trace].
      now rewrite PW, A.
    + right. exists d, es, t1. repeat split; try assumption.
      * now rewrite A.
      * intros w <-. unfold os_Create, bind, emit, get_fs. cbn [fs trace].
        rewrite PW, A, P1. reflexivity.
Qed.

(** What follows the creation of the manifest, told from the file
    system [t0] it was made in: the header is written and the walk
    adds its lines. *)
Lemma synthesis_tail (E : env) (directory : string) (f : File)
  (t0 t1 : FS.node) :
  FS.put (file_path f) (FS.File "") t0 = Some t1 ->
  exists r content t',
    FS.put (file_path f) (FS.File content) t0 = Some t'
    /\ forall w1, fs w1 = t1 ->
       (File_WriteString f kustomization_header ;;;
        filepath_Walk E directory (kustomization_entry directory f)) w1
       = (r, {| fs := t'; trace := (trace w1 ++ [Walk directory])%list |}).
Proof.
  intros P1.
  destruct (put_again (file_path f) (FS.File "") (FS.File kustomization_header)
              t0 t1 P1) as [t2 P2].
  assert (W : forall w1, fs w1 = t1 ->
                File_WriteString f kustomization_header w1
                = (Ok (String.length kustomization_header),
                   {| fs := t2; trace := trace w1 |})).
  { intros w1 F1. apply (File_WriteString_put f kustomization_header "" t0);
      [now rewrite F1 | exact P2]. }
  destruct (FS.stat (cwd E) directory t2) as [e|n] eqn:S.
  - exists (Err (PathError "lstat" directory (FS.errno_text e))),
      kustomization_header, t2.
    split; [exact P2|]. intros w1 F1. unfold bind at 1. rewrite (W w1 F1).
    unfold filepath_Walk, bind, emit, get_fs. cbn [fs trace]. rewrite S.
    reflexivity.
  - destruct (put_again (file_path f) (FS.File kustomization_header)
                (FS.File (kustomization_header ++ entry_lines (FS.visits n)))
                t0 t2 P2) as [t3 P3].
    exists (Ok tt), (kustomization_header ++ entry_lines (FS.visits n)), t3.
    split; [exact P3|]. intros w1 F1. unfold bind at 1. rewrite (W w1 F1).
    unfold filepath_Walk, bind at 1, emit. cbn [fs trace].
    unfold bind at 1, get_fs. cbn [fs]. rewrite S.
    apply (walk_writes directory f t0 (FS.visits n)
             {| fs := t2; trace := (trace w1 ++ [Walk directory])%list |}
             kustomization_header t3); [exact P2 | exact P3].
Qed.

(** What a run of the synthesizer does, by the file system it starts
    in: the manifest cannot be created, and nothing changes; or the
    manifest is written, and a run right after does the same. *)
Lemma generateKustomizationCommand_cases (E : env) (directory : string)
  (t : FS.node) :
  let name := FS.Join [directory; "kustomization.yaml"] in
  (exists e,
     (FS.parent_walk (cwd E) name t = inl e
      \/ exists d es,
           FS.parent_walk (cwd E) name t
           = inr (d, es, FS.LAST_NORM "kustomization.yaml", false)
           /\ creatable (FS.assoc "kustomization.yaml" es) = false
           /\ (e = FS.EISDIR \/ e = FS.ENXIO))
     /\ forall w, fs w = t ->
        generateKustomizationCommand E directory w
        = (Err (PathError "open" name (FS.errno_text e)),
           {| fs := t; trace := (trace w ++ [Create name])%list |}))
  \/ (exists d es r content t',
        FS.parent_walk (cwd E) name t
        = inr (d, es, FS.LAST_NORM "kustomization.yaml", false)
        /\ FS.lookup d t = Some (FS.Dir es)
        /\ creatable (FS.assoc "kustomization.yaml" es) = true
        /\ FS.put (d ++ ["kustomization.yaml"])%list (FS.File content) t = Some t'
        /\ (forall w, fs w = t ->
            generateKustomizationCommand E directory w
            = (r, after_kustomization directory t' w))
        /\ (forall w, fs w = t' ->
            generateKustomizationCommand E directory w
            = (r, after_kustomization directory t' w))).
Proof.
  intros name.
  destruct (os_Create_cases E directory t)
    as [[e [PW C]] | [[d [es [e [PW [K [He C]]]]]] | [d [es [t1 [PW [L [K [P1 C]]]]]]]]].
  - left. exists e. split; [now left|]. intros w F.
    unfold generateKustomizationCommand, bind at 1. now rewrite (C w F).
  - left. exists e. split; [right; now exists d, es|]. intros w F.
    unfold generateKustomizationCommand, bind at 1. now rewrite (C w F).
  - right.
    set (m := (d ++ ["kustomization.yaml"])%list) in *.
    set (f := {| file_name := name; file_path := m |}) in *.
    destruct (synthesis_tail E directory f t t1 P1)
      as [r [content [t' [P' T]]]].
    change (file_path f) with m in P'.
    exists d, es, r, content, t'. repeat split; try assumption.
    + intros w F. unfold generateKustomizationCommand.
      rewrite (bind_Ok _ _ _ _ _ (C w F)).
      refine (eq_trans (T _ _) _); [reflexivity|].
      unfold after_kustomization. cbn [trace]. now rewrite <- app_assoc.
    + (* a run right after *)
      assert (Cm : creatable (FS.lookup m t) = true).
      { unfold m. now rewrite (creatable_lookup _ _ _ _ L). }
      pose proof (put_grows _ _ _ _ P' Cm) as G.
      destruct (parent_walk_grows _ _ _ _ _ _ _ _ G PW) as [es' [PW' L']].
      destruct (put_parent d "kustomization.yaml" (FS.File content) t es L)
        as [t'' [P'' L'']].
      fold m in P''. rewrite P' in P''. injection P'' as <-.
      rewrite L' in L''. injection L'' as ->.
      assert (P1' : FS.put m (FS.File "") t' = Some t1).
      { now rewrite (put_twice _ _ (FS.File "") _ _ P'). }
      intros w F. unfold generateKustomizationCommand.
      assert (C' : os_Create E name w
                   = (Ok f, {| fs := t1;
                               trace := (trace w ++ [Create name])%list |})).
      { unfold name, os_Create, bind, emit, get_fs. cbn [fs trace].
        rewrite F, PW', assoc_set_entry_same. fold m. rewrite P1'.
        reflexivity. }
      rewrite (bind_Ok _ _ _ _ _ C').
      refine (eq_trans (T _ _) _); [reflexivity|].
      unfold after_kustomization. cbn [trace]. now rewrite <- app_assoc.
Qed.

(** What a run does in a directory the kernel finds and in which the
    manifest can be made. *)
Lemma generateKustomizationCommand_writes (E : env) (directory : string)
  (w : world) (d : FS.path) (es : list (string * FS.node)) :
  kustomizable E directory w d es ->
  let manifest := (d ++ ["kustomization.yaml"])%list in
  exists t',
    FS.put manifest (FS.File (kustomization_text (FS.Dir es))) (fs w) = Some t'
    /\ generateKustomizationCommand E directory w
       = (Ok tt, after_kustomization directory t' w)
    /\ FS.lookup manifest t'
       = Some (FS.File (kustomization_header
                     ++ resource_lines (resources (FS.Dir es)))).
Proof.
  intros (N & L & K) manifest.
  set (name := FS.Join [directory; "kustomization.yaml"]).
  pose proof (parent_walk_Join_found (cwd E) directory "kustomization.yaml"
                (fs w) d es eq_refl eq_refl N L) as PW.
  destruct (put_parent d "kustomization.yaml" (FS.File "") (fs w) es L)
    as [t1 [P1 _]].
  fold manifest in P1.
  set (f := {| file_name := name; file_path := manifest |}).
  (* the file is created *)
  assert (S1 : os_Create E name w
               = (Ok f, {| fs := t1;
                           trace := (trace w ++ [Create name])%list |})).
  { unfold name, os_Create, bind, emit, get_fs. cbn [fs trace].
    rewrite PW. fold manifest. rewrite P1.
    now destruct (FS.assoc "kustomization.yaml" es) as [[data|sub|]|]. }
  (* the header is written *)
  destruct (put_parent d "kustomization.yaml" (FS.File kustomization_header)
              (fs w) es L) as [t2 [P2 L2]].
  fold manifest in P2.
  pose proof (File_WriteString_put f kustomization_header "" (fs w) t2
                {| fs := t1; trace := (trace w ++ [Create name])%list |}
                P1 P2) as S2.
  (* the walk finds the directory with the file in it *)
  assert (Cm : creatable (FS.lookup manifest (fs w)) = true).
  { unfold manifest. now rewrite (creatable_lookup _ _ _ _ L). }
  pose proof (namei_grows _ _ _ _ _ (put_grows _ _ _ _ P2 Cm) N) as N2.
  assert (St : FS.stat (cwd E) directory t2
               = inr (FS.Dir (FS.set_entry "kustomization.yaml"
                             (FS.File kustomization_header) es))).
  { unfold FS.stat. now rewrite N2, L2. }
  destruct (put_again manifest (FS.File kustomization_header)
              (FS.File (kustomization_text (FS.Dir es))) (fs w) t2 P2) as [t' P'].
  exists t'. split; [exact P'|]. split.
  - unfold generateKustomizationCommand.
    rewrite (bind_Ok _ _ _ _ _ S1), (bind_Ok _ _ _ _ _ S2).
    unfold filepath_Walk, bind at 1, emit. cbn [fs trace].
    unfold bind at 1, get_fs. cbn [fs]. rewrite St.
    rewrite (walk_writes directory f (fs w) _
               {| fs := t2;
                  trace := ((trace w ++ [Create name])
                            ++ [Walk directory])%list |}
               kustomization_header t' P2).
    + unfold after_kustomization. cbn [trace]. now rewrite <- app_assoc.
    + change (file_path f) with manifest.
      rewrite entry_lines_visits, (WalkFacts.resources_set_entry _ _ K).
      exact P'.
  - exact (lookup_put_same _ _ _ _ P').
Qed.

(** A directory found after a regular file was written was there
    before, with the entries it has, the file written apart. *)
Lemma put_dir_back (m : FS.path) (x : string) (t t' : FS.node) :
  FS.put m (FS.File x) t = Some t' ->
  forall p es',
    FS.lookup p t' = Some (FS.Dir es') ->
    exists es,
      FS.lookup p t = Some (FS.Dir es)
      /\ forall c, FS.assoc c es' <> None ->
                   FS.assoc c es <> None \/ (p ++ [c])%list = m.
Proof.
  revert t t'. induction m as [|c m IH]; intros t t' P p es' L.
  - injection P as <-. destruct p; discriminate L.
  - destruct t as [data|es0|]; try discriminate P. cbn [FS.put] in P.
    destruct m as [|c' m].
    + injection P as <-. destruct p as [|y p].
      * injection L as <-. exists es0. split; [reflexivity|].
        intros c0 A. destruct (String.eqb_spec c0 c) as [->|N];
          [now right|]. left. now rewrite assoc_set_entry_other in A.
      * cbn [FS.lookup] in L |- *.
        destruct (String.eqb_spec y c) as [->|N].
        -- rewrite assoc_set_entry_same in L. destruct p; discriminate L.
        -- rewrite assoc_set_entry_other in L by exact N.
           exists es'. split; [exact L|]. intros c0 A. now left.
    + destruct (FS.assoc c es0) as [sub|] eqn:A0; [|discriminate P].
      destruct (FS.put (c' :: m) (FS.File x) sub) as [sub'|] eqn:Q;
        [|discriminate P].
      injection P as <-. destruct p as [|y p].
      * injection L as <-. exists es0. split; [reflexivity|].
        intros c0 A. left. destruct (String.eqb_spec c0 c) as [->|N].
        -- now rewrite A0.
        -- now rewrite assoc_set_entry_other in A.
      * cbn [FS.lookup] in L |- *.
        destruct (String.eqb_spec y c) as [->|N].
        -- rewrite assoc_set_entry_same in L. rewrite A0.
           destruct (IH sub sub' Q p es' L) as [es [Ls B]].
           exists es. split; [exact Ls|]. intros c0 A.
           destruct (B c0 A) as [B1|B2]; [now left|].
           right. cbn [app]. now rewrite B2.
        -- rewrite assoc_set_entry_other in L by exact N.
           exists es'. split; [exact L|]. intros c0 A. now left.
Qed.

(** Where the kernel arrives after a regular file was written, it
    arrived before, unless it arrives at the file. *)
Lemma follow_put_back (m : FS.path) (x : string) (t t' : FS.node)
  (cs st st' : list string) :
  FS.put m (FS.File x) t = Some t' ->
  FS.follow t' st cs = inr st' ->
  FS.follow t st cs = inr st' \/ rev st' = m.
Proof.
  intros P. revert st. induction cs as [|c cs IH]; intros st F; [now left|].
  cbn [FS.follow] in F |- *.
  destruct (FS.lookup (rev st) t') as [[data|es'|]|] eqn:L'; try discriminate F.
  destruct (put_dir_back _ _ _ _ P _ _ L') as [es [L B]]. rewrite L.
  destruct ((c =? "") || (c =? ".")); [now apply IH|].
  destruct (c =? ".."); [now apply IH|].
  destruct (FS.assoc c es') as [n'|] eqn:A'; [|discriminate F].
  destruct (B c) as [B1|B2]; [now rewrite A'| |].
  - destruct (FS.assoc c es); [now apply IH | now destruct B1].
  - destruct cs as [|c2 cs].
    + injection F as <-. now right.
    + exfalso. cbn [FS.follow] in F. cbn [rev] in F. rewrite B2 in F.
      now rewrite (lookup_put_same _ _ _ _ P) in F.
Qed.

(** Where the directory is not found under its name, though the
    manifest can be made under the name [path.Join] makes of it, the
    walk fails at the root, and the manifest holds the header. *)
Lemma generateKustomizationCommand_unwalkable (E : env) (directory : string)
  (w : world) (d : FS.path) (es : list (string * FS.node)) (e0 : FS.errno) :
  FS.parent_walk (cwd E) (FS.Join [directory; "kustomization.yaml"]) (fs w)
  = inr (d, es, FS.LAST_NORM "kustomization.yaml", false) ->
  creatable (FS.assoc "kustomization.yaml" es) = true ->
  FS.namei (cwd E) directory (fs w) = inl e0 ->
  exists e t',
    FS.put (d ++ ["kustomization.yaml"])%list (FS.File kustomization_header)
      (fs w) = Some t'
    /\ FS.stat (cwd E) directory t' = inl e
    /\ generateKustomizationCommand E directory w
       = (Err (PathError "lstat" directory (FS.errno_text e)),
          after_kustomization directory t' w).
Proof.
  intros PW K N0.
  set (name := FS.Join [directory; "kustomization.yaml"]).
  set (manifest := (d ++ ["kustomization.yaml"])%list).
  destruct (parent_walk_Join_lexical (cwd E) directory "kustomization.yaml"
              (fs w) d es _ _ eq_refl eq_refl PW) as (Hd & L & _).
  destruct (put_parent d "kustomization.yaml" (FS.File "") (fs w) es L)
    as [t1 [P1 _]].
  destruct (put_parent d "kustomization.yaml" (FS.File kustomization_header)
              (fs w) es L) as [t2 [P2 _]].
  fold manifest in P1, P2.
  set (f := {| file_name := name; file_path := manifest |}).
  assert (S1 : os_Create E name w
               = (Ok f, {| fs := t1;
                           trace := (trace w ++ [Create name])%list |})).
  { unfold name, os_Create, bind, emit, get_fs. cbn [fs trace].
    rewrite PW. fold manifest. rewrite P1.
    now destruct (FS.assoc "kustomization.yaml" es) as [[data|sub|]|]. }
  pose proof (File_WriteString_put f kustomization_header "" (fs w) t2
                {| fs := t1; trace := (trace w ++ [Create name])%list |}
                P1 P2) as S2.
  assert (N2 : exists e, FS.namei (cwd E) directory t2 = inl e).
  { destruct (FS.namei (cwd E) directory t2) as [e|p] eqn:N2;
      [now exists e|]. exfalso.
    pose proof (namei_resolve _ _ _ _ N2) as Hp.
    unfold FS.namei in N0, N2. destruct (directory =? ""); [discriminate N2|].
    destruct (FS.follow t2 _ _) as [e|st] eqn:F; [discriminate N2|].
    injection N2 as <-.
    destruct (follow_put_back _ _ _ _ _ _ _ P2 F) as [F0 | F0].
    - now rewrite F0 in N0.
    - rewrite Hp, <- Hd in F0. unfold manifest in F0.
      apply (f_equal (@List.length string)) in F0.
      rewrite length_app in F0. cbn in F0. lia. }
  destruct N2 as [e N2]. exists e, t2. split; [exact P2|].
  assert (St : FS.stat (cwd E) directory t2 = inl e)
    by (unfold FS.stat; now rewrite N2).
  split; [exact St|].
  unfold generateKustomizationCommand.
  rewrite (bind_Ok _ _ _ _ _ S1), (bind_Ok _ _ _ _ _ S2).
  unfold filepath_Walk, bind, emit, get_fs. cbn [fs trace]. rewrite St.
  unfold kustomization_entry, fail, after_kustomization.
  now rewrite <- app_assoc.
Qed.

End Synthesis.

(** C5 does not hold for every directory tree: what the walk comes by
    and is no directory gets a line, a regular file or not.  In a chart
    directory with a socket [run.sock] beside the manifest [a.yaml] the
    synthesizer succeeds and lists both, though [a.yaml] is the one
    regular file of the tree. *)
Lemma generateKustomization_lists_socket_counterexample :
  let tree := FS.Dir [("run.sock", FS.Socket);
                      ("a.yaml", FS.File "kind: Service")] in
  let run := generateKustomizationCommand demo_env "nginx" demo_socket in
  FS.lookup ["work"; "nginx"] (fs demo_socket) = Some tree
  /\ fst run = Ok tt
  /\ FS.lookup ["work"; "nginx"; "kustomization.yaml"] (fs (snd run))
     = Some (FS.File (kustomization_header
                      ++ "  - a.yaml" ++ nl ++ "  - run.sock" ++ nl))
  /\ regular_resources tree = ["a.yaml"]
  /\ FS.lookup ["work"; "nginx"; "run.sock"] (fs demo_socket)
     = Some FS.Socket
  /\ ~ FS.is_file tree ["run.sock"].
Proof.
  cbv zeta. split; [reflexivity|]. split; [vm_compute; reflexivity|].
  split; [vm_compute; reflexivity|]. split; [vm_compute; reflexivity|].
  split; [reflexivity|].
  intros H. inversion H as [|es name sub p Hin Hsub]; subst.
  destruct Hin as [Hin|[Hin|[]]]; [|discriminate Hin].
  injection Hin as <-. inversion Hsub.
Qed.

(** C5.  For a directory that the kernel finds under the name given
    and in which [kustomization.yaml] can be made (no directory and no
    socket of this name stands there), the synthesizer succeeds and
    writes the file [kustomization.yaml] of that directory, and
    nothing else: the fixed header, then a line [  - <relative-path>]
    for each resource, in the order of the listing [FS.leaves] (entries
    by ascending name, depth-first), which is the order of the walk.
    The resources are the files of the tree that are no directories,
    the regular files among them, without [kustomization.yaml]
    itself. *)
Theorem generateKustomization_lists_files (E : env) (directory : string)
  (w : world) (d : FS.path) (es : list (string * FS.node)) :
  kustomizable E directory w d es ->
  let manifest := (d ++ ["kustomization.yaml"])%list in
  exists t',
    FS.put manifest (FS.File (kustomization_text (FS.Dir es))) (fs w) = Some t'
    /\ generateKustomizationCommand E directory w
       = (Ok tt, after_kustomization directory t' w)
    /\ FS.lookup manifest t'
       = Some (FS.File (kustomization_header
                        ++ resource_lines (resources (FS.Dir es))))
    /\ (forall rel, In rel (resources (FS.Dir es))
                    <-> exists q, FS.is_leaf (FS.Dir es) q
                                  /\ rel = FS.rel_string q
                                  /\ rel <> "kustomization.yaml")
    /\ (forall q, FS.is_file (FS.Dir es) q ->
                  FS.rel_string q <> "kustomization.yaml" ->
                  In (FS.rel_string q) (resources (FS.Dir es)))
    /\ resources (FS.Dir es)
       = filter (fun rel => negb (rel =? "kustomization.yaml"))
           (map FS.rel_string
              (map fst (filter (fun v => negb (snd v)) (FS.visits (FS.Dir es))))).
Proof.
  intros K manifest.
  destruct (Synthesis.generateKustomizationCommand_writes E directory w d es K)
    as [t' [P [R L]]].
  exists t'. split; [exact P|]. split; [exact R|]. split; [exact L|].
  split; [|split].
  - intros rel. apply resources_spec.
  - intros q Hq Hk. apply resources_spec. exists q.
    split; [now apply is_file_is_leaf | now split].
  - unfold resources. now rewrite WalkFacts.visits_leaves.
Qed.

Lemma generateKustomization_lists_files_witness :
  exists t',
    generateKustomizationCommand demo_env "nginx" demo_rendered
    = (Ok tt, after_kustomization "nginx" t' demo_rendered)
    /\ FS.lookup ["work"; "nginx"; "kustomization.yaml"] t'
       = Some (FS.File
                 ("apiVersion: kustomize.config.k8s.io/v1beta1" ++ nl ++
                  "kind: Kustomization" ++ nl ++
                  "resources:" ++ nl ++
                  "  - templates/deployment.yaml" ++ nl ++
                  "  - templates/service.yaml" ++ nl)).
Proof.
  destruct (generateKustomization_lists_files demo_env "nginx" demo_rendered
              ["work"; "nginx"]
              [("templates",
                FS.Dir [("service.yaml", FS.File "kind: Service");
                        ("deployment.yaml", FS.File "kind: Deployment")])]
              (conj eq_refl (conj eq_refl eq_refl))) as [t' [_ [R [L _]]]].
  exists t'. exact (conj R L).
Defined.

(** ** C6: running the synthesizer twice *)

(** C6.  Two runs of the synthesizer in a row, whatever file system
    the first one starts in: the second run returns what the first
    returned and leaves the file system as the first left it.  In a
    directory in which the first run can do its work both succeed; the
    second finds the directory with the file the first wrote in it,
    comes by this file on its walk, leaves it out of the resources and
    writes the same bytes again. *)
Theorem generateKustomization_idempotent (E : env) (directory : string)
  (w : world) :
  let first := generateKustomizationCommand E directory w in
  let second := generateKustomizationCommand E directory (snd first) in
  fst second = fst first
  /\ fs (snd second) = fs (snd first)
  /\ forall d es,
       kustomizable E directory w d es ->
       let manifest := (d ++ ["kustomization.yaml"])%list in
       let es1 := FS.set_entry "kustomization.yaml"
                    (FS.File (kustomization_text (FS.Dir es))) es in
       fst first = Ok tt
       /\ fst second = Ok tt
       /\ FS.lookup manifest (fs (snd first))
          = Some (FS.File (kustomization_text (FS.Dir es)))
       /\ FS.lookup manifest (fs (snd second))
          = Some (FS.File (kustomization_text (FS.Dir es)))
       /\ kustomizable E directory (snd first) d es1
       /\ In ["kustomization.yaml"] (FS.leaves (FS.Dir es1))
       /\ ~ In "kustomization.yaml" (resources (FS.Dir es1))
       /\ kustomization_text (FS.Dir es1) = kustomization_text (FS.Dir es).
Proof.
  intros first second.
  assert (I : fst second = fst first /\ fs (snd second) = fs (snd first)).
  { unfold second, first.
    destruct (Synthesis.generateKustomizationCommand_cases E directory (fs w))
      as [[e [_ C]] | [d [es [r [content [t' [_ [_ [_ [_ [C1 C2]]]]]]]]]]].
    - rewrite (C w eq_refl). cbn [fst snd].
      rewrite (C {| fs := fs w; trace := _ |} eq_refl). now split.
    - rewrite (C1 w eq_refl). cbn [fst snd].
      rewrite (C2 (after_kustomization directory t' w) eq_refl). now split. }
  destruct I as [I1 I2]. split; [exact I1|]. split; [exact I2|].
  intros d es K manifest es1.
  destruct (Synthesis.generateKustomizationCommand_writes E directory w d es K)
    as [t1 [P1 [R1 L1]]].
  fold manifest in P1, L1.
  destruct K as (N & L & K).
  destruct (WriteFacts.put_parent d "kustomization.yaml"
              (FS.File (kustomization_text (FS.Dir es))) (fs w) es L)
    as [t1' [P1' D1]].
  fold manifest in P1'. rewrite P1 in P1'. injection P1' as <-.
  fold es1 in D1.
  assert (Cm : creatable (FS.lookup manifest (fs w)) = true).
  { unfold manifest. now rewrite (Synthesis.creatable_lookup _ _ _ _ L). }
  assert (F1 : fs (snd first) = t1) by (unfold first; now rewrite R1).
  assert (T : kustomization_text (FS.Dir es1) = kustomization_text (FS.Dir es)).
  { unfold kustomization_text, es1.
    now rewrite (WalkFacts.resources_set_entry _ _ K). }
  rewrite I1, I2, F1. unfold first at 1 2. rewrite R1. cbn [fst].
  split; [reflexivity|]. split; [reflexivity|].
  split; [exact L1|]. split; [exact L1|]. split; [|split; [|split]].
  - unfold kustomizable. rewrite F1. split; [|split].
    + exact (KernelFacts.namei_grows _ _ _ _ _
               (KernelFacts.put_grows _ _ _ _ P1 Cm) N).
    + exact D1.
    + unfold es1. now rewrite FSFacts.assoc_set_entry_same.
  - apply WalkFacts.leaves_is_leaf.
    apply (@FS.is_leaf_below es1 "kustomization.yaml"
             (FS.File (kustomization_text (FS.Dir es))) []);
      [|constructor].
    apply FSFacts.assoc_In. unfold es1.
    now rewrite FSFacts.assoc_set_entry_same.
  - unfold resources. rewrite filter_In. intros [_ H]. discriminate H.
  - exact T.
Qed.

Lemma generateKustomization_idempotent_witness :
  let first := generateKustomizationCommand demo_env "nginx" demo_rendered in
  let second := generateKustomizationCommand demo_env "nginx" (snd first) in
  fst first = Ok tt
  /\ fst second = Ok tt
  /\ FS.lookup ["work"; "nginx"; "kustomization.yaml"] (fs (snd second))
     = FS.lookup ["work"; "nginx"; "kustomization.yaml"] (fs (snd first))
  /\ fs (snd second) = fs (snd first).
Proof.
  destruct (generateKustomization_idempotent demo_env "nginx" demo_rendered)
    as [_ [H5 H]].
  destruct (H ["work"; "nginx"]
              [("templates",
                FS.Dir [("service.yaml", FS.File "kind: Service");
                        ("deployment.yaml", FS.File "kind: Deployment")])]
              (conj eq_refl (conj eq_refl eq_refl)))
    as [H1 [H2 [H3 [H4 _]]]].
  refine (conj H1 (conj H2 (conj _ H5))).
  exact (eq_trans H4 (eq_sym H3)).
Defined.

(** ** C10: where the manifest goes *)


(** * Further properties of the package

    ** The loader *)

(** X1.  [validate.Struct] reports exactly the required fields that are
    empty, in the order of the struct, and accepts a chart iff none of
    the four is empty. *)
Theorem validate_Struct_reports_empty_fields (chart : HelmChart) :
  match validate_Struct chart with
  | None =>
      Chart chart <> "" /\ Version chart <> ""
      /\ Repository chart <> "" /\ Name chart <> ""
  | Some err =>
      exists fields,
        err = ValidationErrors fields
        /\ fields <> []
        /\ fields
           = ((if Chart chart =? "" then ["Chart"] else [])
              ++ (if Version chart =? "" then ["Version"] else [])
              ++ (if Repository chart =? "" then ["Repository"] else [])
              ++ (if Name chart =? "" then ["Name"] else []))%list
  end.
Proof.
  unfold validate_Struct, required_fields. cbn [filter snd].
  destruct (String.eqb_spec (Chart chart) ""), (String.eqb_spec (Version chart) ""),
    (String.eqb_spec (Repository chart) ""), (String.eqb_spec (Name chart) "");
    cbn [map fst app];
    try (eexists; split; [reflexivity|]; split; [discriminate | reflexivity]).
  repeat split; assumption.
Qed.

(** X2.  [readParameters] only reads: whatever it returns, the file
    system is as before and the reading of the file is all that was
    recorded.  A chart it returns is what [yaml.Unmarshal] made of the
    content of the file, a regular file the kernel finds under the name
    given, where the name leads by the letter; and it has passed the
    validation. *)
Theorem readParameters_only_reads (E : env) (filename : string) (w : world) :
  fs (snd (readParameters E filename w)) = fs w
  /\ since w (snd (readParameters E filename w)) = [ReadFile filename]
  /\ forall chart, fst (readParameters E filename w) = Ok chart ->
       validate_Struct chart = None
       /\ exists data,
            FS.lookup (FS.resolve (cwd E) filename) (fs w) = Some (FS.File data)
            /\ FS.stat (cwd E) filename (fs w) = inr (FS.File data)
            /\ yaml_Unmarshal E data = Ok chart.
Proof.
  split; [|split].
  - unfold readParameters, ioutil_ReadFile, bind, emit, get_fs, ret, fail. cbn.
    destruct (FS.stat _ _ _) as [e|[data|es|]]; cbn; try reflexivity.
    destruct (yaml_Unmarshal E data) as [chart|e]; cbn; [|reflexivity].
    destruct (validate_Struct chart); reflexivity.
  - apply since_app.
    apply (readParameters_trace E filename w _ (fst (readParameters E filename w))).
    now destruct (readParameters E filename w).
  - unfold readParameters, ioutil_ReadFile, bind, emit, get_fs, ret, fail. cbn.
    destruct (FS.stat _ _ _) as [e|[data|es|]] eqn:S; cbn; try discriminate.
    destruct (yaml_Unmarshal E data) as [c|e] eqn:Y; cbn; [|discriminate].
    destruct (validate_Struct c) eqn:V; cbn; [discriminate|].
    intros chart H. injection H as <-. split; [exact V|].
    exists data. split; [exact (KernelFacts.stat_lookup _ _ _ _ S)|].
    split; [reflexivity | exact Y].
Qed.

(** ** The fetcher *)

(** X3.  When the temporary directory cannot be made, [fetch] returns
    an error whose message is the fixed text followed by the message of
    the cause; no command is started and nothing is listed. *)
Theorem fetch_without_temporary_directory (E : env)
  (repository chart version username password : string)
  (w w1 : world) (cause : error) :
  tempDir E w = (Err cause, w1) ->
  fetch E repository chart version username password w
  = (Err (Errorf ("failed to create temporary directory to download helm chart: "
                  ++ error_text cause)), w1)
  /\ since w w1 = [MkdirTemp "" "helmt"].
Proof.
  intros H. split.
  - unfold fetch. apply bind_Err. unfold wrap_error. now rewrite H.
  - apply since_app. exact (tempDir_trace E w w1 _ H).
Qed.

Lemma fetch_without_temporary_directory_witness :
  fetch no_tmp_env "https://example/charts" "nginx" "1.2.3" "admin" "hunter2"
    demo_world
  = (Err (Errorf "failed to create temporary directory to download helm chart: mkdir /tmp/helmt1: permission denied"),
     snd (tempDir no_tmp_env demo_world))
  /\ since demo_world (snd (tempDir no_tmp_env demo_world))
     = [MkdirTemp "" "helmt"].
Proof.
  exact (fetch_without_temporary_directory no_tmp_env "https://example/charts"
           "nginx" "1.2.3" "admin" "hunter2" demo_world _
           (PathError "mkdir" "/tmp/helmt1" "permission denied") eq_refl).
Defined.

(** X4.  When [helm fetch] fails, [fetch] returns the error of the
    command as it is; the temporary directory is not listed and no
    [downloaded] line is printed. *)
Theorem fetch_command_failure (E : env)
  (repository chart version username password : string)
  (w w1 w2 : world) (d : string) (cause : error) :
  tempDir E w = (Ok d, w1) ->
  execute E "helm" no_opts
    (fetch_args repository chart version username password d) w1
  = (Err cause, w2) ->
  fetch E repository chart version username password w = (Err cause, w2)
  /\ since w w2
     = [MkdirTemp "" "helmt";
        Magenta (log_line E "helm"
                   (fetch_args repository chart version username password d));
        Run "helm" "" Output Error
          (fetch_args repository chart version username password d)].
Proof.
  intros H1 H2. split.
  - unfold fetch.
    assert (T : wrap_error (tempDir E) (fun err =>
                  Errorf ("failed to create temporary directory to download helm chart: "
                          ++ error_text err)) w = (Ok d, w1))
      by (unfold wrap_error; now rewrite H1).
    rewrite (bind_Ok _ _ _ _ _ T). apply (bind_Err _ _ _ _ _ H2).
  - apply since_app.
    rewrite (execute_trace _ _ _ _ _ _ H2), (tempDir_trace _ _ _ _ H1).
    now rewrite <- app_assoc.
Qed.

Lemma fetch_command_failure_witness :
  fetch failing_env "https://example/charts" "nginx" "1.2.3" "" "" demo_world
  = (Err (ExitError "exit status 1"),
     snd (fetch failing_env "https://example/charts" "nginx" "1.2.3" "" ""
            demo_world))
  /\ since demo_world
       (snd (fetch failing_env "https://example/charts" "nginx" "1.2.3" "" ""
               demo_world))
     = [MkdirTemp "" "helmt";
        Magenta "helm fetch --repo https://example/charts --version 1.2.3 --destination /tmp/helmt1 nginx";
        Run "helm" "" Output Error
          ["fetch"; "--repo"; "https://example/charts"; "--version"; "1.2.3";
           "--destination"; "/tmp/helmt1"; "nginx"]].
Proof.
  exact (fetch_command_failure failing_env "https://example/charts" "nginx"
           "1.2.3" "" "" demo_world _ _ "/tmp/helmt1"
           (ExitError "exit status 1") eq_refl eq_refl).
Defined.

(** ** The logged command line *)

(** X5.  With no password configured, [execCommand] replaces the bare
    text [--password ]: the value of a [--password] flag, a value in
    which the text [--password] does not occur, is logged in clear,
    right behind the mask. *)
Theorem password_logged_when_not_configured (E : env) (name : string)
  (pre post : list string) (value : string) :
  viper_password E = "" ->
  Str.Contains value "--password" = false ->
  Str.Occurs ("--password *****" ++ value)
    (log_line E name (pre ++ "--password" :: value :: post)).
Proof.
  intros Hp Hv. apply StrFacts.Contains_false_iff in Hv.
  unfold log_line. rewrite Hp, Redaction.Join_flag.
  change (Str.ReplaceAll
            (lead pre ++ ("--password" ++ " " ++ value) ++ trail post)
            ("--password " ++ "") "--password *****")
    with (Str.replace_scan "--password " "--password *****" 0
            (lead pre ++ ("--password" ++ " " ++ value) ++ trail post)).
  assert (Sh : lead pre ++ ("--password" ++ " " ++ value) ++ trail post
               = lead pre ++ "--password " ++ value ++ trail post)
    by now rewrite !StrFacts.append_assoc.
  rewrite Sh.
  destruct (Unmasked.replace_scan_every "--password " "--password *****"
              ltac:(discriminate) Unmasked.flag_border_free
              (String.length (lead pre)) (lead pre) (value ++ trail post)
              (le_n _)) as [a' ->].
  rewrite Masking.replace_scan_copies
    by (intros a1 a2; apply Unmasked.flag_not_in_value; exact Hv).
  exists (name ++ " " ++ a'),
    (Str.replace_scan "--password " "--password *****" 0 (trail post)).
  now rewrite !StrFacts.append_assoc.
Qed.

Lemma password_logged_when_not_configured_witness :
  Str.Occurs "--password *****hunter2"
    (log_line open_env "helm"
       (fetch_args "https://example/charts" "nginx" "1.2.3" "admin" "hunter2"
          "/tmp/helmt1")).
Proof.
  exact (password_logged_when_not_configured open_env "helm"
           ["fetch"; "--repo"; "https://example/charts"; "--version"; "1.2.3";
            "--destination"; "/tmp/helmt1"; "--username"; "admin"]
           ["nginx"] "hunter2" eq_refl eq_refl).
Defined.

(** X6.  A command line in which [--password] does not occur is logged
    as it is, whatever the configured password. *)
Theorem log_line_without_password_flag (E : env) (name : string)
  (arg : list string) :
  Str.Contains (Str.Join arg " ") "--password" = false ->
  log_line E name arg = name ++ " " ++ Str.Join arg " ".
Proof.
  intros H. apply StrFacts.Contains_false_iff in H.
  unfold log_line. f_equal. f_equal. unfold Str.ReplaceAll.
  change ("--password " ++ viper_password E)
    with ("--password" ++ " " ++ viper_password E).
  destruct ("--password" ++ " " ++ viper_password E) eqn:D; [discriminate D|].
  rewrite <- D. apply StrFacts.replace_scan_absent.
  intros K. apply H. refine (StrFacts.Occurs_trans _ K).
  exists "", (" " ++ viper_password E). reflexivity.
Qed.

Lemma log_line_without_password_flag_witness :
  log_line demo_env "helm"
    (template_args "web" "/tmp/helmt1/nginx-1.2.3.tgz" ["values.yaml"] "prod"
       false "out" ["v1"])
  = "helm template web /tmp/helmt1/nginx-1.2.3.tgz --namespace prod --include-crds --skip-tests --values values.yaml --output-dir out --api-versions v1".
Proof.
  exact (log_line_without_password_flag demo_env "helm"
           (template_args "web" "/tmp/helmt1/nginx-1.2.3.tgz" ["values.yaml"]
              "prod" false "out" ["v1"]) eq_refl).
Defined.

(** ** The record of a run *)

Module Records.

Lemma initial_refl {A : Type} (l : list A) : initial l l.
Proof. exists []. now rewrite app_nil_r. Qed.

Lemma initial_app {A : Type} (p l full more : list A) :
  initial l full -> initial (p ++ l) (p ++ full ++ more).
Proof.
  intros [rest ->]. exists (rest ++ more)%list. now rewrite <- !app_assoc.
Qed.

Lemma initial_nil {A : Type} (full : list A) : initial [] full.
Proof. exists full. reflexivity. Qed.

Lemma since_trans (w w1 w2 : world) (l1 l2 : list event) :
  trace w1 = (trace w ++ l1)%list -> trace w2 = (trace w1 ++ l2)%list ->
  trace w2 = (trace w ++ l1 ++ l2)%list.
Proof. intros -> ->. now rewrite app_assoc. Qed.

Lemma os_RemoveAll_trace (E : env) (s : string) (w w' : world)
  (r : result unit) :
  os_RemoveAll E s w = (r, w') -> trace w' = (trace w ++ [RemoveAll s])%list.
Proof.
  unfold os_RemoveAll, bind, emit, get_fs, set_fs, ret, fail. cbn.
  repeat match goal with
         | |- context [match ?x with _ => _ end] => destruct x; cbn
         | |- context [if ?x then _ else _] => destruct x; cbn
         end;
    intros H; now injection H as _ <-.
Qed.

Lemma removeOutput_trace (E : env) (chart : HelmChart) (w w' : world)
  (r : result unit) :
  removeOutput E chart w = (r, w') ->
  trace w' = (trace w ++ [Magenta ("removing folder " ++ Chart chart);
                          RemoveAll (Chart chart)])%list.
Proof.
  unfold removeOutput, removeOutputCommand, color_Magenta, bind, emit.
  intros H. apply os_RemoveAll_trace in H. rewrite H. cbn [trace].
  now rewrite <- app_assoc.
Qed.

Lemma File_WriteString_trace (f : File) (s : string) (w w' : world)
  (r : result nat) :
  File_WriteString f s w = (r, w') -> trace w' = trace w.
Proof.
  unfold File_WriteString, bind, get_fs, set_fs, ret, fail. cbn.
  destruct (FS.lookup (file_path f) (fs w)) as [[data|es|]|]; cbn.
  - destruct (FS.put (file_path f) (FS.File (data ++ s)) (fs w)); cbn;
      intros H; injection H as _ <-; reflexivity.
  - intros H; injection H as _ <-; reflexivity.
  - intros H; injection H as _ <-; reflexivity.
  - intros H; injection H as _ <-; reflexivity.
Qed.

Lemma kustomization_entry_trace (directory : string) (f : File)
  (path : walk_path) (info : option FileInfo) (err : option error)
  (w w' : world) (r : result unit) :
  kustomization_entry directory f path info err w = (r, w') ->
  trace w' = trace w.
Proof.
  unfold kustomization_entry.
  destruct err as [e|]; [intros H; injection H as _ <-; reflexivity|].
  destruct (match info with Some i => IsDir i | None => false end);
    [intros H; injection H as _ <-; reflexivity|].
  unfold filepath_Rel.
  destruct (FS.rel_string (walk_names path) =? "kustomization.yaml");
    [intros H; injection H as _ <-; reflexivity|].
  unfold bind.
  destruct (File_WriteString f _ w) as [[n|e] w1] eqn:W; intros H;
    injection H as _ <-; exact (File_WriteString_trace _ _ _ _ _ W).
Qed.

Lemma for_each_trace {A : Type} (body : A -> M unit) (l : list A) :
  (forall x w w' r, body x w = (r, w') -> trace w' = trace w) ->
  forall w w' r, for_each l body w = (r, w') -> trace w' = trace w.
Proof.
  intros Hb. induction l as [|x l IH]; intros w w' r H.
  - injection H as _ <-. reflexivity.
  - cbn [for_each] in H. unfold bind in H.
    destruct (body x w) as [[[]|e] w1] eqn:B.
    + rewrite (IH _ _ _ H). exact (Hb _ _ _ _ B).
    + injection H as _ <-. exact (Hb _ _ _ _ B).
Qed.

(** The synthesizer records the creation of the file and, once the
    header is written, the walk; nothing else. *)
Lemma generateKustomization_records (E : env) (directory : string)
  (w w' : world) (r : result unit) :
  generateKustomization E directory w = (r, w') ->
  match r with
  | Ok _ => trace w' = (trace w ++ kustomization_events directory)%list
  | Err _ =>
      exists l, trace w' = (trace w ++ l)%list
                /\ initial l (kustomization_events directory)
  end.
Proof.
  unfold generateKustomization, kustomization_events. intros H.
  destruct (Synthesis.generateKustomizationCommand_cases E directory (fs w))
    as [[e [_ C]] | [d [es [r0 [content [t' [_ [_ [_ [_ [C _]]]]]]]]]]];
    rewrite (C w eq_refl) in H; injection H as <- <-; cbn [trace].
  - eexists. split; [reflexivity|]. exists [Walk directory]. reflexivity.
  - destruct r0; [reflexivity|].
    eexists. split; [reflexivity | apply initial_refl].
Qed.

(** [fetch] records its steps up to the one that fails. *)
Lemma fetch_records (E : env)
  (repository chart version username password : string)
  (w w' : world) (r : result string) :
  fetch E repository chart version username password w = (r, w') ->
  exists d,
    match r with
    | Ok artifact =>
        trace w'
        = (trace w ++ fetch_events E repository chart version username
                        password d artifact)%list
    | Err _ =>
        exists l, trace w' = (trace w ++ l)%list
                  /\ forall artifact,
                       initial l (fetch_events E repository chart version
                                    username password d artifact)
    end.
Proof.
  unfold fetch. unfold bind at 1, wrap_error.
  destruct (tempDir E w) as [[d|e] w1] eqn:T.
  - intros H. exists d. revert H.
    pose proof (tempDir_trace _ _ _ _ T) as T1.
    unfold bind at 1.
    destruct (execute E "helm" no_opts
                (fetch_args repository chart version username password d) w1)
      as [[[]|e] w2] eqn:X.
    + pose proof (execute_trace _ _ _ _ _ _ X) as T2.
      unfold bind at 1.
      destruct (dirContent E d w2) as [[content|e] w3] eqn:D.
      * pose proof (dirContent_trace _ _ _ _ _ D) as T3.
        destruct (negb (List.length content =? 1)%nat).
        -- intros H. injection H as <- <-.
           exists [MkdirTemp "" "helmt";
                   Magenta (log_line E "helm"
                              (fetch_args repository chart version username
                                 password d));
                   Run "helm" "" Output Error
                     (fetch_args repository chart version username password d);
                   ReadDir d].
           split.
           ++ rewrite T3, T2, T1. now rewrite <- !app_assoc.
           ++ intros artifact. eexists. reflexivity.
        -- unfold bind, color_Magenta, emit, ret. intros H.
           injection H as <- <-. cbn [trace].
           rewrite T3, T2, T1. unfold fetch_events.
           now rewrite <- !app_assoc.
      * intros H. injection H as <- <-.
        exists [MkdirTemp "" "helmt";
                Magenta (log_line E "helm"
                           (fetch_args repository chart version username
                              password d));
                Run "helm" "" Output Error
                  (fetch_args repository chart version username password d);
                ReadDir d].
        split.
        -- rewrite (dirContent_trace _ _ _ _ _ D), T2, T1.
           now rewrite <- !app_assoc.
        -- intros artifact. eexists. reflexivity.
    + intros H. injection H as <- <-.
      exists [MkdirTemp "" "helmt";
              Magenta (log_line E "helm"
                         (fetch_args repository chart version username
                            password d));
              Run "helm" "" Output Error
                (fetch_args repository chart version username password d)].
      split.
      * rewrite (execute_trace _ _ _ _ _ _ X), T1. now rewrite <- !app_assoc.
      * intros artifact. eexists. reflexivity.
  - intros H. exists "". injection H as <- <-.
    exists [MkdirTemp "" "helmt"]. split.
    + exact (tempDir_trace _ _ _ _ T).
    + intros artifact. eexists. reflexivity.
Qed.

End Records.

(** ** The record of a whole run *)

Module RunRecords.
Import Records.

Lemma recorded_exact (w w' : world) (ok : bool) (full : list event) :
  trace w' = (trace w ++ full)%list -> recorded w w' ok full.
Proof.
  intros H. exists full. split; [exact H|]. split; [apply initial_refl|].
  reflexivity.
Qed.

Lemma recorded_none (w : world) (ok : bool) : recorded w w ok [].
Proof. apply recorded_exact. now rewrite app_nil_r. Qed.

Lemma recorded_step (w w1 w2 : world) (ok : bool) (full1 full2 : list event) :
  recorded w w1 true full1 -> recorded w1 w2 ok full2 ->
  recorded w w2 ok (full1 ++ full2).
Proof.
  intros (l1 & T1 & _ & F1) (l2 & T2 & [rest I2] & F2).
  rewrite (F1 eq_refl) in T1. exists (full1 ++ l2)%list. split; [|split].
  - rewrite T2, T1. now rewrite <- app_assoc.
  - exists rest. rewrite I2. now rewrite <- app_assoc.
  - intros K. now rewrite (F2 K).
Qed.

Lemma recorded_stop (w w1 : world) (full1 full2 : list event) :
  recorded w w1 false full1 -> recorded w w1 false (full1 ++ full2).
Proof.
  intros (l & T & [rest I] & _). exists l. split; [exact T|]. split.
  - exists (rest ++ full2)%list. rewrite I. now rewrite <- app_assoc.
  - discriminate.
Qed.

Lemma recorded_since (w w' : world) (ok : bool) (full : list event) :
  recorded w w' ok full ->
  initial (since w w') full /\ (ok = true -> since w w' = full).
Proof.
  intros (l & T & I & F). rewrite (since_app _ _ _ T). now split.
Qed.

Lemma generateKustomization_recorded (E : env) (directory : string)
  (w w' : world) (r : result unit) :
  generateKustomization E directory w = (r, w') ->
  recorded w w' (succeeded r) (kustomization_events directory).
Proof.
  intros H. apply generateKustomization_records in H. destruct r as [u|e].
  - now apply recorded_exact.
  - destruct H as (l & T & I). exists l. split; [exact T|]. split; [exact I|].
    discriminate.
Qed.

(** The stages behind [fetch]. *)
Lemma render_recorded (E : env) (clean : bool) (chart : HelmChart)
  (artifact : string) (w w' : world) (r : result unit) :
  ((if clean then removeOutput E chart else ret tt) ;;;
   template E (Name chart) artifact (Values chart) (Namespace chart)
     (SkipCRDs chart) (OutputDir chart) (ApiVersions chart) ;;;
   (if GenerateKustomization (postProcess chart)
    then generateKustomization E (Chart chart)
    else ret tt)) w = (r, w') ->
  recorded w w' (succeeded r) (render_events E clean chart artifact).
Proof.
  unfold render_events. unfold bind at 1.
  destruct ((if clean then removeOutput E chart else ret tt) w)
    as [[[]|e] w1] eqn:C.
  - assert (R1 : recorded w w1 true
                   (if clean
                    then [Magenta ("removing folder " ++ Chart chart);
                          RemoveAll (Chart chart)]
                    else [])).
    { destruct clean.
      - apply recorded_exact. exact (removeOutput_trace _ _ _ _ _ C).
      - injection C as <-. apply recorded_none. }
    unfold bind at 1.
    destruct (template E (Name chart) artifact (Values chart) (Namespace chart)
                (SkipCRDs chart) (OutputDir chart) (ApiVersions chart) w1)
      as [[[]|e] w2] eqn:T.
    + intros H. apply (recorded_step _ _ _ _ _ _ R1).
      apply (recorded_step _ w2).
      * apply recorded_exact. exact (execute_trace _ _ _ _ _ _ T).
      * destruct (GenerateKustomization (postProcess chart)).
        -- exact (generateKustomization_recorded _ _ _ _ _ H).
        -- injection H as <- <-. apply recorded_none.
    + intros H. injection H as <- <-.
      apply (recorded_step _ _ _ _ _ _ R1). apply recorded_stop.
      apply recorded_exact. exact (execute_trace _ _ _ _ _ _ T).
  - intros H. injection H as <- <-. apply recorded_stop.
    destruct clean; [|discriminate C].
    apply recorded_exact. exact (removeOutput_trace _ _ _ _ _ C).
Qed.

(** The record of a run whose descriptor was loaded as [chart]. *)
Lemma run_recorded (E : env) (filename : string) (clean : bool)
  (username password : string) (w w1 : world) (chart : HelmChart) :
  readParameters E filename w = (Ok chart, w1) ->
  exists d artifact,
    recorded w (snd (HelmTemplate E filename clean username password w))
      (succeeded (fst (HelmTemplate E filename clean username password w)))
      (run_events E filename clean username password chart d artifact).
Proof.
  intros R. unfold HelmTemplate. rewrite (bind_Ok _ _ _ _ _ R).
  unfold run_events.
  assert (R0 : recorded w w1 true [ReadFile filename])
    by (apply recorded_exact; exact (readParameters_trace _ _ _ _ _ R)).
  destruct (HelmVersion E w1) as [[[]|e] w2] eqn:V.
  - rewrite (bind_Ok _ _ _ _ _ V).
    assert (R1 : recorded w w2 true
                   [ReadFile filename;
                    Magenta (log_line E "helm" ["version"]);
                    Run "helm" "" Output Error ["version"]]).
    { apply (recorded_step _ _ _ _ [ReadFile filename] _ R0).
      apply recorded_exact. exact (execute_trace _ _ _ _ _ _ V). }
    destruct (fetch E (Repository chart) (Chart chart) (Version chart)
                username password w2) as [[artifact|e] w3] eqn:F.
    + rewrite (bind_Ok _ _ _ _ _ F).
      destruct (fetch_records _ _ _ _ _ _ _ _ _ F) as [d T].
      exists d, artifact.
      apply (recorded_step _ _ _ _ _ _ R1). apply (recorded_step _ w3).
      * now apply recorded_exact.
      * apply render_recorded. now destruct (bind _ _ w3).
    + rewrite (bind_Err _ _ _ _ _ F). cbn [fst snd succeeded].
      destruct (fetch_records _ _ _ _ _ _ _ _ _ F) as [d (l & T & I)].
      exists d, "".
      apply (recorded_step _ _ _ _ _ _ R1). apply recorded_stop.
      exists l. split; [exact T|]. split; [apply I | discriminate].
  - rewrite (bind_Err _ _ _ _ _ V). cbn [fst snd succeeded].
    exists "", "".
    apply (recorded_stop _ _
             [ReadFile filename;
              Magenta (log_line E "helm" ["version"]);
              Run "helm" "" Output Error ["version"]]).
    apply (recorded_step _ _ _ _ [ReadFile filename] _ R0).
    apply recorded_exact. exact (execute_trace _ _ _ _ _ _ V).
Qed.


End RunRecords.

(** X7.  What [HelmTemplate] does is an initial part of one fixed
    sequence: read the descriptor, [helm version], make the temporary
    directory, [helm fetch], list the directory, report the download,
    remove the chart directory when asked to clean, [helm template],
    and create the kustomization file and walk the chart directory
    when the descriptor asks for it.  A successful run records the whole
    sequence; a run whose descriptor cannot be loaded only reads it. *)
Theorem HelmTemplate_records (E : env) (filename : string) (clean : bool)
  (username password : string) (w : world) :
  let run := HelmTemplate E filename clean username password w in
  match readParameters E filename w with
  | (Err _, _) => since w (snd run) = [ReadFile filename]
  | (Ok chart, _) =>
      exists d artifact,
        initial (since w (snd run))
          (run_events E filename clean username password chart d artifact)
        /\ (fst run = Ok tt ->
            since w (snd run)
            = run_events E filename clean username password chart d artifact)
  end.
Proof.
  cbv zeta. destruct (readParameters E filename w) as [[chart|e] w1] eqn:R.
  - destruct (RunRecords.run_recorded E filename clean username password
                _ _ _ R) as (d & artifact & H).
    exists d, artifact. apply RunRecords.recorded_since in H.
    destruct H as [I F]. split; [exact I|].
    intros K. apply F. now rewrite K.
  - unfold HelmTemplate. rewrite (bind_Err _ _ _ _ _ R). cbn [snd].
    apply since_app. exact (readParameters_trace _ _ _ _ _ R).
Qed.



(** ** The file system: what a removal and a write leave alone *)

Module FrameFacts.
Import FS FSFacts.

Lemma assoc_del_entry_other (name other : string) (es : list (string * node)) :
  other <> name -> assoc other (del_entry name es) = assoc other es.
Proof.
  intros N. unfold del_entry.
  induction es as [|[k x] es IH]; cbn [filter assoc fst]; [reflexivity|].
  destruct (String.eqb_spec k name) as [->|K]; cbn [negb assoc].
  - destruct (String.eqb_spec name other) as [->|_]; [now destruct N | exact IH].
  - now rewrite IH.
Qed.

(** A regular file that is not below [p] stays when [p] is removed. *)
Lemma remove_keeps (p : path) (t : node) (q : path) (y : string) :
  lookup q t = Some (File y) -> (forall r, q <> (p ++ r)%list) ->
  lookup q (remove p t) = Some (File y).
Proof.
  revert t q. induction p as [|c p IH]; intros t q L N.
  - now destruct (N q).
  - destruct t as [data|es|]; [exact L| |exact L].
    destruct q as [|d q]; [discriminate L|].
    cbn [lookup] in L. cbn [remove].
    destruct (String.eqb_spec d c) as [->|Hdc].
    + destruct p as [|c' p]; [now destruct (N q)|].
      destruct (assoc c es) as [m|] eqn:A; [|discriminate L].
      cbn [lookup]. rewrite assoc_set_entry_same.
      apply IH; [exact L|]. intros r ->. now destruct (N r).
    + destruct p as [|c' p].
      * cbn [lookup]. now rewrite assoc_del_entry_other.
      * destruct (assoc c es) as [m|] eqn:A.
        -- cbn [lookup]. now rewrite assoc_set_entry_other.
        -- exact L.
Qed.

(** A regular file stays when another place, which holds no directory,
    is written. *)
Lemma put_keeps (p : path) (x : string) (t t' : node) (q : path) (y : string) :
  put p (File x) t = Some t' ->
  (forall sub, lookup p t <> Some (Dir sub)) -> q <> p ->
  lookup q t = Some (File y) -> lookup q t' = Some (File y).
Proof.
  revert t t' q. induction p as [|c p IH]; intros t t' q H D N L.
  - destruct t as [data|es|]; [|now destruct (D es)|];
      (destruct q as [|d q]; [now destruct N | discriminate L]).
  - destruct t as [data|es|]; [discriminate H| |discriminate H].
    cbn [put] in H.
    destruct q as [|d q]; [discriminate L|].
    cbn [lookup] in L.
    destruct (String.eqb_spec d c) as [->|Hdc].
    + destruct (assoc c es) as [m|] eqn:A; [|discriminate L].
      destruct p as [|c' p].
      * exfalso. destruct q as [|d' q]; [now destruct N|].
        destruct m as [data|sub|]; [discriminate L| |discriminate L].
        apply (D sub). cbn [lookup]. now rewrite A.
      * destruct (put (c' :: p) (File x) m) as [m'|] eqn:P; [|discriminate H].
        injection H as <-. cbn [lookup]. rewrite assoc_set_entry_same.
        apply (IH m m' q P); [| |exact L].
        -- intros sub K. apply (D sub). cbn [lookup]. now rewrite A.
        -- intros ->. now destruct N.
    + assert (E : assoc d (match t' with Dir es' => es' | _ => [] end)
                  = assoc d es).
      { destruct p as [|c' p].
        - injection H as <-. now apply assoc_set_entry_other.
        - destruct (assoc c es) as [m|]; [|discriminate H].
          destruct (put (c' :: p) (File x) m); [|discriminate H].
          injection H as <-. now apply assoc_set_entry_other. }
      destruct t' as [data'|es'|].
      * destruct p as [|c' p]; [discriminate H|].
        destruct (assoc c es) as [m|]; [|discriminate H].
        destruct (put (c' :: p) (File x) m); discriminate H.
      * cbn [lookup]. now rewrite E.
      * destruct p as [|c' p]; [discriminate H|].
        destruct (assoc c es) as [m|]; [|discriminate H].
        destruct (put (c' :: p) (File x) m); discriminate H.
Qed.

End FrameFacts.

(** X9.  When there is no directory of the given name, the synthesizer
    fails with the error of [os.Create]; the file system stays as it
    was and the walk is not started. *)
Theorem generateKustomization_without_directory (E : env) (directory : string)
  (w : world) :
  (forall es, FS.lookup (FS.resolve (cwd E) directory) (fs w)
              <> Some (FS.Dir es)) ->
  exists reason,
    generateKustomizationCommand E directory w
    = (Err (PathError "open" (FS.Join [directory; "kustomization.yaml"]) reason),
       {| fs := fs w;
          trace := (trace w
                    ++ [Create (FS.Join [directory; "kustomization.yaml"])])%list |})
    /\ (reason = "no such file or directory" \/ reason = "not a directory").
Proof.
  intros D.
  assert (No : forall d es l sl,
             FS.parent_walk (cwd E) (FS.Join [directory; "kustomization.yaml"])
               (fs w) <> inr (d, es, l, sl)).
  { intros d es l sl PW.
    destruct (KernelFacts.parent_walk_Join_lexical (cwd E) directory
                "kustomization.yaml" (fs w) d es l sl eq_refl eq_refl PW)
      as (-> & L & _).
    exact (D es L). }
  destruct (Synthesis.generateKustomizationCommand_cases E directory (fs w))
    as [[e [[PW | [d [es [PW _]]]] C]] | [d [es [r [content [t' [PW _]]]]]]].
  - exists (FS.errno_text e). split; [exact (C w eq_refl)|].
    destruct (KernelFacts.parent_walk_errno _ _ _ _ PW) as [-> | ->];
      [now left | now right].
  - now destruct (No _ _ _ _ PW).
  - now destruct (No _ _ _ _ PW).
Qed.

Lemma generateKustomization_without_directory_witness :
  exists reason,
    generateKustomizationCommand demo_env "nginx" demo_world
    = (Err (PathError "open" (FS.Join ["nginx"; "kustomization.yaml"]) reason),
       {| fs := fs demo_world;
          trace := (trace demo_world
                    ++ [Create (FS.Join ["nginx"; "kustomization.yaml"])])%list |})
    /\ (reason = "no such file or directory" \/ reason = "not a directory").
Proof.
  apply (generateKustomization_without_directory demo_env "nginx" demo_world).
  intros es H. vm_compute in H. discriminate H.
Defined.

(** X10.  The synthesizer writes one file: every other regular file is
    after the run what it was before, and no other regular file
    appears. *)
Theorem generateKustomization_writes_one_file (E : env) (directory : string)
  (w : world) (es : list (string * FS.node)) (q : FS.path) (y : string) :
  let d := FS.resolve (cwd E) directory in
  FS.lookup d (fs w) = Some (FS.Dir es) ->
  (forall sub, FS.assoc "kustomization.yaml" es <> Some (FS.Dir sub)) ->
  q <> (d ++ ["kustomization.yaml"])%list ->
  FS.lookup q (fs (snd (generateKustomizationCommand E directory w)))
  = Some (FS.File y)
  <-> FS.lookup q (fs w) = Some (FS.File y).
Proof.
  cbv zeta. intros L A N.
  destruct (Synthesis.generateKustomizationCommand_cases E directory (fs w))
    as [[e [_ C]] | [d [es' [r [content [t' [PW [_ [_ [P [C _]]]]]]]]]]];
    rewrite (C w eq_refl); cbn [snd after_kustomization fs]; [reflexivity|].
  destruct (KernelFacts.parent_walk_Join_lexical (cwd E) directory
              "kustomization.yaml" (fs w) d es' _ _ eq_refl eq_refl PW)
    as (-> & _).
  split.
  - exact (WriteFacts.put_frame _ _ _ _ _ _ P N).
  - apply (FrameFacts.put_keeps _ _ _ _ _ _ P); [|exact N].
    intros sub K. rewrite FSFacts.lookup_app, L in K. cbn [FS.lookup] in K.
    destruct (FS.assoc "kustomization.yaml" es) as [m|] eqn:M;
      [|discriminate K].
    injection K as ->. now apply (A sub).
Qed.

Lemma generateKustomization_writes_one_file_witness :
  FS.lookup ["work"; "nginx"; "templates"; "service.yaml"]
    (fs (snd (generateKustomizationCommand demo_env "nginx" demo_rendered)))
  = Some (FS.File "kind: Service")
  <-> FS.lookup ["work"; "nginx"; "templates"; "service.yaml"] (fs demo_rendered)
      = Some (FS.File "kind: Service").
Proof.
  apply (generateKustomization_writes_one_file demo_env "nginx" demo_rendered
           [("templates",
             FS.Dir [("service.yaml", FS.File "kind: Service");
                     ("deployment.yaml", FS.File "kind: Deployment")])]).
  - reflexivity.
  - intros sub H. discriminate H.
  - intros H. discriminate H.
Defined.

(** X11.  A clean that succeeds removes what the chart identifier
    names and nothing else: where its last element is an entry [c] of
    the directory at [d], the regular files after [removeOutput] are
    those from before that are not at or below [d/c]; where the chart
    identifier leads to nothing, they are those from before. *)
Theorem removeOutput_keeps_other_files (E : env) (chart : HelmChart)
  (w : world) (q : FS.path) (y : string) :
  validate_Struct chart = None ->
  endsWithDot (Chart chart) = false ->
  removable (cwd E) (Chart chart) (fs w) = true ->
  FS.lookup q (fs (snd (removeOutput E chart w))) = Some (FS.File y)
  <-> (FS.lookup q (fs w) = Some (FS.File y)
       /\ forall d es c sl r,
            FS.parent_walk (cwd E) (Chart chart) (fs w)
            = inr (d, es, FS.LAST_NORM c, sl) ->
            q <> ((d ++ [c]) ++ r)%list).
Proof.
  intros V D R. unfold removeOutput.
  rewrite (RemoveFacts.removeOutputCommand_removable E chart w
             (validated_Chart chart V) D R).
  cbn [snd fs]. unfold without.
  destruct (FS.parent_walk (cwd E) (Chart chart) (fs w))
    as [e|[[[d es] [c| | |]] sl]] eqn:PW;
    try (split; [intros L; split; [exact L | discriminate] | now intros [L _]]).
  assert (Ld : FS.lookup d (fs w) = Some (FS.Dir es)).
  { revert PW. unfold FS.parent_walk.
    destruct (Chart chart =? ""); [discriminate|].
    destruct (FS.follow _ _ _) as [e|st]; [discriminate|].
    destruct (FS.lookup (rev st) (fs w)) as [[data|es0|]|] eqn:L;
      try discriminate.
    intros H. now injection H as <- <- _ _. }
  destruct (FS.assoc c es) as [m|] eqn:A.
  - split.
    + intros L. split.
      * apply (KernelFacts.remove_makes_nothing _ _ _ _ L). discriminate.
      * intros d0 es0 c0 sl0 r H. injection H as <- _ <- _. intros ->.
        rewrite FSFacts.lookup_app, FSFacts.lookup_remove in L;
          [discriminate L | now destruct d].
    + intros [L N]. apply FrameFacts.remove_keeps; [exact L|].
      intros r. exact (N d es c sl r eq_refl).
  - split.
    + intros L. split; [exact L|].
      intros d0 es0 c0 sl0 r H. injection H as <- _ <- _. intros ->.
      rewrite <- app_assoc, FSFacts.lookup_app, Ld in L.
      cbn [app FS.lookup] in L. now rewrite A in L.
    + now intros [L _].
Qed.

Lemma removeOutput_keeps_other_files_witness :
  FS.lookup ["work"; "helmt.yaml"]
    (fs (snd (removeOutput demo_env demo_chart demo_rendered)))
  = Some (FS.File "chart: nginx")
  <-> (FS.lookup ["work"; "helmt.yaml"] (fs demo_rendered)
       = Some (FS.File "chart: nginx")
       /\ forall d es c sl r,
            FS.parent_walk (cwd demo_env) (Chart demo_chart) (fs demo_rendered)
            = inr (d, es, FS.LAST_NORM c, sl) ->
            ["work"; "helmt.yaml"] <> ((d ++ [c]) ++ r)%list).
Proof.
  apply (removeOutput_keeps_other_files demo_env demo_chart demo_rendered).
  - reflexivity.
  - reflexivity.
  - reflexivity.
Defined.
(** ** Files in subdirectories *)

Module ListingFacts.
Import Str StrFacts.

Lemma slash_free_slash (a b : string) : FS.slash_free (a ++ "/" ++ b) = false.
Proof.
  induction a as [|c a IH]; cbn [append FS.slash_free] in *; [reflexivity|].
  rewrite IH. apply andb_false_r.
Qed.

Lemma resource_line_listed (rel : string) (rels : list string) :
  In rel rels -> Occurs ("  - " ++ rel ++ nl) (resource_lines rels).
Proof.
  induction rels as [|r rels IH]; intros H; [destruct H|].
  cbn [resource_lines]. destruct H as [->|H].
  - apply Occurs_app_l. exists "", "". cbn [append]. now rewrite append_nil_r.
  - apply Occurs_app_r. now apply IH.
Qed.

End ListingFacts.

(** X12.  What is no directory and lies in a subdirectory of the
    directory is always listed, also a file that is itself called
    [kustomization.yaml]: its line stands in the file the synthesizer
    writes. *)
Theorem generateKustomization_lists_nested_files (E : env) (directory : string)
  (w : world) (d : FS.path) (es : list (string * FS.node)) (c c' : string)
  (q : FS.path) :
  kustomizable E directory w d es ->
  FS.is_leaf (FS.Dir es) (c :: c' :: q) ->
  let manifest := (d ++ ["kustomization.yaml"])%list in
  exists text,
    FS.lookup manifest (fs (snd (generateKustomizationCommand E directory w)))
    = Some (FS.File text)
    /\ Str.Occurs ("  - " ++ String.concat "/" (c :: c' :: q) ++ nl) text.
Proof.
  cbv zeta. intros K F.
  destruct (Synthesis.generateKustomizationCommand_writes E directory w d es K)
    as (t' & _ & -> & T).
  cbn [snd after_kustomization fs]. eexists. split; [exact T|].
  apply StrFacts.Occurs_app_r. apply ListingFacts.resource_line_listed.
  apply resources_spec. exists (c :: c' :: q).
  split; [exact F|]. split; [reflexivity|].
  intros Z.
  assert (S : FS.slash_free (c ++ "/" ++ String.concat "/" (c' :: q)) = true).
  { change (c ++ "/" ++ String.concat "/" (c' :: q))
      with (String.concat "/" (c :: c' :: q)).
    now rewrite Z. }
  rewrite ListingFacts.slash_free_slash in S. discriminate S.
Qed.

Lemma generateKustomization_lists_nested_files_witness :
  exists text,
    FS.lookup ["work"; "nginx"; "kustomization.yaml"]
      (fs (snd (generateKustomizationCommand demo_env "nginx" demo_overlay)))
    = Some (FS.File text)
    /\ Str.Occurs ("  - base/kustomization.yaml" ++ nl) text.
Proof.
  apply (generateKustomization_lists_nested_files demo_env "nginx" demo_overlay
           ["work"; "nginx"]
           [("base", FS.Dir [("kustomization.yaml", FS.File "resources: []")])]
           "base" "kustomization.yaml" []).
  - exact (conj eq_refl (conj eq_refl eq_refl)).
  - apply (@FS.is_leaf_below _ "base"
             (FS.Dir [("kustomization.yaml", FS.File "resources: []")]));
      [left; reflexivity|].
    apply (@FS.is_leaf_below _ "kustomization.yaml" (FS.File "resources: []"));
      [left; reflexivity|].
    apply FS.is_leaf_file.
Defined.

(** ** The listing of a directory *)

Module DirFacts.
Import FS SortFacts.

Lemma fold_left_names (c : list DirEntry) (acc : list string) :
  fold_left (fun result f => result ++ [entry_Name f])%list c acc
  = (acc ++ map entry_Name c)%list.
Proof.
  revert acc. induction c as [|f c IH]; intros acc; cbn [fold_left map].
  - now rewrite app_nil_r.
  - rewrite IH. now rewrite <- app_assoc.
Qed.

Lemma insert_sorted_length {A : Type} (key : A -> string) (x : A) (l : list A) :
  List.length (insert_sorted key x l) = S (List.length l).
Proof.
  induction l as [|y l IH]; [reflexivity|]. cbn [insert_sorted].
  destruct (key x <=? key y); cbn [List.length]; [reflexivity | now rewrite IH].
Qed.

Lemma sort_by_length {A : Type} (key : A -> string) (l : list A) :
  List.length (sort_by key l) = List.length l.
Proof.
  induction l as [|x l IH]; [reflexivity|].
  cbn [sort_by fold_right]. rewrite insert_sorted_length.
  cbn [List.length]. f_equal. exact IH.
Qed.

(** What [dirContentCommand] returns for a directory. *)
Lemma dirContentCommand_lists (E : env) (dir : string) (w : world)
  (es : list (string * node)) :
  stat (cwd E) dir (fs w) = inr (Dir es) ->
  dirContentCommand E dir w
  = (Ok (sort_by (fun name => name) (map fst es)),
     {| fs := fs w; trace := (trace w ++ [ReadDir dir])%list |}).
Proof.
  intros L. unfold dirContentCommand, os_ReadDir, bind, emit, get_fs, ret.
  cbn [fs trace]. rewrite L. rewrite fold_left_names. cbn [app].
  rewrite <- (sort_by_map entry_Name (fun name => name) entry_Name)
    by reflexivity.
  now rewrite map_map.
Qed.

End DirFacts.

(** X13.  For a directory the kernel finds under the name given,
    [dirContent] returns the names of its entries in ascending order,
    one for each entry; the file system stays as it was. *)
Theorem dirContent_sorted_names (E : env) (dir : string) (w : world)
  (es : list (string * FS.node)) :
  FS.stat (cwd E) dir (fs w) = inr (FS.Dir es) ->
  exists names,
    dirContent E dir w
    = (Ok names, {| fs := fs w; trace := (trace w ++ [ReadDir dir])%list |})
    /\ LocallySorted (fun a b => (a <=? b) = true) names
    /\ (forall name, In name names <-> exists n, In (name, n) es)
    /\ List.length names = List.length es.
Proof.
  intros L. exists (FS.sort_by (fun name => name) (map fst es)).
  split; [exact (DirFacts.dirContentCommand_lists E dir w es L)|].
  split; [apply (SortFacts.sort_by_sorted (fun name : string => name))|].
  split.
  - intros name. rewrite SortFacts.sort_by_In, in_map_iff. split.
    + intros [[k n] [<- H]]. now exists n.
    + intros [n H]. now exists (name, n).
  - now rewrite DirFacts.sort_by_length, length_map.
Qed.

Lemma dirContent_sorted_names_witness :
  exists names,
    dirContent demo_env "nginx/templates" demo_rendered
    = (Ok names,
       {| fs := fs demo_rendered;
          trace := (trace demo_rendered ++ [ReadDir "nginx/templates"])%list |})
    /\ LocallySorted (fun a b => (a <=? b) = true) names
    /\ (forall name,
          In name names
          <-> exists n, In (name, n)
                          [("service.yaml", FS.File "kind: Service");
                           ("deployment.yaml", FS.File "kind: Deployment")])
    /\ List.length names = 2.
Proof.
  exact (dirContent_sorted_names demo_env "nginx/templates" demo_rendered
           [("service.yaml", FS.File "kind: Service");
            ("deployment.yaml", FS.File "kind: Deployment")] eq_refl).
Defined.

(** X14.  When [helm fetch] has left one entry in the temporary
    directory, the path [fetch] returns is the path of that entry: the
    file system [fetch] leaves is the one [helm fetch] left, and in it
    the kernel finds under the path returned what [helm] left in the
    temporary directory, where the path leads by the letter. *)
Theorem fetch_returns_the_entry (E : env)
  (repository chart version username password : string)
  (w w1 w2 : world) (d name : string) (n : FS.node) :
  tempDir E w = (Ok d, w1) ->
  execute E "helm" no_opts
    (fetch_args repository chart version username password d) w1 = (Ok tt, w2) ->
  FS.stat (cwd E) d (fs w2) = inr (FS.Dir [(name, n)]) ->
  FS.is_name name = true -> FS.slash_free name = true ->
  let run := fetch E repository chart version username password w in
  fst run = Ok (FS.Join [d; name])
  /\ fs (snd run) = fs w2
  /\ FS.stat (cwd E) (FS.Join [d; name]) (fs (snd run)) = inr n
  /\ FS.lookup (FS.resolve (cwd E) (FS.Join [d; name])) (fs (snd run)) = Some n.
Proof.
  intros H1 H2 L N S. cbv zeta.
  pose proof (DirFacts.dirContentCommand_lists E d w2 _ L) as D.
  rewrite (fetch_listed E repository chart version username password
             w w1 w2 _ d _ H1 H2 D).
  cbn [map fst FS.sort_by fold_right FS.insert_sorted List.length Nat.eqb nth
       snd after_download fs].
  split; [reflexivity|]. split; [reflexivity|].
  apply KernelFacts.stat_namei in L. destruct L as [p [Np Lp]].
  destruct (KernelFacts.stat_Join_found (cwd E) d name (fs w2) p
              [(name, n)] n N S Np Lp) as [_ St].
  { cbn [FS.assoc]. now rewrite String.eqb_refl. }
  split; [exact St | exact (KernelFacts.stat_lookup _ _ _ _ St)].
Qed.

Lemma fetch_returns_the_entry_witness :
  let run :=
    fetch demo_env "https://example/charts" "nginx" "1.2.3" "admin" "hunter2"
      demo_world in
  fst run = Ok (FS.Join ["/tmp/helmt1"; "nginx-1.2.3.tgz"])
  /\ fs (snd run) = fs demo_fetched
  /\ FS.stat (cwd demo_env) (FS.Join ["/tmp/helmt1"; "nginx-1.2.3.tgz"])
       (fs (snd run))
     = inr (FS.File "archive")
  /\ FS.lookup (FS.resolve (cwd demo_env)
                  (FS.Join ["/tmp/helmt1"; "nginx-1.2.3.tgz"])) (fs (snd run))
     = Some (FS.File "archive").
Proof.
  exact (fetch_returns_the_entry demo_env "https://example/charts" "nginx"
           "1.2.3" "admin" "hunter2" demo_world
           (snd (tempDir demo_env demo_world))
           {| fs := fs demo_fetched;
              trace := trace (snd (execute demo_env "helm" no_opts
                                     (fetch_args "https://example/charts" "nginx"
                                        "1.2.3" "admin" "hunter2" "/tmp/helmt1")
                                     (snd (tempDir demo_env demo_world)))) |}
           "/tmp/helmt1" "nginx-1.2.3.tgz" (FS.File "archive")
           eq_refl eq_refl eq_refl eq_refl eq_refl).
Defined.

(** ** The first revision *)

(** X15.  The first revision of [execCommand] logs the command line as
    it is: the one line it prints is the name and the arguments joined
    by blanks, so every argument, a password too, can be read in it;
    the command is started with the same arguments. *)
Theorem first_revision_logs_verbatim (E : env) (name : string)
  (arg : list string) (w : world) :
  let w' := snd (FirstRevision.execCommand E name arg w) in
  since w w'
  = [Magenta (name ++ " " ++ Str.Join arg " "); Run name "" Output Error arg]
  /\ forall a, In a arg ->
       exists line, printed (since w w') = [line] /\ Str.Occurs a line.
Proof.
  cbv zeta.
  assert (T : since w (snd (FirstRevision.execCommand E name arg w))
              = [Magenta (name ++ " " ++ Str.Join arg " ");
                 Run name "" Output Error arg]).
  { apply since_app.
    unfold FirstRevision.execCommand, FirstRevision.log_line, color_Magenta,
      Cmd_Run, bind, emit. cbn [fs trace].
    destruct (command_Run E name "" arg _) as [[e|] t]; cbn [snd trace];
      now rewrite <- app_assoc. }
  split; [exact T|].
  intros a H. rewrite T. eexists. split; [reflexivity|].
  exact (first_revision_logs_arguments name a arg H).
Qed.

(** ** Names the kernel does not find *)

(** X16.  Where the directory is not found under the name given, while
    the name [path.Join] makes of it and [kustomization.yaml] leads to
    a place in an existing directory where the file can be made: the
    synthesizer makes the file, writes the header, and fails with the
    error of [os.Lstat] on the directory; the manifest is left with the
    header alone. *)
Theorem generateKustomization_header_only (E : env) (directory : string)
  (w : world) (d : FS.path) (es : list (string * FS.node)) (e0 : FS.errno) :
  FS.parent_walk (cwd E) (FS.Join [directory; "kustomization.yaml"]) (fs w)
  = inr (d, es, FS.LAST_NORM "kustomization.yaml", false) ->
  creatable (FS.assoc "kustomization.yaml" es) = true ->
  FS.namei (cwd E) directory (fs w) = inl e0 ->
  let run := generateKustomizationCommand E directory w in
  exists e,
    fst run = Err (PathError "lstat" directory (FS.errno_text e))
    /\ (e = FS.ENOENT \/ e = FS.ENOTDIR)
    /\ since w (snd run)
       = [Create (FS.Join [directory; "kustomization.yaml"]); Walk directory]
    /\ FS.put (d ++ ["kustomization.yaml"])%list (FS.File kustomization_header)
         (fs w) = Some (fs (snd run))
    /\ FS.lookup (d ++ ["kustomization.yaml"])%list (fs (snd run))
       = Some (FS.File kustomization_header).
Proof.
  intros PW K N0 run.
  destruct (Synthesis.generateKustomizationCommand_unwalkable E directory w
              d es e0 PW K N0) as [e [t' [P [St R]]]].
  exists e. unfold run. rewrite R. cbn [fst snd after_kustomization fs].
  split; [reflexivity|]. split; [|split; [|split]].
  - unfold FS.stat in St.
    destruct (FS.namei (cwd E) directory t') as [e1|p] eqn:N.
    + injection St as <-. unfold FS.namei in N.
      destruct (directory =? ""); [injection N as <-; now left|].
      destruct (FS.follow t' _ _) as [e2|st] eqn:F; [|discriminate N].
      injection N as <-. exact (KernelFacts.follow_errno _ _ _ _ F).
    + destruct (FS.lookup p t'); [discriminate St|].
      injection St as <-. now left.
  - now apply since_app.
  - exact P.
  - exact (WriteFacts.lookup_put_same _ _ _ _ P).
Qed.

Lemma generateKustomization_header_only_witness :
  let run :=
    generateKustomizationCommand demo_env "missing/../nginx" demo_rendered in
  FS.lookup (FS.resolve (cwd demo_env) "missing/../nginx") (fs demo_rendered)
  = Some demo_manifests
  /\ exists e,
       fst run = Err (PathError "lstat" "missing/../nginx" (FS.errno_text e))
       /\ (e = FS.ENOENT \/ e = FS.ENOTDIR)
       /\ FS.lookup ["work"; "nginx"; "kustomization.yaml"] (fs (snd run))
          = Some (FS.File kustomization_header).
Proof.
  split; [reflexivity|].
  destruct (generateKustomization_header_only demo_env "missing/../nginx"
              demo_rendered ["work"; "nginx"]
              [("templates",
                FS.Dir [("service.yaml", FS.File "kind: Service");
                        ("deployment.yaml", FS.File "kind: Deployment")])]
              FS.ENOENT eq_refl eq_refl eq_refl) as [e [R [He [_ [_ L]]]]].
  exists e. exact (conj R (conj He L)).
Defined.

(** X17.  A descriptor that is not found under the name given is not
    read, also where the name leads to a file by the letter:
    [readParameters] fails with the error of the [open], and
    [HelmTemplate] returns it with nothing else done. *)
Theorem readParameters_missing_file (E : env) (filename : string)
  (clean : bool) (username password : string) (w : world) (e : FS.errno) :
  FS.stat (cwd E) filename (fs w) = inl e ->
  readParameters E filename w
  = (Err (PathError "open" filename (FS.errno_text e)), after_read filename w)
  /\ HelmTemplate E filename clean username password w
     = (Err (PathError "open" filename (FS.errno_text e)),
        after_read filename w)
  /\ (e = FS.ENOENT \/ e = FS.ENOTDIR).
Proof.
  intros St.
  assert (R : readParameters E filename w
              = (Err (PathError "open" filename (FS.errno_text e)),
                 after_read filename w)).
  { unfold readParameters, ioutil_ReadFile, bind, emit, get_fs, fail.
    cbn [fs trace]. now rewrite St. }
  split; [exact R|]. split.
  - unfold HelmTemplate. exact (bind_Err _ _ _ _ _ R).
  - unfold FS.stat in St.
    destruct (FS.namei (cwd E) filename (fs w)) as [e1|p] eqn:N.
    + injection St as <-. unfold FS.namei in N.
      destruct (filename =? ""); [injection N as <-; now left|].
      destruct (FS.follow (fs w) _ _) as [e2|st] eqn:F; [|discriminate N].
      injection N as <-. exact (KernelFacts.follow_errno _ _ _ _ F).
    + destruct (FS.lookup p (fs w)); [discriminate St|].
      injection St as <-. now left.
Qed.

Lemma readParameters_missing_file_witness :
  FS.lookup (FS.resolve (cwd demo_env) "missing/../helmt.yaml") (fs demo_world)
  = Some (FS.File "chart: nginx")
  /\ readParameters demo_env "missing/../helmt.yaml" demo_world
     = (Err (PathError "open" "missing/../helmt.yaml"
               "no such file or directory"),
        after_read "missing/../helmt.yaml" demo_world).
Proof.
  split; [reflexivity|].
  exact (proj1 (readParameters_missing_file demo_env "missing/../helmt.yaml"
                  true "admin" "hunter2" demo_world FS.ENOENT eq_refl)).
Defined.

